(** * Quality scorer for gaming forum solutions: model and properties

    A shallow embedding of [quality_scorer.py]: the [SolutionMetrics]
    record, the six factor scorers, [calculate_score], [analyze_content],
    [compare_solutions] and the [SolutionRanker] that feeds it.

    Conventions.
    - Python [int] is [Z].
    - Python [float] is IEEE 754 binary64, taken from the Standard
      Library's [SpecFloat] (precision 53, [emax] 1024), so that every
      rounding of the source is present in the model.
    - Python [str] is [string]; text is read as ASCII, so [str.lower]
      touches [A-Z] only and [\d] is [0-9].
    - Exceptions are the [Raise] results of a small error monad.
    - [datetime.now()] reads an ambient clock; the clock is part of the
      world state and every call consumes one reading.
    - [SolutionMetrics] objects are mutable and shared by reference; they
      live in a heap of the world state.
    - [sum] adds its terms from left to right, as CPython does up to
      version 3.11; later versions compensate the rounding errors of
      the additions, which can change the last digit of a total.
    - [list.sort] is given by what it guarantees: a stable sort that
      only asks whether one key is less than another. *)

From Stdlib Require Import ZArith List String Ascii Bool Lia DecimalString.
From Stdlib Require Import Sorting.Permutation Sorting.Sorted.
From Stdlib Require Import Floats.SpecFloat.
Import ListNotations.

Local Open Scope string_scope.
Local Open Scope Z_scope.

(* ================================================================= *)
(** ** Exceptions *)

Inductive exn : Type :=
| TypeError
| OverflowError
| ZeroDivisionError.

Inductive result (A : Type) : Type :=
| Ok (a : A)
| Raise (e : exn).

Arguments Ok {A} a.
Arguments Raise {A} e.

Definition rbind {A B : Type} (r : result A) (k : A -> result B) : result B :=
  match r with
  | Ok a => k a
  | Raise e => Raise e
  end.

(* ================================================================= *)
(** ** Python floats *)

Module PyFloat.

Definition prec : Z := 53.
Definition emax : Z := 1024.

Definition float : Type := spec_float.

Definition fadd : float -> float -> float := SFadd prec emax.
Definition fsub : float -> float -> float := SFsub prec emax.
Definition fmul : float -> float -> float := SFmul prec emax.
Definition fcompare : float -> float -> option comparison := SFcompare.

Definition fzero : float := S754_zero false.

Definition is_nan (f : float) : bool :=
  match f with S754_nan => true | _ => false end.

Definition is_finite (f : float) : bool :=
  match f with S754_zero _ | S754_finite _ _ _ => true | _ => false end.

(** The quotient [a / b] of two positive integers, rounded to the
    nearest binary64 (ties to even). *)
Definition round_quotient (s : bool) (a b : positive) : float :=
  let '(q, e, l) := SFdiv_core_binary prec emax (Zpos a) 0 (Zpos b) 0 in
  binary_round_aux prec emax s q e l.

(** A decimal literal [digits / 10^scale], e.g. [0.95] is
    [decimal 95 2]. *)
Definition decimal (digits : positive) (scale : nat) : float :=
  round_quotient false digits (Z.to_pos (10 ^ Z.of_nat scale)).

(** [float(n)] for an [int]: nearest binary64, [OverflowError] when
    the integer is too large. *)
Definition of_int (n : Z) : result float :=
  match binary_normalize prec emax n 0 false with
  | S754_infinity _ => Raise OverflowError
  | f => Ok f
  end.

(** [a / b] on two [int]s (true division): the exact quotient rounded
    once. *)
Definition true_div (a b : Z) : result float :=
  match a, b with
  | _, Z0 => Raise ZeroDivisionError
  | Z0, Zpos _ => Ok (S754_zero false)
  | Z0, Zneg _ => Ok (S754_zero true)
  | Zpos p, Zpos q =>
      match round_quotient false p q with
      | S754_infinity _ => Raise OverflowError
      | f => Ok f
      end
  | Zneg p, Zneg q =>
      match round_quotient false p q with
      | S754_infinity _ => Raise OverflowError
      | f => Ok f
      end
  | Zpos p, Zneg q | Zneg p, Zpos q =>
      match round_quotient true p q with
      | S754_infinity _ => Raise OverflowError
      | f => Ok f
      end
  end.

End PyFloat.

Import PyFloat.

(* ================================================================= *)
(** ** Python numbers: the values a score can be *)

Inductive pynum : Type :=
| PyInt (z : Z)
| PyFlt (f : float).

(** Exact comparison of an [int] with a [float]. *)
Definition compare_int_float (z : Z) (f : float) : option comparison :=
  match f with
  | S754_nan => None
  | S754_infinity s => Some (if s then Gt else Lt)
  | S754_zero _ => Some (Z.compare z 0)
  | S754_finite s m e =>
      let v := if s then Zneg m else Zpos m in
      Some (match e with
            | Zneg k => Z.compare (Z.shiftl z (Zpos k)) v
            | _ => Z.compare z (Z.shiftl v e)
            end)
  end.

Definition num_compare (x y : pynum) : option comparison :=
  match x, y with
  | PyInt a, PyInt b => Some (Z.compare a b)
  | PyInt a, PyFlt g => compare_int_float a g
  | PyFlt f, PyInt b => option_map CompOpp (compare_int_float b f)
  | PyFlt f, PyFlt g => fcompare f g
  end.

Definition num_lt (x y : pynum) : bool :=
  match num_compare x y with Some Lt => true | _ => false end.
Definition num_gt (x y : pynum) : bool := num_lt y x.
Definition num_le (x y : pynum) : bool :=
  match num_compare x y with Some (Lt | Eq) => true | _ => false end.
Definition num_ge (x y : pynum) : bool := num_le y x.
Definition num_eq (x y : pynum) : bool :=
  match num_compare x y with Some Eq => true | _ => false end.

(** [max(a, b)] and [min(a, b)] keep the first argument unless the
    second is strictly better. *)
Definition py_max (a b : pynum) : pynum := if num_gt b a then b else a.
Definition py_min (a b : pynum) : pynum := if num_lt b a then b else a.

(* ================================================================= *)
(** ** Python strings (ASCII text) *)

Module PyStr.

Definition lower_ascii (c : ascii) : ascii :=
  let n := nat_of_ascii c in
  if (Nat.leb 65 n && Nat.leb n 90)%bool then ascii_of_nat (n + 32) else c.

(** [s.lower()] *)
Fixpoint lower (s : string) : string :=
  match s with
  | EmptyString => EmptyString
  | String c t => String (lower_ascii c) (lower t)
  end.

(** [sub in s] *)
Fixpoint contains (sub s : string) : bool :=
  if String.prefix sub s then true
  else match s with
       | EmptyString => false
       | String _ t => contains sub t
       end.

(** [any(ind in s for ind in inds)] *)
Definition contains_any (inds : list string) (s : string) : bool :=
  existsb (fun ind => contains ind s) inds.

(** Characters on which [str.split()] splits. *)
Definition is_space (c : ascii) : bool :=
  let n := nat_of_ascii c in
  ((Nat.leb 9 n && Nat.leb n 13) || (Nat.leb 28 n && Nat.leb n 32))%bool.

(** [\d] *)
Definition is_digit (c : ascii) : bool :=
  let n := nat_of_ascii c in (Nat.leb 48 n && Nat.leb n 57)%bool.

(** [len(s.split())]: the number of maximal runs of non-space
    characters; [in_word] tells whether the previous character
    belonged to a run. *)
Fixpoint count_words (in_word : bool) (s : string) : Z :=
  match s with
  | EmptyString => 0
  | String c t =>
      if is_space c then count_words false t
      else (if in_word then 0 else 1) + count_words true t
  end.

Definition split_len (s : string) : Z := count_words false s.

(** [s[n:]] *)
Fixpoint drop (n : nat) (s : string) : string :=
  match n, s with
  | O, _ => s
  | S k, String _ t => drop k t
  | S _, EmptyString => EmptyString
  end.

(** Matching under [re.IGNORECASE]: the literal [lit] at the start
    of [s], letters compared without case. *)
Definition iprefix (lit s : string) : bool :=
  String.prefix (lower lit) (lower s).

(** [re.search]: the matcher [m] succeeds at some position of [s]. *)
Fixpoint search (m : string -> bool) (s : string) : bool :=
  if m s then true
  else match s with
       | EmptyString => false
       | String _ t => search m t
       end.

(** [.*] followed by the rest [k] of a pattern: [.] is any character
    but a newline. *)
Fixpoint dotstar (k : string -> bool) (s : string) : bool :=
  if k s then true
  else match s with
       | EmptyString => false
       | String c t =>
           if Ascii.eqb c "010"%char then false else dotstar k t
       end.

(** [\d*\.] at the start of [s] *)
Fixpoint digits_dot (s : string) : bool :=
  match s with
  | EmptyString => false
  | String c t =>
      if is_digit c then digits_dot t else Ascii.eqb c "."%char
  end.

(** [str(n)] for an [int] *)
Definition of_Z (n : Z) : string := NilZero.string_of_int (Z.to_int n).

(** [len(re.findall(lit, s))] for a literal, non-empty pattern: the
    matches are taken left to right and do not overlap.  [skip] is the
    number of characters still covered by the last match. *)
Fixpoint count_from (skip : nat) (lit s : string) : Z :=
  match s with
  | EmptyString => 0
  | String _ t =>
      match skip with
      | S k => count_from k lit t
      | O => if String.prefix lit s
             then 1 + count_from (String.length lit - 1) lit t
             else count_from O lit t
      end
  end.

Definition findall_len (lit s : string) : Z := count_from O lit s.

(** [len(s)] and [s[:n]] *)
Definition len (s : string) : Z := Z.of_nat (String.length s).
Definition take (n : nat) (s : string) : string := String.substring 0 n s.

End PyStr.

(* ================================================================= *)
(** ** [datetime] and [timedelta] *)

(** A [datetime] is an instant on its own wall clock, in microseconds,
    and an optional UTC offset: [None] for a naive value, [Some off] for
    an aware one. *)
Record datetime : Type := {
  instant : Z;
  utcoffset : option Z
}.

(** A [timedelta] is a number of microseconds. *)
Definition timedelta (days : Z) : Z := days * 86400000000.

(** [a - b]: mixing a naive and an aware value raises [TypeError]. *)
Definition datetime_sub (a b : datetime) : result Z :=
  match utcoffset a, utcoffset b with
  | None, None => Ok (instant a - instant b)
  | Some oa, Some ob => Ok ((instant a - oa) - (instant b - ob))
  | _, _ => Raise TypeError
  end.

(* ================================================================= *)
(** ** The metrics record *)

Record SolutionMetrics : Type := {
  (* User metrics *)
  author_reputation : Z;
  author_post_count : Z;
  author_badges : list string;
  (* Post metrics *)
  upvotes : Z;
  downvotes : Z;
  reply_count : Z;
  view_count : Z;
  (* Content metrics *)
  word_count : Z;
  has_steps : bool;
  has_screenshots : bool;
  has_video : bool;
  code_blocks : Z;
  (* Validation metrics *)
  confirmed_working : Z;
  contradicted : bool;
  is_solved : bool;
  dev_response : bool;
  mod_endorsed : bool;
  (* Temporal metrics *)
  post_date : option datetime;
  last_updated : option datetime;
  game_version : option string;
  (* Platform *)
  platform : string
}.

(** [SolutionMetrics()] with every field at its default. *)
Definition default_metrics : SolutionMetrics := {|
  author_reputation := 0; author_post_count := 0; author_badges := [];
  upvotes := 0; downvotes := 0; reply_count := 0; view_count := 0;
  word_count := 0; has_steps := false; has_screenshots := false;
  has_video := false; code_blocks := 0;
  confirmed_working := 0; contradicted := false; is_solved := false;
  dev_response := false; mod_endorsed := false;
  post_date := None; last_updated := None; game_version := None;
  platform := "unknown"
|}.

(* ================================================================= *)
(** ** The world: ambient clock and object heap *)

Record World : Type := {
  clock : nat -> Z;      (* successive readings of the system clock *)
  reads : nat;           (* how many readings were consumed *)
  heap : nat -> SolutionMetrics;  (* the objects, by address *)
  next_ref : nat         (* the first address not yet allocated *)
}.

Definition M (A : Type) : Type := World -> result (A * World).

Definition ret {A : Type} (a : A) : M A := fun w => Ok (a, w).

Definition bind {A B : Type} (c : M A) (k : A -> M B) : M B :=
  fun w => match c w with
           | Ok (a, w') => k a w'
           | Raise e => Raise e
           end.

Definition lift {A : Type} (r : result A) : M A :=
  fun w => match r with
           | Ok a => Ok (a, w)
           | Raise e => Raise e
           end.

Notation "x <- c1 ;; c2" := (bind c1 (fun x => c2))
  (at level 61, c1 at next level, right associativity).

(** [datetime.now()]: a naive value, the next reading of the clock. *)
Definition datetime_now : M datetime :=
  fun w => Ok ({| instant := clock w (reads w); utcoffset := None |},
               {| clock := clock w; reads := S (reads w); heap := heap w;
                  next_ref := next_ref w |}).

(** Reading and writing the object at an address, and creating one. *)
Definition deref (r : nat) : M SolutionMetrics :=
  fun w => Ok (heap w r, w).

Definition store (r : nat) (m : SolutionMetrics) : M unit :=
  fun w => Ok (tt, {| clock := clock w; reads := reads w;
                      heap := fun r' => if Nat.eqb r' r then m else heap w r';
                      next_ref := next_ref w |}).

Definition alloc (m : SolutionMetrics) : M nat :=
  fun w => Ok (next_ref w,
               {| clock := clock w; reads := reads w;
                  heap := fun r' => if Nat.eqb r' (next_ref w) then m
                                    else heap w r';
                  next_ref := S (next_ref w) |}).

(* ================================================================= *)
(** ** [class QualityScorer] *)

Module QualityScorer.

Import PyStr.

(** The six factors, in the order of the [scores] dictionary. *)
Inductive factor : Type :=
| author_credibility
| community_validation
| content_quality
| official_endorsement
| recency
| detail_level.

Definition WEIGHTS (f : factor) : float :=
  match f with
  | author_credibility => decimal 20 2
  | community_validation => decimal 25 2
  | content_quality => decimal 20 2
  | official_endorsement => decimal 15 2
  | recency => decimal 10 2
  | detail_level => decimal 10 2
  end.

Definition PLATFORM_TRUST : list (string * float) :=
  [ ("steam", decimal 11 1);
    ("reddit", decimal 10 1);
    ("gamefaqs", decimal 95 2);
    ("discord", decimal 105 2);
    ("youtube", decimal 9 1);
    ("wiki", decimal 85 2);
    ("forum", decimal 95 2) ].

(** [d.get(key, default)] *)
Fixpoint dict_get {V : Type} (d : list (string * V)) (key : string)
    (default : V) : V :=
  match d with
  | [] => default
  | (k, v) :: rest => if String.eqb k key then v else dict_get rest key default
  end.

(* --------------------------------------------------------------- *)
(** *** Author credibility *)

Definition badge_scores : list (string * Z) :=
  [ ("moderator", 20);
    ("developer", 25);
    ("verified", 15);
    ("helper", 10);
    ("veteran", 10);
    ("expert", 15);
    ("mvp", 20);
    ("trusted", 15) ].

(** The inner loop over [badge_scores.items()]: the first key found
    in the badge adds its points and ends the loop. *)
Fixpoint badge_loop (items : list (string * Z)) (badge_lower : string)
    (score : Z) : Z :=
  match items with
  | [] => score
  | (key, points) :: rest =>
      if contains key badge_lower then score + points
      else badge_loop rest badge_lower score
  end.

Definition _score_author_credibility (metrics : SolutionMetrics) : Z :=
  let score := 0 in
  (* Reputation/Karma *)
  let score :=
    if author_reputation metrics >? 10000 then score + 40
    else if author_reputation metrics >? 5000 then score + 35
    else if author_reputation metrics >? 1000 then score + 30
    else if author_reputation metrics >? 500 then score + 20
    else if author_reputation metrics >? 100 then score + 10
    else score in
  (* Post count (experience) *)
  let score :=
    if author_post_count metrics >? 1000 then score + 20
    else if author_post_count metrics >? 500 then score + 15
    else if author_post_count metrics >? 100 then score + 10
    else if author_post_count metrics >? 50 then score + 5
    else score in
  (* Special badges/roles *)
  let score :=
    fold_left (fun score badge => badge_loop badge_scores (lower badge) score)
              (author_badges metrics) score in
  Z.min score 100.

(* --------------------------------------------------------------- *)
(** *** Community validation *)

Definition fgt (x c : float) : bool := SFltb c x.

Definition _score_community_validation (metrics : SolutionMetrics)
    : result Z :=
  let score := 0 in
  (* Upvote/downvote ratio *)
  rbind
    (if upvotes metrics >? 0 then
       rbind (true_div (upvotes metrics)
                       (Z.max 1 (upvotes metrics + downvotes metrics)))
             (fun ratio =>
                Ok (if fgt ratio (decimal 95 2) then score + 30
                    else if fgt ratio (decimal 85 2) then score + 25
                    else if fgt ratio (decimal 75 2) then score + 20
                    else if fgt ratio (decimal 65 2) then score + 15
                    else score + 10))
     else Ok score)
    (fun score =>
       (* Absolute upvotes *)
       let score :=
         if upvotes metrics >? 100 then score + 20
         else if upvotes metrics >? 50 then score + 15
         else if upvotes metrics >? 20 then score + 10
         else if upvotes metrics >? 10 then score + 5
         else score in
       (* Confirmations *)
       let score := score + Z.min (confirmed_working metrics * 10) 30 in
       (* Engagement (replies) *)
       let score :=
         if reply_count metrics >? 20 then score + 15
         else if reply_count metrics >? 10 then score + 10
         else if reply_count metrics >? 5 then score + 5
         else score in
       (* View count (if available) *)
       let score :=
         if view_count metrics >? 10000 then score + 5
         else if view_count metrics >? 1000 then score + 3
         else score in
       Ok (Z.min score 100)).

(* --------------------------------------------------------------- *)
(** *** Content quality *)

Definition _score_content_quality (metrics : SolutionMetrics) : Z :=
  let score := 0 in
  let score := if has_steps metrics then score + 25 else score in
  let score := if has_screenshots metrics then score + 20 else score in
  let score := if has_video metrics then score + 15 else score in
  let score :=
    if code_blocks metrics >? 0
    then score + Z.min (code_blocks metrics * 5) 15 else score in
  let score :=
    if (100 <=? word_count metrics) && (word_count metrics <=? 500)
    then score + 15
    else if (50 <=? word_count metrics) && (word_count metrics <? 100)
    then score + 10
    else if (500 <? word_count metrics) && (word_count metrics <=? 1000)
    then score + 10
    else if word_count metrics >? 1000 then score + 5
    else score in
  let score := if is_solved metrics then score + 10 else score in
  Z.min score 100.

(* --------------------------------------------------------------- *)
(** *** Official endorsement *)

(** The value of [score] just before [min(score, 100)]. *)
Definition official_endorsement_sum (metrics : SolutionMetrics) : Z :=
  let score := 0 in
  let score := if dev_response metrics then score + 50 else score in
  let score := if mod_endorsed metrics then score + 30 else score in
  let score := if is_solved metrics then score + 20 else score in
  score.

Definition _score_official_endorsement (metrics : SolutionMetrics) : Z :=
  Z.min (official_endorsement_sum metrics) 100.

(* --------------------------------------------------------------- *)
(** *** Recency *)

Definition _score_recency (metrics : SolutionMetrics) : M Z :=
  match post_date metrics with
  | None => ret 50  (* Neutral score if no date *)
  | Some d =>
      now <- datetime_now ;;
      age <- lift (datetime_sub now d) ;;
      ret (if age <? timedelta 7 then 100
           else if age <? timedelta 30 then 90
           else if age <? timedelta 90 then 75
           else if age <? timedelta 180 then 60
           else if age <? timedelta 365 then 40
           else 20)
  end.

(* --------------------------------------------------------------- *)
(** *** Detail level *)

Definition _score_detail_level (metrics : SolutionMetrics) : Z :=
  let score := 0 in
  let score :=
    if word_count metrics >? 200 then score + 30
    else if word_count metrics >? 100 then score + 20
    else if word_count metrics >? 50 then score + 10
    else score in
  let score := if has_steps metrics then score + 30 else score in
  let score :=
    if has_screenshots metrics || has_video metrics
    then score + 20 else score in
  let score := if code_blocks metrics >? 0 then score + 20 else score in
  Z.min score 100.

(* --------------------------------------------------------------- *)
(** *** The overall score *)

(** [sum(...)] over a generator of floats: starts from the integer
    [0] and adds from left to right. *)
Definition py_sum (terms : list float) : float :=
  fold_left fadd terms fzero.

(** [scores[factor] * self.WEIGHTS[factor]]: an [int] times a
    [float]. *)
Definition weighted (score : Z) (f : factor) : result float :=
  rbind (of_int score) (fun x => Ok (fmul x (WEIGHTS f))).

(** The terms of the generator, in the order of [scores]. *)
Fixpoint weighted_terms (scores : list (factor * Z)) : result (list float) :=
  match scores with
  | [] => Ok []
  | (f, s) :: rest =>
      rbind (weighted s f) (fun t =>
      rbind (weighted_terms rest) (fun ts => Ok (t :: ts)))
  end.

Definition calculate_score (metrics : SolutionMetrics) : M pynum :=
  let s_author := _score_author_credibility metrics in
  s_community <- lift (_score_community_validation metrics) ;;
  let s_content := _score_content_quality metrics in
  let s_official := _score_official_endorsement metrics in
  s_recency <- _score_recency metrics ;;
  let s_detail := _score_detail_level metrics in
  let scores :=
    [ (author_credibility, s_author);
      (community_validation, s_community);
      (content_quality, s_content);
      (official_endorsement, s_official);
      (recency, s_recency);
      (detail_level, s_detail) ] in
  (* Calculate weighted score *)
  terms <- lift (weighted_terms scores) ;;
  let total_score := py_sum terms in
  (* Apply platform multiplier *)
  let platform_mult :=
    dict_get PLATFORM_TRUST (lower (platform metrics)) (decimal 10 1) in
  let total_score := fmul total_score platform_mult in
  (* Apply penalties *)
  let total_score :=
    if contradicted metrics then fmul total_score (decimal 8 1)
    else total_score in
  (* Clamp to 0-100 *)
  ret (py_min (py_max (PyFlt total_score) (PyInt 0)) (PyInt 100)).

(* --------------------------------------------------------------- *)
(** *** Content analysis *)

Record ContentAnalysis : Type := {
  a_word_count : Z;
  a_has_steps : bool;
  a_has_screenshots : bool;
  a_has_video : bool;
  a_code_blocks : Z;
  a_confirmed_working : Z;
  a_has_warnings : bool
}.

(** [\d+\.] at a position *)
Definition pat_numbered (s : string) : bool :=
  match s with
  | EmptyString => false
  | String c t => is_digit c && digits_dot t
  end.

(** [Step \d+] at a position *)
Definition pat_step (s : string) : bool :=
  iprefix "Step " s &&
  match drop 5 s with
  | EmptyString => false
  | String c _ => is_digit c
  end.

(** [First.*Second.*Third] at a position *)
Definition pat_first_second_third (s : string) : bool :=
  iprefix "First" s &&
  dotstar (fun r => iprefix "Second" r &&
                    dotstar (fun r' => iprefix "Third" r') (drop 6 r))
          (drop 5 s).

Definition step_patterns : list (string -> bool) :=
  [ pat_numbered; pat_step; pat_first_second_third ].

Definition image_indicators : list string :=
  [ "screenshot"; "image"; ".png"; ".jpg"; "![" ].

Definition video_indicators : list string :=
  [ "video"; "youtube"; "youtu.be"; "twitch" ].

Definition confirmation_phrases : list string :=
  [ "this worked"; "works for me"; "can confirm";
    "solved my problem"; "fixed it"; "thanks this helped" ].

Definition warning_phrases : list string :=
  [ "be careful"; "warning"; "caution"; "important";
    "make sure"; "don't forget"; "backup" ].

Definition analyze_content (content : string) : ContentAnalysis := {|
  a_word_count := split_len content;
  a_has_steps := existsb (fun pattern => search pattern content) step_patterns;
  a_has_screenshots := contains_any image_indicators (lower content);
  a_has_video := contains_any video_indicators (lower content);
  a_code_blocks := findall_len "```" content;
  a_confirmed_working :=
    fold_left (fun n phrase => n + findall_len (lower phrase) (lower content))
              confirmation_phrases 0;
  a_has_warnings := contains_any warning_phrases (lower content)
|}.

(* --------------------------------------------------------------- *)
(** *** Strengths and weaknesses *)

Definition append_if (b : bool) (x : string) (l : list string) : list string :=
  if b then l ++ [x] else l.

Definition _identify_strengths (metrics : SolutionMetrics) : list string :=
  let strengths := [] in
  let strengths := append_if (dev_response metrics) "Developer confirmed" strengths in
  let strengths := append_if (is_solved metrics) "Marked as solution" strengths in
  let strengths :=
    append_if (confirmed_working metrics >? 2)
      (of_Z (confirmed_working metrics) ++ " users confirmed working")%string
      strengths in
  let strengths := append_if (has_steps metrics) "Step-by-step instructions" strengths in
  let strengths :=
    append_if (has_screenshots metrics || has_video metrics)
      "Visual aids included" strengths in
  let strengths :=
    append_if (upvotes metrics >? 50)
      ("Highly upvoted (" ++ of_Z (upvotes metrics) ++ ")")%string strengths in
  let strengths :=
    append_if (author_reputation metrics >? 5000) "Trusted author" strengths in
  strengths.

Definition _identify_weaknesses (metrics : SolutionMetrics) : M (list string) :=
  let weaknesses := [] in
  let weaknesses :=
    append_if (contradicted metrics) "Has contradicting replies" weaknesses in
  up <- lift (of_int (upvotes metrics)) ;;
  let weaknesses :=
    append_if (num_gt (PyInt (downvotes metrics)) (PyFlt (fmul up (decimal 3 1))))
      "Significant downvotes" weaknesses in
  old <- match post_date metrics with
         | None => ret false
         | Some d =>
             now <- datetime_now ;;
             age <- lift (datetime_sub now d) ;;
             ret (age >? timedelta 365)
         end ;;
  let weaknesses := append_if old "Over 1 year old" weaknesses in
  let weaknesses :=
    append_if (word_count metrics <? 50) "Very brief explanation" weaknesses in
  let weaknesses :=
    append_if (negb (has_steps metrics) && (word_count metrics >? 200))
      "Lacks structure" weaknesses in
  ret weaknesses.

(* --------------------------------------------------------------- *)
(** *** Ranking a batch *)

(** One dictionary of the ranked list.  [metrics] is a reference to
    the scored object; the two last keys are added by the ranker. *)
Record RankedSolution : Type := {
  score : pynum;
  metrics : nat;
  content_preview : string;
  strengths : list string;
  weaknesses : list string;
  recommendation : option string;
  trust_level : option string
}.

(** The five assignments [metrics.<field> = content_analysis[...]]. *)
Definition backfill (m : SolutionMetrics) (a : ContentAnalysis)
    : SolutionMetrics := {|
  author_reputation := author_reputation m;
  author_post_count := author_post_count m;
  author_badges := author_badges m;
  upvotes := upvotes m;
  downvotes := downvotes m;
  reply_count := reply_count m;
  view_count := view_count m;
  word_count := a_word_count a;
  has_steps := a_has_steps a;
  has_screenshots := a_has_screenshots a;
  has_video := a_has_video a;
  code_blocks := a_code_blocks a;
  confirmed_working := confirmed_working m;
  contradicted := contradicted m;
  is_solved := is_solved m;
  dev_response := dev_response m;
  mod_endorsed := mod_endorsed m;
  post_date := post_date m;
  last_updated := last_updated m;
  game_version := game_version m;
  platform := platform m
|}.

(** The body of the loop of [compare_solutions] for one pair. *)
Definition score_one (solution : nat * string) : M RankedSolution :=
  let '(r, content) := solution in
  (* Analyze content *)
  let content_analysis := analyze_content content in
  (* Update metrics with content analysis *)
  m <- deref r ;;
  _ <- store r (backfill m content_analysis) ;;
  (* Calculate score *)
  m <- deref r ;;
  s <- calculate_score m ;;
  let preview :=
    if len content >? 200 then (take 200 content ++ "...")%string
    else content in
  let st := _identify_strengths m in
  wk <- _identify_weaknesses m ;;
  ret {| score := s; metrics := r; content_preview := preview;
         strengths := st; weaknesses := wk;
         recommendation := None; trust_level := None |}.

Fixpoint score_all (solutions : list (nat * string)) : M (list RankedSolution) :=
  match solutions with
  | [] => ret []
  | solution :: rest =>
      entry <- score_one solution ;;
      entries <- score_all rest ;;
      ret (entry :: entries)
  end.

(** [list.sort(key=..., reverse=True)].  The list is reversed, sorted
    in ascending order by a stable sort that only asks whether one
    key is less than another, and reversed again. *)
Section Sort.
Context {A : Type} (key : A -> pynum).

Fixpoint insert_sorted (x : A) (l : list A) : list A :=
  match l with
  | [] => [x]
  | y :: t =>
      if num_lt (key y) (key x) then y :: insert_sorted x t
      else x :: y :: t
  end.

Fixpoint stable_sort (l : list A) : list A :=
  match l with
  | [] => []
  | x :: t => insert_sorted x (stable_sort t)
  end.

Definition sort_reverse (l : list A) : list A :=
  rev (stable_sort (rev l)).
End Sort.

Definition compare_solutions (solutions : list (nat * string))
    : M (list RankedSolution) :=
  ranked <- score_all solutions ;;
  (* Sort by score *)
  ret (sort_reverse score ranked).

End QualityScorer.

(* ================================================================= *)
(** ** [class SolutionRanker] *)

Module SolutionRanker.

Import PyStr QualityScorer.

(** The value under the key ['date'] of a solution dictionary. *)
Inductive date_value : Type :=
| DateStr (s : string)
| DateObj (d : datetime).

(** A solution dictionary: every key may be missing. *)
Record SolutionDict : Type := {
  d_author_reputation : option Z;
  d_upvotes : option Z;
  d_score : option Z;
  d_downvotes : option Z;
  d_replies : option Z;
  d_is_solved : option bool;
  d_platform : option string;
  d_has_dev_response : option bool;
  d_author_badges : option (list string);
  d_date : option date_value;
  d_content : option string
}.

Definition empty_dict : SolutionDict := {|
  d_author_reputation := None; d_upvotes := None; d_score := None;
  d_downvotes := None; d_replies := None; d_is_solved := None;
  d_platform := None; d_has_dev_response := None;
  d_author_badges := None; d_date := None; d_content := None
|}.

(** The recommendation labels, in the order of the source; their text
    is given without the pictograph that opens it. *)
Inductive recommendation_label : Type :=
| HighlyRecommended
| Recommended
| GoodAlternative
| UseWithCaution
| LastResort.

Definition label_text (l : recommendation_label) : string :=
  match l with
  | HighlyRecommended => "Highly Recommended - Best solution available"
  | Recommended => "Recommended - Most reliable solution found"
  | GoodAlternative => "Good Alternative - Worth trying if primary fails"
  | UseWithCaution => "Use with caution - Some validation needed"
  | LastResort => "Last resort - Limited validation available"
  end.

Section Ranker.

(** [datetime.fromisoformat]: [None] stands for its [ValueError]. *)
Variable fromisoformat : string -> option datetime.

Definition or_default {A : Type} (o : option A) (default : A) : A :=
  match o with Some a => a | None => default end.

Definition _dict_to_metrics (solution_dict : SolutionDict)
    : SolutionMetrics := {|
  author_reputation := or_default (d_author_reputation solution_dict) 0;
  author_post_count := 0;
  author_badges := or_default (d_author_badges solution_dict) [];
  (* 'score' is an alternative name and is mapped after 'upvotes' *)
  upvotes :=
    match d_score solution_dict with
    | Some s => s
    | None => or_default (d_upvotes solution_dict) 0
    end;
  downvotes := or_default (d_downvotes solution_dict) 0;
  reply_count := or_default (d_replies solution_dict) 0;
  view_count := 0;
  word_count := 0; has_steps := false; has_screenshots := false;
  has_video := false; code_blocks := 0;
  confirmed_working := 0;
  contradicted := false;
  is_solved := or_default (d_is_solved solution_dict) false;
  dev_response := or_default (d_has_dev_response solution_dict) false;
  mod_endorsed := false;
  (* Parse date if provided *)
  post_date :=
    match d_date solution_dict with
    | None => None
    | Some (DateStr s) =>
        match fromisoformat s with
        | Some d => Some d
        | None => None  (* except: pass *)
        end
    | Some (DateObj d) => Some d
    end;
  last_updated := None;
  game_version := None;
  platform := or_default (d_platform solution_dict) "unknown"
|}.

Definition _get_recommendation (solution : RankedSolution) (rank : nat)
    (total : nat) : recommendation_label :=
  let score := score solution in
  if Nat.eqb rank 0 && num_gt score (PyInt 80) then HighlyRecommended
  else if Nat.eqb rank 0 && num_gt score (PyInt 60) then Recommended
  else if num_gt score (PyInt 70) then GoodAlternative
  else if num_gt score (PyInt 50) then UseWithCaution
  else LastResort.

Definition _get_trust_level (score : pynum) : string :=
  if num_ge score (PyInt 80) then "Very High"
  else if num_ge score (PyInt 65) then "High"
  else if num_ge score (PyInt 50) then "Moderate"
  else if num_ge score (PyInt 35) then "Low"
  else "Very Low".

(** Convert to metrics objects *)
Fixpoint to_metrics_list (solutions : list SolutionDict)
    : M (list (nat * string)) :=
  match solutions with
  | [] => ret []
  | solution :: rest =>
      r <- alloc (_dict_to_metrics solution) ;;
      let content := or_default (d_content solution) "" in
      l <- to_metrics_list rest ;;
      ret ((r, content) :: l)
  end.

(** Add recommendations *)
Fixpoint annotate (i total : nat) (ranked : list RankedSolution)
    : list RankedSolution :=
  match ranked with
  | [] => []
  | solution :: rest =>
      {| score := score solution;
         metrics := metrics solution;
         content_preview := content_preview solution;
         strengths := strengths solution;
         weaknesses := weaknesses solution;
         recommendation :=
           Some (label_text (_get_recommendation solution i total));
         trust_level := Some (_get_trust_level (score solution)) |}
      :: annotate (S i) total rest
  end.

Definition rank_solutions (solutions : list SolutionDict)
    : M (list RankedSolution) :=
  metrics_list <- to_metrics_list solutions ;;
  (* Score and rank *)
  ranked <- compare_solutions metrics_list ;;
  ret (annotate 0 (List.length ranked) ranked).

End Ranker.

End SolutionRanker.

(* ================================================================= *)
(** * Notions used in the statements and proofs *)

(** ** Rounding *)

Module Rounding.

(** A record [r] at scale [D] stands for the rational [N / D]: its
    mantissa is the integer part and its two bits place the
    fractional part with respect to one half. *)
Definition Rep (N D : Z) (r : shr_record) : Prop :=
  (shr_m r * D <= N < (shr_m r + 1) * D) /\
  match shr_r r, shr_s r with
  | false, false => N = shr_m r * D
  | false, true => shr_m r * D < N /\ 2 * N < (2 * shr_m r + 1) * D
  | true, false => 2 * N = (2 * shr_m r + 1) * D
  | true, true => (2 * shr_m r + 1) * D < 2 * N
  end.

(** [N / D] lies above [M + 1/2], a tie counting when [M] is odd:
    this is when rounding [N / D] to the nearest integer, ties to
    even, gives more than [M]. *)
Definition above (M N D : Z) : bool :=
  if Z.even M then (2 * M + 1) * D <? 2 * N else (2 * M + 1) * D <=? 2 * N.

Definition two53 : Z := 9007199254740992.
Definition two52 : positive := 4503599627370496.

(** The float made of a rounded mantissa [m'] in [[0, 2^53]] at
    exponent [e1]. *)
Definition assemble (sx : bool) (m' e1 : Z) : float :=
  if m' =? two53 then
    if e1 + 1 <=? 971 then S754_finite sx two52 (e1 + 1) else S754_infinity sx
  else
    match m' with
    | Z0 => S754_zero sx
    | Zpos p => if e1 <=? 971 then S754_finite sx p e1 else S754_infinity sx
    | Zneg _ => S754_nan
    end.

(** Neither NaN nor negative. *)
Definition nonneg (f : float) : bool :=
  match f with
  | S754_zero _ => true
  | S754_finite false _ _ => true
  | S754_infinity false => true
  | _ => false
  end.

(** A mantissa and an exponent as binary64 stores them: 53 digits, or
    fewer at the least exponent. *)
Definition well_formed (m : positive) (e : Z) : Prop :=
  (Zpos two52 <= Zpos m < two53 /\ -1074 <= e) \/
  (Zpos m < Zpos two52 /\ e = -1074).

(** A positive number whose mantissa has its 53 digits. *)
Definition full_mantissa (f : float) : bool :=
  match f with
  | S754_finite false m _ => (Zpos two52 <=? Zpos m) && (Zpos m <? two53)
  | _ => false
  end.

(** A zero, a well-formed positive number or plus infinity. *)
Definition regular (f : float) : Prop :=
  match f with
  | S754_zero _ => True
  | S754_finite false m e => well_formed m e
  | S754_infinity false => True
  | _ => False
  end.

End Rounding.

(** ** Scores and records *)

Module Notions.

Import QualityScorer.

(** A score between 0 and 100, both included. *)
Definition in_range (s : pynum) : Prop :=
  num_le (PyInt 0) s = true /\ num_le s (PyInt 100) = true.

(** [min(max(t, 0), 100)] *)
Definition clamp (t : float) : pynum :=
  py_min (py_max (PyFlt t) (PyInt 0)) (PyInt 100).

(** A date that [datetime.now()] can be subtracted from. *)
Definition naive_or_absent (d : option datetime) : Prop :=
  match d with
  | Some d => utcoffset d = None
  | None => True
  end.

(** The record [m] with another value of [upvotes]. *)
Definition with_upvotes (m : SolutionMetrics) (u : Z) : SolutionMetrics := {|
  author_reputation := author_reputation m;
  author_post_count := author_post_count m;
  author_badges := author_badges m;
  upvotes := u;
  downvotes := downvotes m;
  reply_count := reply_count m;
  view_count := view_count m;
  word_count := word_count m;
  has_steps := has_steps m;
  has_screenshots := has_screenshots m;
  has_video := has_video m;
  code_blocks := code_blocks m;
  confirmed_working := confirmed_working m;
  contradicted := contradicted m;
  is_solved := is_solved m;
  dev_response := dev_response m;
  mod_endorsed := mod_endorsed m;
  post_date := post_date m;
  last_updated := last_updated m;
  game_version := game_version m;
  platform := platform m
|}.

(** The record [m] with another value of [contradicted]. *)
Definition with_contradicted (m : SolutionMetrics) (b : bool)
    : SolutionMetrics := {|
  author_reputation := author_reputation m;
  author_post_count := author_post_count m;
  author_badges := author_badges m;
  upvotes := upvotes m;
  downvotes := downvotes m;
  reply_count := reply_count m;
  view_count := view_count m;
  word_count := word_count m;
  has_steps := has_steps m;
  has_screenshots := has_screenshots m;
  has_video := has_video m;
  code_blocks := code_blocks m;
  confirmed_working := confirmed_working m;
  contradicted := b;
  is_solved := is_solved m;
  dev_response := dev_response m;
  mod_endorsed := mod_endorsed m;
  post_date := post_date m;
  last_updated := last_updated m;
  game_version := game_version m;
  platform := platform m
|}.

(** The scores of the six factors, as [calculate_score] lists them. *)
Definition score_table (m : SolutionMetrics) (s_community s_recency : Z)
    : list (factor * Z) :=
  [ (author_credibility, _score_author_credibility m);
    (community_validation, s_community);
    (content_quality, _score_content_quality m);
    (official_endorsement, _score_official_endorsement m);
    (recency, s_recency);
    (detail_level, _score_detail_level m) ].

(** The total after the weighted sum and the platform multiplier,
    before any penalty and before the clamp. *)
Definition pre_penalty_total (m : SolutionMetrics) : M float :=
  s_community <- lift (_score_community_validation m) ;;
  s_recency <- _score_recency m ;;
  terms <- lift (weighted_terms (score_table m s_community s_recency)) ;;
  ret (fmul (py_sum terms)
            (dict_get PLATFORM_TRUST (PyStr.lower (platform m)) (decimal 10 1))).

(** The points of the vote ratio [u / (u + d)], read on integers:
    the mantissas are those of the binary64 constants [0.95],
    [0.85], [0.75] and [0.65]. *)
Definition ratio_points (u d : Z) : Z :=
  if Rounding.above 8556839292003942 (u * Rounding.two53) (u + d) then 30
  else if Rounding.above 7656119366529843 (u * Rounding.two53) (u + d) then 25
  else if Rounding.above 6755399441055744 (u * Rounding.two53) (u + d) then 20
  else if Rounding.above 5854679515581645 (u * Rounding.two53) (u + d) then 15
  else 10.

(** The ladders of author credibility. *)
Definition reputation_points (reputation : Z) : Z :=
  if reputation >? 10000 then 40
  else if reputation >? 5000 then 35
  else if reputation >? 1000 then 30
  else if reputation >? 500 then 20
  else if reputation >? 100 then 10
  else 0.

Definition post_count_points (post_count : Z) : Z :=
  if post_count >? 1000 then 20
  else if post_count >? 500 then 15
  else if post_count >? 100 then 10
  else if post_count >? 50 then 5
  else 0.

Definition sum_Z (l : list Z) : Z := fold_right Z.add 0 l.

(** First match wins: the points of the first key of the table that
    occurs in the lowercased badge, 0 when there is none. *)
Definition first_match_points (badge_lower : string) : Z :=
  match find (fun kp => PyStr.contains (fst kp) badge_lower) badge_scores with
  | Some kp => snd kp
  | None => 0
  end.

(** Stacking, as the data model words it: every category whose key
    occurs in the lowercased badge adds its points, once. *)
Definition stacking_points (badge_lower : string) : Z :=
  sum_Z (map snd (filter (fun kp => PyStr.contains (fst kp) badge_lower)
                         badge_scores)).

Definition stacking_author_credibility (m : SolutionMetrics) : Z :=
  Z.min (reputation_points (author_reputation m)
         + post_count_points (author_post_count m)
         + sum_Z (map (fun badge => stacking_points (PyStr.lower badge))
                      (author_badges m)))
        100.

(** The endorsement claim as worded: the three bonuses, the clamp,
    and a record whose sum before the clamp exceeds 100. *)
Definition endorsement_headroom_claim : Prop :=
  (forall m,
      _score_official_endorsement m =
      Z.min ((if dev_response m then 50 else 0)
             + (if mod_endorsed m then 30 else 0)
             + (if is_solved m then 20 else 0)) 100) /\
  (exists m, 100 < official_endorsement_sum m).

(** Scoring the same record twice in a row. *)
Definition score_twice (m : SolutionMetrics) : M (pynum * pynum) :=
  s1 <- calculate_score m ;;
  s2 <- calculate_score m ;;
  ret (s1, s2).

(** The value of a computation, without the world it leaves. *)
Definition value_of {A : Type} (r : result (A * World)) : result A :=
  match r with
  | Ok (a, _) => Ok a
  | Raise e => Raise e
  end.

(** Two records that agree on every field but the five content
    fields [word_count], [has_steps], [has_screenshots], [has_video]
    and [code_blocks]. *)
Definition same_outside_content (m m' : SolutionMetrics) : Prop :=
  author_reputation m' = author_reputation m /\
  author_post_count m' = author_post_count m /\
  author_badges m' = author_badges m /\
  upvotes m' = upvotes m /\
  downvotes m' = downvotes m /\
  reply_count m' = reply_count m /\
  view_count m' = view_count m /\
  confirmed_working m' = confirmed_working m /\
  contradicted m' = contradicted m /\
  is_solved m' = is_solved m /\
  dev_response m' = dev_response m /\
  mod_endorsed m' = mod_endorsed m /\
  post_date m' = post_date m /\
  last_updated m' = last_updated m /\
  game_version m' = game_version m /\
  platform m' = platform m.

(** The content paired with the last occurrence of the object [r] in
    a batch. *)
Fixpoint last_content (r : nat) (solutions : list (nat * string))
    : option string :=
  match solutions with
  | [] => None
  | (r', content) :: rest =>
      match last_content r rest with
      | Some c => Some c
      | None => if Nat.eqb r r' then Some content else None
      end
  end.

(** A computation that leaves the heap as it found it. *)
Definition keeps_heap {A : Type} (c : M A) : Prop :=
  forall w a w', c w = Ok (a, w') -> heap w' = heap w.

(** No element is less than its predecessor, resp. less than its
    successor. *)
Definition ascending {A : Type} (key : A -> pynum) (x y : A) : Prop :=
  num_lt (key y) (key x) = false.
Definition descending {A : Type} (key : A -> pynum) (x y : A) : Prop :=
  num_lt (key x) (key y) = false.

(** The scores the clamp returns on a regular total: the integer 100,
    or a regular float that is not above 100. *)
Definition settled (s : pynum) : Prop :=
  match s with
  | PyInt z => z = 100
  | PyFlt t => Rounding.regular t /\ num_lt (PyInt 100) (PyFlt t) = false
  end.

(** The place of a settled score: exponent, then mantissa; 100 has the
    place of the float [100.0], a zero comes below every exponent. *)
Definition place (s : pynum) : Z * Z :=
  match s with
  | PyInt _ => (-46, 7036874417766400)
  | PyFlt (S754_finite _ m e) => (e, Zpos m)
  | PyFlt _ => (-2000, 0)
  end.

Definition lex_lt (a b : Z * Z) : bool :=
  (fst a <? fst b) || ((fst a =? fst b) && (snd a <? snd b)).

(** The counts that the data model wants non-negative and that the
    scores depend on. *)
Definition counts_in_domain (m : SolutionMetrics) : Prop :=
  0 <= downvotes m /\ 0 <= confirmed_working m.

(** [x] occurs before [y] in [l]. *)
Definition precedes {A : Type} (x y : A) (l : list A) : Prop :=
  exists l1 l2 l3, l = (l1 ++ x :: l2 ++ y :: l3)%list.

End Notions.

(** ** Sample records and worlds *)

Module Samples.

Definition day : Z := 86400000000.

(** Noon of some day, as a reading of the clock. *)
Definition noon : Z := 738000 * day + 43200000000.

(** A world whose clock always reads [noon]. *)
Definition still_world : World := {|
  clock := fun _ => noon;
  reads := 0;
  heap := fun _ => default_metrics;
  next_ref := 0
|}.

(** The first solution of [main()], ten days old. *)
Definition reddit_metrics : SolutionMetrics := {|
  author_reputation := 8500; author_post_count := 0;
  author_badges := ["trusted"];
  upvotes := 156; downvotes := 3; reply_count := 23; view_count := 0;
  word_count := 0; has_steps := false; has_screenshots := false;
  has_video := false; code_blocks := 0;
  confirmed_working := 0; contradicted := false; is_solved := true;
  dev_response := false; mod_endorsed := false;
  post_date := Some {| instant := noon - 10 * day; utcoffset := None |};
  last_updated := None; game_version := None;
  platform := "reddit"
|}.

(** A record on which every factor scores 100, on the most trusted
    platform, with contradicting replies. *)
Definition steam_best_contradicted : SolutionMetrics := {|
  author_reputation := 20000; author_post_count := 2000;
  author_badges := ["Developer"; "Moderator"];
  upvotes := 200; downvotes := 0; reply_count := 25; view_count := 20000;
  word_count := 300; has_steps := true; has_screenshots := true;
  has_video := true; code_blocks := 3;
  confirmed_working := 3; contradicted := true; is_solved := true;
  dev_response := true; mod_endorsed := true;
  post_date := Some {| instant := noon - day; utcoffset := None |};
  last_updated := None; game_version := None;
  platform := "Steam"
|}.

(** An author with one badge naming two categories. *)
Definition two_category_badge : SolutionMetrics := {|
  author_reputation := 0; author_post_count := 0;
  author_badges := ["Moderator Developer"];
  upvotes := 0; downvotes := 0; reply_count := 0; view_count := 0;
  word_count := 0; has_steps := false; has_screenshots := false;
  has_video := false; code_blocks := 0;
  confirmed_working := 0; contradicted := false; is_solved := false;
  dev_response := false; mod_endorsed := false;
  post_date := None; last_updated := None; game_version := None;
  platform := "unknown"
|}.

(** A post that turns seven days old one microsecond after [noon]. *)
Definition week_old : SolutionMetrics := {|
  author_reputation := 0; author_post_count := 0; author_badges := [];
  upvotes := 0; downvotes := 0; reply_count := 0; view_count := 0;
  word_count := 0; has_steps := false; has_screenshots := false;
  has_video := false; code_blocks := 0;
  confirmed_working := 0; contradicted := false; is_solved := false;
  dev_response := false; mod_endorsed := false;
  post_date := Some {| instant := noon + 1 - 7 * day; utcoffset := None |};
  last_updated := None; game_version := None;
  platform := "reddit"
|}.

(** A world whose clock advances by two microseconds per reading. *)
Definition ticking_world : World := {|
  clock := fun n => noon + 2 * Z.of_nat n;
  reads := 0;
  heap := fun _ => default_metrics;
  next_ref := 0
|}.

(** A batch that scores the same object twice, the second time with
    a text that contains a confirmation and a warning. *)
Definition shared_batch : list (nat * string) :=
  [ (0%nat, "1. Restart the game.");
    (1%nat, "Verify the files.");
    (0%nat, "This worked for me. Warning: backup your save first.") ].

(** A batch whose first two candidates score the same and whose
    third scores more. *)
Definition tie_batch : list (nat * string) :=
  [ (1%nat, "Verify the files.");
    (2%nat, "Verify the files.");
    (0%nat, "1. Restart the game.") ].

Definition shared_world : World := {|
  clock := fun _ => noon;
  reads := 0;
  heap := fun r => match r with
                   | O => reddit_metrics
                   | _ => week_old
                   end;
  next_ref := 2
|}.

(** A solution dated with a timezone-aware timestamp, as
    [datetime(..., tzinfo=timezone.utc)] or the ISO text
    [2024-01-15T10:30:00+00:00] parsed by [fromisoformat]. *)
Definition aware_date : datetime :=
  {| instant := noon - day; utcoffset := Some 0 |}.

Definition aware_solution : SolutionRanker.SolutionDict := {|
  SolutionRanker.d_author_reputation := Some 200;
  SolutionRanker.d_upvotes := Some 45;
  SolutionRanker.d_score := None;
  SolutionRanker.d_downvotes := Some 20;
  SolutionRanker.d_replies := Some 8;
  SolutionRanker.d_is_solved := None;
  SolutionRanker.d_platform := Some "steam";
  SolutionRanker.d_has_dev_response := Some false;
  SolutionRanker.d_author_badges := None;
  SolutionRanker.d_date := Some (SolutionRanker.DateObj aware_date);
  SolutionRanker.d_content := Some "Just use mimic tear and spam magic. Easy."
|}.

(** The same solution with a date that is not an ISO timestamp. *)
Definition garbled_solution : SolutionRanker.SolutionDict := {|
  SolutionRanker.d_author_reputation := Some 200;
  SolutionRanker.d_upvotes := Some 45;
  SolutionRanker.d_score := None;
  SolutionRanker.d_downvotes := Some 20;
  SolutionRanker.d_replies := Some 8;
  SolutionRanker.d_is_solved := None;
  SolutionRanker.d_platform := Some "steam";
  SolutionRanker.d_has_dev_response := Some false;
  SolutionRanker.d_author_badges := None;
  SolutionRanker.d_date := Some (SolutionRanker.DateStr "yesterday");
  SolutionRanker.d_content := Some "Just use mimic tear and spam magic. Easy."
|}.

End Samples.

(** ** Effects on the world *)

Module Effects.

Import QualityScorer.

(** The world [w'] is the world [w] after [n] more readings of the
    clock, and nothing else. *)
Definition reads_only (n : nat) (w w' : World) : Prop :=
  clock w' = clock w /\ reads w' = (reads w + n)%nat /\
  heap w' = heap w /\ next_ref w' = next_ref w.

(** The readings of the clock that scoring a record costs: one for its
    recency, when it has a date. *)
Definition dated (m : SolutionMetrics) : nat :=
  match post_date m with Some _ => 1%nat | None => 0%nat end.

(** The number of pairs of a batch whose record has a date. *)
Definition dated_pairs (w : World) (solutions : list (nat * string)) : nat :=
  List.length (filter (fun solution =>
                         match post_date (heap w (fst solution)) with
                         | Some _ => true
                         | None => false
                         end) solutions).

(** The content that [rank_solutions] pairs with a dictionary. *)
Definition content_of (solution : SolutionRanker.SolutionDict) : string :=
  SolutionRanker.or_default (SolutionRanker.d_content solution) "".

End Effects.

(** ** The records that can be scored *)

Module Domain.

(** Counts as the data model wants them, and a number of upvotes that
    [float] can convert. *)
Definition bounded (m : SolutionMetrics) : Prop :=
  0 <= downvotes m /\ 0 <= confirmed_working m /\
  Z.abs (upvotes m) < 2 ^ 1023.


Definition scorable (m : SolutionMetrics) : Prop :=
  bounded m /\ Notions.naive_or_absent (post_date m).

End Domain.

(** ** Levels of trust *)

Module Levels.

(** The five trust levels, from the lowest to the highest. *)
Definition trust_rank (level : string) : Z :=
  if String.eqb level "Very High" then 4
  else if String.eqb level "High" then 3
  else if String.eqb level "Moderate" then 2
  else if String.eqb level "Low" then 1
  else 0.

(** The rank of the trust level of an entry; 0 when it has none. *)
Definition entry_trust (entry : QualityScorer.RankedSolution) : Z :=
  match QualityScorer.trust_level entry with
  | Some level => trust_rank level
  | None => 0
  end.

(** A zero or a positive number stored in the regular way, with an
    exponent that binary64 has. *)
Definition stored (f : float) : Prop :=
  match f with
  | S754_zero _ => True
  | S754_finite false m e => Rounding.well_formed m e /\ e <= 971
  | _ => False
  end.

End Levels.

(** ** Records on another platform *)

Module Variants.


(** The record [m] with other values of [is_solved], [dev_response]
    and [mod_endorsed]. *)
Definition with_endorsements (m : SolutionMetrics) (solved dev moderator : bool)
    : SolutionMetrics := {|
  author_reputation := author_reputation m;
  author_post_count := author_post_count m;
  author_badges := author_badges m;
  upvotes := upvotes m;
  downvotes := downvotes m;
  reply_count := reply_count m;
  view_count := view_count m;
  word_count := word_count m;
  has_steps := has_steps m;
  has_screenshots := has_screenshots m;
  has_video := has_video m;
  code_blocks := code_blocks m;
  confirmed_working := confirmed_working m;
  contradicted := contradicted m;
  is_solved := solved;
  dev_response := dev;
  mod_endorsed := moderator;
  post_date := post_date m;
  last_updated := last_updated m;
  game_version := game_version m;
  platform := platform m
|}.

End Variants.

(** ** Floats by their value *)

Module Values.

(** The value of a non-negative float, scaled by [2^1100] so that it
    is an integer. *)
Definition value (f : float) : Z :=
  match f with
  | S754_finite _ m e => Zpos m * 2 ^ (e + 1100)
  | _ => 0
  end.

(** A zero, or a positive float with a full mantissa and an exponent
    between [lo] and [hi]. *)
Definition ranged (lo hi : Z) (f : float) : Prop :=
  match f with
  | S754_zero _ => True
  | S754_finite false m e =>
      Zpos Rounding.two52 <= Zpos m < Rounding.two53 /\ lo <= e <= hi
  | _ => False
  end.

(** The float [f] is the rounding of the number that [v] stands for
    (scaled by [2^1100] as well), a number that is 0 or has its
    leading digit at an exponent between [lo + 52] and [hi + 52]. *)
Definition rounds_to (lo hi : Z) (f : float) (v : Z) : Prop :=
  (exists s, f = S754_zero s /\ v = 0) \/
  (exists q e,
      f = binary_round_aux prec emax false q e loc_Exact /\
      Zpos Rounding.two52 <= q /\ -1100 <= e /\
      lo <= Zdigits2 q + e - 53 <= hi /\
      v = q * 2 ^ (e + 1100)).

(** A constant the score is multiplied by: a weight, a platform
    multiplier or the penalty; positive, with a full mantissa, between
    [1/16] and [2]. *)
Definition multiplier (f : float) : bool :=
  match f with
  | S754_finite false m e =>
      (Zpos Rounding.two52 <=? Zpos m) && (Zpos m <? Rounding.two53)
      && (-56 <=? e) && (e <=? -52)
  | _ => false
  end.

(** Two score tables with the same factors, the scores of the first
    not above those of the second, all in [[0,100]]. *)
Definition table_le (scores scores' : list (QualityScorer.factor * Z)) : Prop :=
  Forall2 (fun fs fs' => fst fs = fst fs' /\ 0 <= snd fs <= snd fs' /\ snd fs' <= 100)
          scores scores'.

End Values.

(** ** Sample dictionaries *)

Module Cases.

Import SolutionRanker.

(** The three solutions of [main()], dated from [Samples.noon]; the
    texts are shortened. *)
Definition walkthrough : SolutionDict := {|
  d_author_reputation := Some 8500;
  d_upvotes := Some 156;
  d_score := None;
  d_downvotes := Some 3;
  d_replies := Some 23;
  d_is_solved := Some true;
  d_platform := Some "reddit";
  d_has_dev_response := None;
  d_author_badges := Some ["trusted"];
  d_date := Some (DateObj {| instant := Samples.noon - 10 * Samples.day;
                             utcoffset := None |});
  d_content := Some "1. Equip the Bloodhound Step. This worked!"
|}.

Definition one_liner : SolutionDict := {|
  d_author_reputation := Some 200;
  d_upvotes := Some 45;
  d_score := None;
  d_downvotes := Some 20;
  d_replies := Some 8;
  d_is_solved := None;
  d_platform := Some "steam";
  d_has_dev_response := Some false;
  d_author_badges := None;
  d_date := Some (DateObj {| instant := Samples.noon - 60 * Samples.day;
                             utcoffset := None |});
  d_content := Some "Just use mimic tear and spam magic. Easy."
|}.

Definition guide : SolutionDict := {|
  d_author_reputation := Some 15000;
  d_upvotes := Some 89;
  d_score := None;
  d_downvotes := None;
  d_replies := Some 45;
  d_is_solved := None;
  d_platform := Some "gamefaqs";
  d_has_dev_response := None;
  d_author_badges := Some ["expert"; "veteran"];
  d_date := Some (DateObj {| instant := Samples.noon - 30 * Samples.day;
                             utcoffset := None |});
  d_content := Some "Strategy Guide [Screenshot] [Video guide]"
|}.

Definition main_solutions : list SolutionDict :=
  [ walkthrough; one_liner; guide ].

(** The author of [Samples.reddit_metrics] some years later: more
    reputation, more posts and one more badge. *)
Definition seasoned : SolutionMetrics := {|
  author_reputation := 12000; author_post_count := 600;
  author_badges := ["Developer"; "trusted"];
  upvotes := 156; downvotes := 3; reply_count := 23; view_count := 0;
  word_count := 0; has_steps := false; has_screenshots := false;
  has_video := false; code_blocks := 0;
  confirmed_working := 0; contradicted := false; is_solved := true;
  dev_response := false; mod_endorsed := false;
  post_date := Some {| instant := Samples.noon - 10 * Samples.day;
                       utcoffset := None |};
  last_updated := None; game_version := None;
  platform := "reddit"
|}.

(** [Samples.steam_best_contradicted] with a text four times as
    long. *)
Definition long_winded : SolutionMetrics := {|
  author_reputation := 20000; author_post_count := 2000;
  author_badges := ["Developer"; "Moderator"];
  upvotes := 200; downvotes := 0; reply_count := 25; view_count := 20000;
  word_count := 1200; has_steps := true; has_screenshots := true;
  has_video := true; code_blocks := 3;
  confirmed_working := 3; contradicted := true; is_solved := true;
  dev_response := true; mod_endorsed := true;
  post_date := Some {| instant := Samples.noon - Samples.day;
                       utcoffset := None |};
  last_updated := None; game_version := None;
  platform := "Steam"
|}.

(** A record with the votes of [Samples.steam_best_contradicted] and
    less engagement. *)
Definition quiet : SolutionMetrics := {|
  author_reputation := 0; author_post_count := 0; author_badges := [];
  upvotes := 200; downvotes := 0; reply_count := 23; view_count := 0;
  word_count := 0; has_steps := false; has_screenshots := false;
  has_video := false; code_blocks := 0;
  confirmed_working := 0; contradicted := false; is_solved := false;
  dev_response := false; mod_endorsed := false;
  post_date := None; last_updated := None; game_version := None;
  platform := "unknown"
|}.

(** Three downvotes for ten upvotes: exactly three tenths. *)
Definition three_in_ten : SolutionMetrics := {|
  author_reputation := 0; author_post_count := 0; author_badges := [];
  upvotes := 10; downvotes := 3; reply_count := 0; view_count := 0;
  word_count := 0; has_steps := false; has_screenshots := false;
  has_video := false; code_blocks := 0;
  confirmed_working := 0; contradicted := false; is_solved := false;
  dev_response := false; mod_endorsed := false;
  post_date := None; last_updated := None; game_version := None;
  platform := "unknown"
|}.

End Cases.
(* ================================================================= *)
(** * Facts about binary64 rounding *)

Module FloatFacts.

Import Rounding.

(** The model on known values: [0.95], [156 / 159], an integer beyond
    53 digits, a quotient of two large integers, an underflow. *)
Example decimal_095 :
  decimal 95 2 = S754_finite false 8556839292003942 (-53).
Proof. vm_compute. reflexivity. Qed.

Example true_div_156_159 :
  true_div 156 159 = Ok (S754_finite false 8837252098991162 (-53)).
Proof. vm_compute. reflexivity. Qed.

Example of_int_rounds :
  of_int (2 ^ 60 + 1) = Ok (S754_finite false 4503599627370496 8).
Proof. vm_compute. reflexivity. Qed.

Example true_div_large :
  true_div (2 ^ 2000) (2 ^ 1000 - 1) = Ok (S754_finite false 4503599627370496 948).
Proof. vm_compute. reflexivity. Qed.

Example true_div_underflow : true_div 1 (10 ^ 400) = Ok (S754_zero false).
Proof. vm_compute. reflexivity. Qed.

Example true_div_overflow : true_div (2 ^ 1024) 1 = Raise OverflowError.
Proof. vm_compute. reflexivity. Qed.

(** Number of binary digits. *)
Lemma digits2_size (p : positive) : digits2_pos p = Pos.size p.
Proof. induction p; simpl; congruence. Qed.

Lemma Zdigits2_bounds (m : Z) :
  0 < m -> 2 ^ (Zdigits2 m - 1) <= m < 2 ^ Zdigits2 m.
Proof.
  destruct m as [|p|p]; try lia. intros _. simpl Zdigits2.
  rewrite digits2_size.
  pose proof (Pos.size_gt p) as Hgt. pose proof (Pos.size_le p) as Hle.
  assert (Hpow : Zpos (2 ^ Pos.size p) = 2 ^ Zpos (Pos.size p))
    by (rewrite Pos2Z.inj_pow; reflexivity).
  assert (Hs : 2 ^ Zpos (Pos.size p) = 2 * 2 ^ (Zpos (Pos.size p) - 1)).
  { rewrite <- Z.pow_succ_r by lia. f_equal. lia. }
  split.
  - assert (Zpos (2 ^ Pos.size p) <= Zpos p~0) by (apply Pos2Z.pos_le_pos; exact Hle).
    rewrite Pos2Z.inj_xO in H. lia.
  - rewrite <- Hpow. apply Pos2Z.pos_lt_pos. exact Hgt.
Qed.

Lemma Zdigits2_nonneg (m : Z) : 0 <= Zdigits2 m.
Proof. destruct m; simpl; lia. Qed.

Lemma Zdigits2_le (m d : Z) : 0 <= m < 2 ^ d -> 0 <= d -> Zdigits2 m <= d.
Proof.
  intros [H0 H] Hd. destruct (Z.eq_dec m 0) as [->|Hm]; [simpl; lia|].
  pose proof (Zdigits2_bounds m ltac:(lia)) as [Hlo _].
  destruct (Z_le_gt_dec (Zdigits2 m) d) as [|Hgt]; [assumption|exfalso].
  assert (2 ^ d <= 2 ^ (Zdigits2 m - 1)) by (apply Z.pow_le_mono_r; lia).
  lia.
Qed.

Lemma Zdigits2_eq (m d : Z) : 2 ^ (d - 1) <= m < 2 ^ d -> 0 < d -> Zdigits2 m = d.
Proof.
  intros [Hlo Hhi] Hd.
  assert (0 < m) by (pose proof (Z.pow_pos_nonneg 2 (d - 1)); lia).
  pose proof (Zdigits2_bounds m H) as [Hl Hh].
  pose proof (Zdigits2_nonneg m).
  destruct (Z.lt_trichotomy (Zdigits2 m) d) as [Hlt|[Heq|Hgt]]; [exfalso| assumption | exfalso].
  - assert (2 ^ Zdigits2 m <= 2 ^ (d - 1)) by (apply Z.pow_le_mono_r; lia). lia.
  - assert (2 ^ d <= 2 ^ (Zdigits2 m - 1)) by (apply Z.pow_le_mono_r; lia). lia.
Qed.



Lemma odd_form (D : Z) : Z.even D = false -> exists k, D = 2 * k + 1.
Proof.
  intros H. rewrite <- Z.negb_odd in H. apply negb_false_iff in H.
  apply Z.odd_spec in H. exact H.
Qed.

Lemma even_form (D : Z) : Z.even D = true -> exists k, D = 2 * k.
Proof. intros H. apply Z.even_spec in H. exact H. Qed.

Lemma Rep_loc (D q r : Z) :
  0 < D -> 0 <= r < D ->
  Rep (q * D + r) D (shr_record_of_loc q (new_location D r)).
Proof.
  intros HD Hr. unfold new_location, new_location_even, new_location_odd.
  destruct (Z.even D) eqn:Hev.
  - destruct (Z.eqb_spec r 0) as [->|Hr0].
    + unfold Rep; cbn [shr_m shr_r shr_s shr_record_of_loc]. lia.
    + destruct (Z.compare_spec (2 * r) D); unfold Rep;
        cbn [shr_m shr_r shr_s shr_record_of_loc]; lia.
  - destruct (odd_form D Hev) as [k Hk].
    destruct (Z.eqb_spec r 0) as [->|Hr0].
    + unfold Rep; cbn [shr_m shr_r shr_s shr_record_of_loc]. lia.
    + destruct (Z.compare_spec (2 * r + 1) D); unfold Rep;
        cbn [shr_m shr_r shr_s shr_record_of_loc]; lia.
Qed.

Lemma shr_1_spec (m : Z) (rb sb : bool) :
  0 <= m ->
  shr_1 (Build_shr_record m rb sb) =
  Build_shr_record (m / 2) (Z.odd m) (rb || sb).
Proof.
  intros Hm. destruct m as [|p|p]; [reflexivity| |lia].
  destruct p as [p|p|]; cbn [shr_1].
  - f_equal. rewrite Pos2Z.inj_xI.
    apply (Z.div_unique_pos _ 2 _ 1); lia.
  - f_equal. rewrite Pos2Z.inj_xO.
    apply (Z.div_unique_pos _ 2 _ 0); lia.
  - reflexivity.
Qed.

Lemma half_odd (m : Z) : m = 2 * (m / 2) + (if Z.odd m then 1 else 0).
Proof.
  rewrite (Z.div_mod m 2) at 1 by lia. f_equal.
  rewrite Zmod_odd. reflexivity.
Qed.

Lemma Rep_shr_1 (N D : Z) (r : shr_record) :
  0 < D -> 0 <= shr_m r -> Rep N D r ->
  Rep N (2 * D) (shr_1 r) /\ 0 <= shr_m (shr_1 r).
Proof.
  intros HD Hm. destruct r as [m rb sb]. cbn [shr_m] in Hm.
  rewrite shr_1_spec by assumption.
  unfold Rep; cbn [shr_m shr_r shr_s].
  pose proof (half_odd m) as Hh.
  assert (Hk : 0 <= m / 2) by (apply Z.div_pos; lia).
  set (k := m / 2) in *. clearbody k.
  intros [H1 H2]. split; [|assumption].
  destruct (Z.odd m); subst m.
  - replace ((2 * k + 1) * D) with (2 * (k * D) + D) in * by ring.
    replace ((2 * k + 1 + 1) * D) with (2 * (k * D) + 2 * D) in * by ring.
    replace ((2 * (2 * k + 1) + 1) * D) with (4 * (k * D) + 3 * D) in * by ring.
    replace (k * (2 * D)) with (2 * (k * D)) by ring.
    replace ((k + 1) * (2 * D)) with (2 * (k * D) + 2 * D) by ring.
    replace ((2 * k + 1) * (2 * D)) with (4 * (k * D) + 2 * D) by ring.
    set (kD := k * D) in *. clearbody kD.
    destruct rb, sb; cbn [orb]; lia.
  - replace ((2 * k + 0) * D) with (2 * (k * D)) in * by ring.
    replace ((2 * k + 0 + 1) * D) with (2 * (k * D) + D) in * by ring.
    replace ((2 * (2 * k + 0) + 1) * D) with (4 * (k * D) + D) in * by ring.
    replace (k * (2 * D)) with (2 * (k * D)) by ring.
    replace ((k + 1) * (2 * D)) with (2 * (k * D) + 2 * D) by ring.
    replace ((2 * k + 1) * (2 * D)) with (4 * (k * D) + 2 * D) by ring.
    set (kD := k * D) in *. clearbody kD.
    destruct rb, sb; cbn [orb]; lia.
Qed.

Lemma pow2_xI (p : positive) : 2 ^ Zpos p~1 = 2 ^ Zpos p * (2 ^ Zpos p * 2).
Proof.
  change (Zpos p~1) with (Z.succ (2 * Zpos p)).
  rewrite Z.pow_succ_r by (apply Z.mul_nonneg_nonneg; [discriminate | apply Pos2Z.is_nonneg]).
  rewrite Z.pow_twice_r. ring.
Qed.

Lemma pow2_xO (p : positive) : 2 ^ Zpos p~0 = 2 ^ Zpos p * 2 ^ Zpos p.
Proof.
  change (Zpos p~0) with (2 * Zpos p).
  apply Z.pow_twice_r.
Qed.

Lemma pow2_pos (e : Z) : 0 <= e -> 0 < 2 ^ e.
Proof. intros. apply Z.pow_pos_nonneg; [reflexivity | assumption]. Qed.

Lemma Rep_iter (p : positive) :
  forall (r : shr_record) (N D : Z),
    0 < D -> 0 <= shr_m r -> Rep N D r ->
    Rep N (2 ^ Zpos p * D) (iter_pos shr_1 p r) /\
    0 <= shr_m (iter_pos shr_1 p r).
Proof.
  induction p as [p IH|p IH|]; intros r N D HD Hm HR; cbn [iter_pos].
  - pose proof (pow2_pos (Zpos p) (Pos2Z.is_nonneg p)) as Hp.
    destruct (Rep_shr_1 N D r HD Hm HR) as [H1 H1m].
    assert (HD2 : 0 < 2 * D) by (apply Z.mul_pos_pos; [reflexivity|assumption]).
    destruct (IH _ N (2 * D) HD2 H1m H1) as [H2 H2m].
    assert (HD3 : 0 < 2 ^ Zpos p * (2 * D)) by (apply Z.mul_pos_pos; assumption).
    destruct (IH _ N _ HD3 H2m H2) as [H3 H3m].
    split; [|assumption].
    replace (2 ^ Zpos p~1 * D) with (2 ^ Zpos p * (2 ^ Zpos p * (2 * D)));
      [assumption | rewrite pow2_xI; ring].
  - pose proof (pow2_pos (Zpos p) (Pos2Z.is_nonneg p)) as Hp.
    destruct (IH _ N D HD Hm HR) as [H2 H2m].
    assert (HD3 : 0 < 2 ^ Zpos p * D) by (apply Z.mul_pos_pos; assumption).
    destruct (IH _ N _ HD3 H2m H2) as [H3 H3m].
    split; [|assumption].
    replace (2 ^ Zpos p~0 * D) with (2 ^ Zpos p * (2 ^ Zpos p * D));
      [assumption | rewrite pow2_xO; ring].
  - change (2 ^ 1) with 2. apply Rep_shr_1; assumption.
Qed.

(** Scaling numerator and denominator does not change what a record
    stands for. *)
Lemma Rep_scale (j N D : Z) (r : shr_record) :
  0 < j -> Rep (j * N) (j * D) r -> Rep N D r.
Proof.
  intros Hj. unfold Rep.
  set (m := shr_m r).
  replace (m * (j * D)) with (j * (m * D)) by ring.
  replace ((m + 1) * (j * D)) with (j * ((m + 1) * D)) by ring.
  replace (2 * (j * N)) with (j * (2 * N)) by ring.
  replace ((2 * m + 1) * (j * D)) with (j * ((2 * m + 1) * D)) by ring.
  intros [[H1 H1'] H2].
  apply Z.mul_le_mono_pos_l in H1; [|assumption].
  apply Z.mul_lt_mono_pos_l in H1'; [|assumption].
  split; [split; assumption|].
  destruct (shr_r r), (shr_s r).
  - apply Z.mul_lt_mono_pos_l in H2; assumption.
  - apply Z.mul_reg_l in H2; [assumption | intro; subst j; discriminate].
  - destruct H2 as [H2 H2'].
    apply Z.mul_lt_mono_pos_l in H2; [|assumption].
    apply Z.mul_lt_mono_pos_l in H2'; [|assumption]. split; assumption.
  - apply Z.mul_reg_l in H2; [assumption | intro; subst j; discriminate].
Qed.


Lemma fexp_eq (x : Z) : fexp prec emax x = Z.max (x - 53) (-1074).
Proof. reflexivity. Qed.

Lemma shr_m_of_loc (q : Z) (l : location) :
  shr_m (shr_record_of_loc q l) = q.
Proof. destruct l as [|[| |]]; reflexivity. Qed.

(** The first normalisation: the record is shifted to the exponent
    of the format and still stands for the same rational. *)
Lemma shr_fexp_spec (q e N D : Z) (l : location) :
  0 <= q -> 0 < D -> Rep N D (shr_record_of_loc q l) ->
  exists r1,
    shr_fexp prec emax q e l =
      (r1, Z.max e (fexp prec emax (Zdigits2 q + e))) /\
    Rep N (2 ^ (Z.max e (fexp prec emax (Zdigits2 q + e)) - e) * D) r1 /\
    0 <= shr_m r1.
Proof.
  intros Hq HD HR. unfold shr_fexp, shr.
  set (f := fexp prec emax (Zdigits2 q + e)).
  destruct (f - e) as [|p|p] eqn:Hn.
  - exists (shr_record_of_loc q l).
    replace (Z.max e f) with e by lia.
    rewrite Z.sub_diag. change (2 ^ 0) with 1. rewrite Z.mul_1_l.
    rewrite shr_m_of_loc. auto.
  - exists (iter_pos shr_1 p (shr_record_of_loc q l)).
    replace (Z.max e f) with (e + Zpos p) by lia.
    replace (e + Zpos p - e) with (Zpos p) by lia.
    split; [reflexivity|].
    apply Rep_iter; [assumption | rewrite shr_m_of_loc; assumption | assumption].
  - exists (shr_record_of_loc q l).
    replace (Z.max e f) with e by lia.
    rewrite Z.sub_diag. change (2 ^ 0) with 1. rewrite Z.mul_1_l.
    rewrite shr_m_of_loc. auto.
Qed.


(** Where rounding to nearest even lands with respect to an integer
    [M]. *)
Lemma round_nearest_even_above (N D M : Z) (r : shr_record) :
  0 < D -> Rep N D r ->
  (M <? round_nearest_even (shr_m r) (loc_of_shr_record r)) = above M N D.
Proof.
  intros HD. destruct r as [m rb sb]. unfold Rep, above.
  cbn [shr_m shr_r shr_s loc_of_shr_record].
  intros [[H1 H1'] H2].
  assert (HM : forall x, x < m -> (2 * x + 1) * D + D <= (2 * m) * D).
  { intros x Hx. replace ((2 * x + 1) * D + D) with ((2 * (x + 1)) * D) by ring.
    apply Z.mul_le_mono_nonneg_r; lia. }
  assert (HM' : forall x, m <= x -> (2 * m + 1) * D <= (2 * x + 1) * D).
  { intros x Hx. apply Z.mul_le_mono_nonneg_r; lia. }
  assert (HM'' : forall x, m < x -> (2 * m + 1) * D + 2 * D <= (2 * x + 1) * D).
  { intros x Hx. replace ((2 * m + 1) * D + 2 * D) with ((2 * (m + 1) + 1) * D) by ring.
    apply Z.mul_le_mono_nonneg_r; lia. }
  replace ((2 * m + 1) * D) with (2 * (m * D) + D) in * by ring.
  replace ((m + 1) * D) with (m * D + D) in * by ring.
  replace (2 * m * D) with (2 * (m * D)) in * by ring.
  set (mD := m * D) in *.
  destruct (Z_lt_le_dec M m) as [Hlt|Hge].
  - specialize (HM M Hlt). clear HM' HM''. clearbody mD.
    set (X := (2 * M + 1) * D) in *. clearbody X.
    assert (Hr : (M <? round_nearest_even m
                   (match rb, sb with
                    | false, false => loc_Exact
                    | false, true => loc_Inexact Lt
                    | true, false => loc_Inexact Eq
                    | true, true => loc_Inexact Gt end)) = true).
    { apply Z.ltb_lt. destruct rb, sb; cbn [round_nearest_even];
        try destruct (Z.even m); lia. }
    rewrite Hr. symmetry.
    destruct (Z.even M); [apply Z.ltb_lt | apply Z.leb_le];
      destruct rb, sb; lia.
  - destruct (Z.eq_dec M m) as [->|Hne].
    + clear HM HM' HM''.
      replace ((2 * m + 1) * D) with (2 * mD + D) by (unfold mD; ring).
      clearbody mD.
      destruct rb, sb; cbn [round_nearest_even].
      * (* above one half *)
        replace (m <? m + 1) with true by (symmetry; apply Z.ltb_lt; lia).
        symmetry. destruct (Z.even m); [apply Z.ltb_lt | apply Z.leb_le]; lia.
      * (* tie *)
        destruct (Z.even m).
        -- rewrite Z.ltb_irrefl. symmetry. apply Z.ltb_ge. lia.
        -- replace (m <? m + 1) with true by (symmetry; apply Z.ltb_lt; lia).
           symmetry. apply Z.leb_le. lia.
      * (* below one half *)
        rewrite Z.ltb_irrefl. symmetry.
        destruct (Z.even m); [apply Z.ltb_ge | apply Z.leb_gt]; lia.
      * (* exact *)
        rewrite Z.ltb_irrefl. symmetry.
        destruct (Z.even m); [apply Z.ltb_ge | apply Z.leb_gt]; lia.
    + assert (Hgt : m < M) by lia. specialize (HM'' M Hgt). clear HM HM'. clearbody mD.
      set (X := (2 * M + 1) * D) in *. clearbody X.
      assert (Hr : (M <? round_nearest_even m
                   (match rb, sb with
                    | false, false => loc_Exact
                    | false, true => loc_Inexact Lt
                    | true, false => loc_Inexact Eq
                    | true, true => loc_Inexact Gt end)) = false).
      { apply Z.ltb_ge. destruct rb, sb; cbn [round_nearest_even];
          try destruct (Z.even m); lia. }
      rewrite Hr. symmetry.
      destruct (Z.even M); [apply Z.ltb_ge | apply Z.leb_gt];
        destruct rb, sb; lia.
Qed.



(** The second normalisation leaves a mantissa below [2^53] alone
    and halves [2^53]. *)
Lemma renormalize_small (m e : Z) :
  0 <= m < two53 -> -1074 <= e ->
  shr_fexp prec emax m e loc_Exact = (Build_shr_record m false false, e).
Proof.
  intros Hm He. unfold shr_fexp, shr.
  assert (Hd : Zdigits2 m <= 53) by (apply Zdigits2_le; [exact Hm | discriminate]).
  rewrite fexp_eq.
  destruct (Z.max (Zdigits2 m + e - 53) (-1074) - e) eqn:Hn;
    [reflexivity | lia | reflexivity].
Qed.

Lemma renormalize_carry (e : Z) :
  -1074 <= e ->
  shr_fexp prec emax two53 e loc_Exact =
    (Build_shr_record (Zpos two52) false false, e + 1).
Proof.
  intros He. unfold shr_fexp, shr.
  change (Zdigits2 two53) with 54. rewrite fexp_eq.
  replace (Z.max (54 + e - 53) (-1074) - e) with 1 by lia.
  reflexivity.
Qed.


(** What [binary_round_aux] returns for a non-negative input that
    stands for [N / D] at exponent [e]. *)
Lemma binary_round_aux_spec (sx : bool) (q e N D : Z) (l : location) :
  0 <= q -> 0 < D ->
  Rep N D (shr_record_of_loc q l) ->
  exists r1,
    Rep N (2 ^ (Z.max e (fexp prec emax (Zdigits2 q + e)) - e) * D) r1 /\
    0 <= shr_m r1 < two53 /\
    binary_round_aux prec emax sx q e l =
      assemble sx (round_nearest_even (shr_m r1) (loc_of_shr_record r1))
               (Z.max e (fexp prec emax (Zdigits2 q + e))).
Proof.
  intros Hq HD HR.
  destruct (shr_fexp_spec q e N D l Hq HD HR) as (r1 & Hshr & HR1 & Hm1).
  set (e1 := Z.max e (fexp prec emax (Zdigits2 q + e))) in *.
  assert (Hj : 0 <= e1 - e) by lia.
  assert (Hm1' : shr_m r1 < two53).
  { pose proof (pow2_pos _ Hj) as Hpj.
    assert (Hqd : q + 1 <= 2 ^ Zdigits2 q).
    { destruct (Z.eq_dec q 0) as [->|Hq0]; [cbn; lia|].
      pose proof (Zdigits2_bounds q ltac:(lia)). lia. }
    assert (Hdq : 2 ^ Zdigits2 q <= two53 * 2 ^ (e1 - e)).
    { change two53 with (2 ^ 53). rewrite <- Z.pow_add_r by lia.
      apply Z.pow_le_mono_r; [lia|]. subst e1. rewrite fexp_eq. lia. }
    destruct HR as [[_ HN] _]. rewrite shr_m_of_loc in HN.
    destruct HR1 as [[HN1 _] _].
    assert (Hlt : shr_m r1 * 2 ^ (e1 - e) * D < (q + 1) * D).
    { replace (shr_m r1 * 2 ^ (e1 - e) * D)
        with (shr_m r1 * (2 ^ (e1 - e) * D)) by ring. lia. }
    apply Z.mul_lt_mono_pos_r in Hlt; [|assumption].
    apply (Z.mul_lt_mono_pos_r (2 ^ (e1 - e))); [assumption|]. lia. }
  exists r1. split; [assumption|]. split; [lia|].
  unfold binary_round_aux. rewrite Hshr.
  set (m' := round_nearest_even (shr_m r1) (loc_of_shr_record r1)).
  assert (Hm' : 0 <= m' <= two53).
  { subst m'. destruct (loc_of_shr_record r1) as [|[| |]]; cbn [round_nearest_even];
      try destruct (Z.even (shr_m r1)); lia. }
  assert (He1 : -1074 <= e1) by (subst e1; rewrite fexp_eq; lia).
  unfold assemble.
  destruct (Z.eqb_spec m' two53) as [Heq|Hne].
  - rewrite Heq, renormalize_carry by assumption. reflexivity.
  - rewrite renormalize_small by lia. cbn [shr_m].
    destruct m'; reflexivity.
Qed.


Lemma div_eucl_eq (x y : Z) : Z.div_eucl x y = (x / y, x mod y).
Proof. unfold Z.div, Z.modulo. destruct (Z.div_eucl x y); reflexivity. Qed.

Lemma Zdigits2_mono (a b : positive) :
  (a <= b)%positive -> Zdigits2 (Zpos a) <= Zdigits2 (Zpos b).
Proof.
  intros Hab.
  pose proof (Zdigits2_bounds (Zpos a) eq_refl) as [Ha _].
  pose proof (Zdigits2_bounds (Zpos b) eq_refl) as [_ Hb].
  pose proof (Zdigits2_nonneg (Zpos b)) as Hnb.
  assert (Hlt : 2 ^ (Zdigits2 (Zpos a) - 1) < 2 ^ Zdigits2 (Zpos b)).
  { apply Pos2Z.pos_le_pos in Hab. lia. }
  apply Z.pow_lt_mono_r_iff in Hlt; lia.
Qed.

(** The division core on two integers [a <= b]. *)
Lemma div_core_spec (a b : positive) :
  (a <= b)%positive ->
  exists s,
    53 <= s <= 1074 /\
    SFdiv_core_binary prec emax (Zpos a) 0 (Zpos b) 0 =
      (Zpos a * 2 ^ s / Zpos b, - s,
       new_location (Zpos b) ((Zpos a * 2 ^ s) mod Zpos b)).
Proof.
  intros Hab. pose proof (Zdigits2_mono a b Hab) as Hd.
  unfold SFdiv_core_binary. rewrite fexp_eq.
  set (d1 := Zdigits2 (Zpos a)) in *. set (d2 := Zdigits2 (Zpos b)) in *.
  set (e' := Z.min (Z.max (d1 + 0 - (d2 + 0) - 53) (-1074)) (0 - 0)).
  assert (He : -1074 <= e' <= -53) by (subst e'; lia).
  destruct (0 - 0 - e') as [|p|p] eqn:Hs; try lia.
  rewrite Z.shiftl_mul_pow2 by lia. rewrite div_eucl_eq.
  exists (Zpos p). split; [lia|].
  replace e' with (- Zpos p) by lia. reflexivity.
Qed.


Lemma pow2_succ (e : Z) : 0 <= e -> 2 ^ (e + 1) = 2 * 2 ^ e.
Proof. intros. rewrite Z.pow_add_r by lia. change (2 ^ 1) with 2. ring. Qed.

Lemma pow2_pred (e : Z) : 0 < e -> 2 ^ e = 2 * 2 ^ (e - 1).
Proof.
  intros. rewrite <- pow2_succ by lia. f_equal. lia.
Qed.

Lemma above_scale (M j N D : Z) :
  0 < j -> above M (j * N) (j * D) = above M N D.
Proof.
  intros Hj. unfold above.
  replace ((2 * M + 1) * (j * D)) with (j * ((2 * M + 1) * D)) by ring.
  replace (2 * (j * N)) with (j * (2 * N)) by ring.
  set (X := (2 * M + 1) * D). set (Y := 2 * N).
  destruct (Z.even M).
  - destruct (Z.ltb_spec X Y) as [H|H].
    + apply Z.ltb_lt. apply Z.mul_lt_mono_pos_l; assumption.
    + apply Z.ltb_ge. apply Z.mul_le_mono_nonneg_l; lia.
  - destruct (Z.leb_spec X Y) as [H|H].
    + apply Z.leb_le. apply Z.mul_le_mono_nonneg_l; lia.
    + apply Z.leb_gt. apply Z.mul_lt_mono_pos_l; assumption.
Qed.

(** The rounded quotient of [a <= b]: a mantissa [m'] at an exponent
    [e1], where [m'] sits above an integer [M] exactly when
    [a / b * 2^(-e1)] sits above [M + 1/2]. *)
Lemma round_quotient_cases (sx : bool) (a b : positive) :
  (a <= b)%positive ->
  exists m' e1,
    round_quotient sx a b = assemble sx m' e1 /\
    0 <= m' <= two53 /\
    -1074 <= e1 <= -52 /\
    (forall M, (M <? m') = above M (Zpos a * 2 ^ (- e1)) (Zpos b)) /\
    (e1 < -53 -> 2 * Zpos a < Zpos b) /\
    (e1 = -52 -> a = b).
Proof.
  intros Hab. destruct (div_core_spec a b Hab) as (s & Hs & Hcore).
  unfold round_quotient. rewrite Hcore. clear Hcore.
  apply Pos2Z.pos_le_pos in Hab.
  set (A := Zpos a) in *. set (B := Zpos b) in *.
  assert (HA : 0 < A) by reflexivity. assert (HB : 0 < B) by reflexivity.
  pose proof (pow2_pos s ltac:(lia)) as Hps.
  set (P := 2 ^ s) in *.
  set (q := A * P / B). set (r := (A * P) mod B).
  assert (Hdm : A * P = q * B + r).
  { subst q r. rewrite (Z.mul_comm _ B). apply Z.div_mod. lia. }
  assert (Hr : 0 <= r < B) by (subst r; apply Z.mod_pos_bound; assumption).
  assert (Hq : 0 <= q) by (subst q; apply Z.div_pos; [apply Z.mul_nonneg_nonneg|]; lia).
  assert (HR : Rep (A * P) B (shr_record_of_loc q (new_location B r))).
  { rewrite Hdm. apply Rep_loc; assumption. }
  destruct (binary_round_aux_spec sx q (- s) (A * P) B _ Hq HB HR)
    as (r1 & HR1 & Hm1 & Heq).
  set (dq := Zdigits2 q) in *.
  set (e1 := Z.max (- s) (fexp prec emax (dq + - s))) in *.
  set (m' := round_nearest_even (shr_m r1) (loc_of_shr_record r1)) in *.
  (* the quotient is at most [2^s] *)
  assert (HqP : q <= P).
  { subst q. apply Z.div_le_upper_bound; [assumption|].
    rewrite (Z.mul_comm B P), (Z.mul_comm A P).
    apply Z.mul_le_mono_nonneg_l; lia. }
  assert (Hdq : dq <= s + 1).
  { subst dq. apply Zdigits2_le; [|lia].
    split; [assumption|]. rewrite pow2_succ by lia. fold P. lia. }
  assert (Hdq0 : 0 <= dq) by apply Zdigits2_nonneg.
  assert (He1 : -1074 <= e1 <= -52) by (subst e1; rewrite fexp_eq; lia).
  assert (Hqb : q * B <= A * P < (q + 1) * B) by lia.
  exists m', e1. split; [exact Heq|].
  split.
  { subst m'. destruct (loc_of_shr_record r1) as [|[| |]]; cbn [round_nearest_even];
      try destruct (Z.even (shr_m r1)); lia. }
  split; [exact He1|].
  split.
  { intros M. subst m'.
    rewrite (round_nearest_even_above (A * P) (2 ^ (e1 - - s) * B) M r1);
      [| apply Z.mul_pos_pos; [apply pow2_pos; lia | assumption] | exact HR1].
    replace (A * P) with (2 ^ (e1 - - s) * (A * 2 ^ (- e1))).
    - apply above_scale. apply pow2_pos. lia.
    - subst P. replace s with ((e1 - - s) + (- e1)) at 2 by lia.
      rewrite (Z.pow_add_r 2 (e1 - - s) (- e1)) by lia. ring. }
  split.
  - intros Hlt.
    assert (Hd : dq <= s - 1) by (subst e1; rewrite fexp_eq in Hlt; lia).
    assert (Hq1 : q + 1 <= 2 ^ (s - 1)).
    { destruct (Z.eq_dec q 0) as [Hq0|Hq0].
      - rewrite Hq0. pose proof (pow2_pos (s - 1) ltac:(lia)). lia.
      - pose proof (Zdigits2_bounds q ltac:(lia)) as [_ Hb]. fold dq in Hb.
        assert (2 ^ dq <= 2 ^ (s - 1)) by (apply Z.pow_le_mono_r; lia). lia. }
    assert (HP2 : P = 2 * 2 ^ (s - 1)) by (apply pow2_pred; lia).
    pose proof (pow2_pos (s - 1) ltac:(lia)) as Hp1.
    set (P1 := 2 ^ (s - 1)) in *.
    assert (Hx : (q + 1) * B <= P1 * B) by (apply Z.mul_le_mono_nonneg_r; lia).
    assert (Hy : (2 * A) * P1 < B * P1) by (rewrite HP2 in Hqb; lia).
    apply Z.mul_lt_mono_pos_r in Hy; assumption.
  - intros Heq1.
    assert (Hd : dq = s + 1) by (subst e1; rewrite fexp_eq in Heq1; lia).
    assert (Hq0 : q <> 0) by (intros Hq0; subst dq; rewrite Hq0 in Hd; cbn in Hd; lia).
    pose proof (Zdigits2_bounds q ltac:(lia)) as [Hb _]. fold dq in Hb.
    rewrite Hd in Hb. replace (s + 1 - 1) with s in Hb by lia. fold P in Hb.
    assert (Hx : P * B <= q * B) by (apply Z.mul_le_mono_nonneg_r; lia).
    assert (Hy : B * P <= A * P) by lia.
    apply Z.mul_le_mono_pos_r in Hy; [|assumption].
    apply Pos2Z.inj. fold A B. lia.
Qed.


Lemma assemble_finite (sx : bool) (m' e1 : Z) :
  0 <= m' -> e1 <= -52 -> is_finite (assemble sx m' e1) = true.
Proof.
  intros Hm He. unfold assemble.
  destruct (m' =? two53).
  - replace (e1 + 1 <=? 971) with true by (symmetry; apply Z.leb_le; lia).
    reflexivity.
  - destruct m' as [|p|p]; [reflexivity| |lia].
    replace (e1 <=? 971) with true by (symmetry; apply Z.leb_le; lia).
    reflexivity.
Qed.

(** No overflow when the numerator does not exceed the denominator. *)
Lemma round_quotient_finite (sx : bool) (a b : positive) :
  (a <= b)%positive -> is_finite (round_quotient sx a b) = true.
Proof.
  intros Hab.
  destruct (round_quotient_cases sx a b Hab) as (m' & e1 & Heq & Hm & He & _).
  rewrite Heq. apply assemble_finite; lia.
Qed.

(** The comparison of a rounded quotient with a binary64 constant of
    [[1/2, 1)] is a comparison of integers. *)
Lemma round_quotient_gt (a b M : positive) :
  (a <= b)%positive -> Zpos two52 <= Zpos M < two53 ->
  SFltb (S754_finite false M (-53)) (round_quotient false a b) =
  above (Zpos M) (Zpos a * two53) (Zpos b).
Proof.
  intros Hab HM.
  destruct (round_quotient_cases false a b Hab)
    as (m' & e1 & Heq & Hm & He & Habove & Hsmall & Hone).
  rewrite Heq. clear Heq.
  destruct (Z.lt_trichotomy e1 (-53)) as [Hlt|[Heq1|Hgt]].
  - (* below one half *)
    specialize (Hsmall Hlt).
    assert (Hfalse : above (Zpos M) (Zpos a * two53) (Zpos b) = false).
    { unfold above. unfold two52, two53 in *.
      assert (H1 : 9007199254740993 * Zpos b <= (2 * Zpos M + 1) * Zpos b)
        by (apply Z.mul_le_mono_nonneg_r; lia).
      destruct (Z.even (Zpos M)); [apply Z.ltb_ge | apply Z.leb_gt]; lia. }
    rewrite Hfalse. unfold assemble, SFltb, SFcompare.
    destruct (m' =? two53).
    + replace (e1 + 1 <=? 971) with true by (symmetry; apply Z.leb_le; lia).
      destruct (Z.compare_spec (-53) (e1 + 1)) as [He'|He'|He']; [|lia|reflexivity].
      rewrite Pos.compare_cont_spec.
      destruct (Pos.compare_spec M two52) as [Hc|Hc|Hc]; try reflexivity.
      apply Pos2Z.pos_lt_pos in Hc. lia.
    + destruct m' as [|p|p]; [reflexivity| |lia].
      replace (e1 <=? 971) with true by (symmetry; apply Z.leb_le; lia).
      destruct (Z.compare_spec (-53) e1) as [He'|He'|He']; [lia|lia|reflexivity].
  - (* between one half and one *)
    subst e1. change (2 ^ (- -53)) with two53 in Habove.
    rewrite <- Habove. unfold assemble, SFltb, SFcompare.
    destruct (Z.eqb_spec m' two53) as [Hc|Hc].
    + subst m'. cbn -[Z.ltb]. symmetry. apply Z.ltb_lt. lia.
    + destruct m' as [|p|p]; [reflexivity| |lia].
      cbn -[Pos.compare_cont Z.ltb].
      rewrite Pos.compare_cont_spec. unfold Z.ltb.
      change (Zpos M ?= Zpos p) with (Pos.compare M p).
      destruct (Pos.compare M p); reflexivity.
  - (* exactly one *)
    assert (He1 : e1 = -52) by lia. specialize (Hone He1). subst e1 b.
    assert (Htrue : above (Zpos M) (Zpos a * two53) (Zpos a) = true).
    { unfold above. unfold two52, two53 in *.
      assert (H1 : (2 * Zpos M + 1) * Zpos a < 18014398509481984 * Zpos a)
        by (apply Z.mul_lt_mono_pos_r; lia).
      destruct (Z.even (Zpos M)); [apply Z.ltb_lt | apply Z.leb_le]; lia. }
    rewrite Htrue.
    assert (Hpos : 0 < m').
    { apply Z.ltb_lt. rewrite Habove. unfold above. cbn [Z.even].
      apply Z.ltb_lt. change (2 ^ (- -52)) with 4503599627370496. lia. }
    unfold assemble, SFltb, SFcompare.
    destruct (m' =? two53); [reflexivity|].
    destruct m' as [|p|p]; [lia|reflexivity|lia].
Qed.

End FloatFacts.

(* ================================================================= *)
(** * Sums and products of non-negative floats are not NaN *)

Module NonNegative.

Import Rounding FloatFacts.

Lemma Rep_exact (q : Z) : Rep q 1 (shr_record_of_loc q loc_Exact).
Proof. unfold Rep; cbn [shr_record_of_loc shr_m shr_r shr_s]. lia. Qed.

Lemma assemble_nonneg (m' e1 : Z) :
  0 <= m' -> nonneg (assemble false m' e1) = true.
Proof.
  intros Hm. unfold assemble.
  destruct (m' =? two53).
  - destruct (e1 + 1 <=? 971); reflexivity.
  - destruct m' as [|p|p]; [reflexivity| |lia].
    destruct (e1 <=? 971); reflexivity.
Qed.

Lemma round_exact_nonneg (q e : Z) :
  0 <= q -> nonneg (binary_round_aux prec emax false q e loc_Exact) = true.
Proof.
  intros Hq.
  destruct (binary_round_aux_spec false q e q 1 loc_Exact Hq eq_refl (Rep_exact q))
    as (r1 & _ & Hm1 & Heq).
  rewrite Heq. apply assemble_nonneg.
  destruct (loc_of_shr_record r1) as [|[| |]]; cbn [round_nearest_even];
    try destruct (Z.even (shr_m r1)); lia.
Qed.

Lemma binary_round_nonneg (m : positive) (e : Z) :
  nonneg (binary_round prec emax false m e) = true.
Proof.
  unfold binary_round.
  destruct (shl_align m e (fexp prec emax (Zpos (digits2_pos m) + e))) as [mz ez].
  apply round_exact_nonneg. apply Pos2Z.is_nonneg.
Qed.

Lemma fmul_nonneg (x : float) (m : positive) (e : Z) :
  nonneg x = true -> nonneg (fmul x (S754_finite false m e)) = true.
Proof.
  destruct x as [s|[|]| |[|] mx ex]; cbn [nonneg]; try discriminate; intros _.
  - reflexivity.
  - reflexivity.
  - unfold fmul, SFmul. cbn [xorb]. apply round_exact_nonneg. apply Pos2Z.is_nonneg.
Qed.

Lemma fadd_nonneg (x y : float) :
  nonneg x = true -> nonneg y = true -> nonneg (fadd x y) = true.
Proof.
  destruct x as [sx|[|]| |[|] mx ex]; cbn [nonneg]; try discriminate; intros _;
    destruct y as [sy|[|]| |[|] my ey]; cbn [nonneg]; try discriminate; intros _;
    try reflexivity.
  - destruct sx, sy; reflexivity.
  - unfold fadd, SFadd, cond_Zopp.
    set (ez := Z.min ex ey).
    destruct (shl_align mx ex ez) as [ax ?], (shl_align my ey ez) as [ay ?].
    cbn [fst]. change (Zpos ax + Zpos ay) with (Zpos (ax + ay)).
    cbn [binary_normalize]. apply binary_round_nonneg.
Qed.

Lemma nonneg_not_nan (x : float) : nonneg x = true -> is_nan x = false.
Proof. destruct x as [|[|]| |[|]]; cbn; congruence. Qed.

(** A product by a binary64 constant with a full mantissa is stored
    in the regular way. *)
Lemma fmul_regular (x : float) (mc : positive) (ec : Z) :
  nonneg x = true -> Zpos two52 <= Zpos mc < two53 ->
  regular (fmul x (S754_finite false mc ec)).
Proof.
  intros Hx Hmc.
  destruct x as [s|[|]| |[|] mx ex]; cbn [nonneg] in Hx; try discriminate;
    [exact I | exact I |].
  unfold fmul, SFmul. cbn [xorb].
  set (q := Zpos (mx * mc)). set (e := ex + ec).
  assert (Hq : 0 <= q) by apply Pos2Z.is_nonneg.
  destruct (binary_round_aux_spec false q e q 1 loc_Exact Hq eq_refl (Rep_exact q))
    as (r1 & HR1 & Hm1 & Heq).
  rewrite Heq. clear Heq.
  set (dq := Zdigits2 q) in *.
  set (e1 := Z.max e (fexp prec emax (dq + e))) in *.
  assert (Hq52 : Zpos two52 <= q).
  { subst q. rewrite Pos2Z.inj_mul.
    assert (1 <= Zpos mx) by lia.
    assert (H1 : 1 * Zpos mc <= Zpos mx * Zpos mc)
      by (apply Z.mul_le_mono_nonneg_r; lia).
    lia. }
  assert (Hdq : 53 <= dq).
  { pose proof (Zdigits2_bounds q ltac:(unfold two52 in Hq52; lia)) as [_ Hhi].
    fold dq in Hhi. pose proof (Zdigits2_nonneg q) as Hnn. fold dq in Hnn.
    destruct (Z_lt_le_dec dq 53) as [Hlt|]; [exfalso|assumption].
    assert (2 ^ dq <= 2 ^ 52) by (apply Z.pow_le_mono_r; lia).
    change (2 ^ 52) with (Zpos two52) in H. lia. }
  assert (He1 : -1074 <= e1) by (subst e1; rewrite fexp_eq; lia).
  set (m' := round_nearest_even (shr_m r1) (loc_of_shr_record r1)).
  assert (Hm' : shr_m r1 <= m' <= shr_m r1 + 1).
  { subst m'. destruct (loc_of_shr_record r1) as [|[| |]]; cbn [round_nearest_even];
      try destruct (Z.even (shr_m r1)); lia. }
  assert (Hnormal : -1074 < e1 -> Zpos two52 <= shr_m r1).
  { intros Hgt.
    assert (Hn : e1 - e = dq - 53) by (subst e1; rewrite fexp_eq in *; lia).
    rewrite Hn in HR1. destruct HR1 as [[_ Hup] _].
    rewrite Z.mul_1_r in Hup.
    pose proof (Zdigits2_bounds q ltac:(unfold two52 in Hq52; lia)) as [Hlo _].
    fold dq in Hlo.
    assert (Hsplit : 2 ^ (dq - 1) = Zpos two52 * 2 ^ (dq - 53)).
    { change (Zpos two52) with (2 ^ 52). rewrite <- Z.pow_add_r by lia.
      f_equal. lia. }
    pose proof (pow2_pos (dq - 53) ltac:(lia)) as Hp.
    assert (Hlt : Zpos two52 * 2 ^ (dq - 53) < (shr_m r1 + 1) * 2 ^ (dq - 53)) by lia.
    apply Z.mul_lt_mono_pos_r in Hlt; [lia | assumption]. }
  unfold assemble.
  destruct (Z.eqb_spec m' two53) as [Hc|Hc].
  - destruct (e1 + 1 <=? 971); cbn [regular]; [|exact I].
    left. unfold two52, two53. lia.
  - destruct m' as [|p|p] eqn:Hp; [exact I| |lia].
    destruct (e1 <=? 971); cbn [regular]; [|exact I].
    destruct (Z_lt_le_dec (Zpos p) (Zpos two52)) as [Hsmall|Hbig].
    + right. split; [assumption|].
      destruct (Z.eq_dec e1 (-1074)) as [|Hne]; [assumption|exfalso].
      specialize (Hnormal ltac:(lia)). lia.
    + left. lia.
Qed.

End NonNegative.

(* ================================================================= *)
(** * The factor scorers and the overall score *)

Module ScoreFacts.

Import Rounding FloatFacts NonNegative Notions QualityScorer.

(** ** Integer factors *)

Lemma badge_loop_ge (items : list (string * Z)) (b : string) (score : Z) :
  Forall (fun kp => 0 <= snd kp) items ->
  score <= badge_loop items b score.
Proof.
  induction 1 as [|[key points] rest Hp _ IH]; cbn [badge_loop]; [lia|].
  cbn [snd] in Hp. destruct (PyStr.contains key b); lia.
Qed.

Lemma badge_scores_nonneg : Forall (fun kp => 0 <= snd kp) badge_scores.
Proof. unfold badge_scores. repeat constructor; cbn; lia. Qed.

Lemma badges_fold_ge (badges : list string) (score : Z) :
  score <= fold_left (fun score badge =>
                        badge_loop badge_scores (PyStr.lower badge) score)
                     badges score.
Proof.
  revert score. induction badges as [|b badges IH]; intros score; cbn [fold_left]; [lia|].
  pose proof (badge_loop_ge badge_scores (PyStr.lower b) score badge_scores_nonneg).
  specialize (IH (badge_loop badge_scores (PyStr.lower b) score)). lia.
Qed.

Lemma author_credibility_range (m : SolutionMetrics) :
  0 <= _score_author_credibility m <= 100.
Proof.
  unfold _score_author_credibility.
  match goal with
  | |- 0 <= Z.min (fold_left ?f ?l ?s) 100 <= 100 =>
      pose proof (badges_fold_ge l s) as Hf; cbv beta in Hf;
      assert (Hs : 0 <= s)
  end.
  { destruct (author_reputation m >? 10000), (author_reputation m >? 5000),
      (author_reputation m >? 1000), (author_reputation m >? 500),
      (author_reputation m >? 100), (author_post_count m >? 1000),
      (author_post_count m >? 500), (author_post_count m >? 100),
      (author_post_count m >? 50); lia. }
  lia.
Qed.

Lemma content_quality_range (m : SolutionMetrics) :
  0 <= _score_content_quality m <= 100.
Proof.
  unfold _score_content_quality.
  destruct (has_steps m), (has_screenshots m), (has_video m), (is_solved m),
    (code_blocks m >? 0) eqn:Hc,
    ((100 <=? word_count m) && (word_count m <=? 500)),
    ((50 <=? word_count m) && (word_count m <? 100)),
    ((500 <? word_count m) && (word_count m <=? 1000)),
    (word_count m >? 1000);
    try (apply Z.gtb_lt in Hc); lia.
Qed.

Lemma official_endorsement_range (m : SolutionMetrics) :
  0 <= _score_official_endorsement m <= 100.
Proof.
  unfold _score_official_endorsement, official_endorsement_sum.
  destruct (dev_response m), (mod_endorsed m), (is_solved m); lia.
Qed.

Lemma detail_level_range (m : SolutionMetrics) :
  0 <= _score_detail_level m <= 100.
Proof.
  unfold _score_detail_level.
  destruct (word_count m >? 200), (word_count m >? 100), (word_count m >? 50),
    (has_steps m), (has_screenshots m || has_video m), (code_blocks m >? 0); lia.
Qed.

(** ** Recency *)

Lemma recency_range (m : SolutionMetrics) (w w' : World) (r : Z) :
  _score_recency m w = Ok (r, w') -> 0 <= r <= 100.
Proof.
  unfold _score_recency. destruct (post_date m) as [d|].
  - unfold bind, datetime_now, lift, datetime_sub, ret.
    cbn [utcoffset instant]. destruct (utcoffset d); [discriminate|].
    intros H; injection H as <- _.
    repeat match goal with |- context [if ?c then _ else _] => destruct c end; lia.
  - unfold ret. intros H; injection H as <- _. lia.
Qed.

Lemma recency_total (m : SolutionMetrics) (w : World) :
  naive_or_absent (post_date m) -> exists r w', _score_recency m w = Ok (r, w').
Proof.
  unfold _score_recency, naive_or_absent. destruct (post_date m) as [d|].
  - intros Hd. unfold bind, datetime_now, lift, datetime_sub, ret.
    cbn [utcoffset instant]. rewrite Hd. eauto.
  - intros _. unfold ret. eauto.
Qed.

(** ** Community validation *)

Lemma true_div_le (a b : Z) :
  0 < a <= b ->
  exists p q, a = Zpos p /\ b = Zpos q /\ (p <= q)%positive /\
              true_div a b = Ok (round_quotient false p q).
Proof.
  intros [Ha Hab]. destruct a as [|p|p]; try lia. destruct b as [|q|q]; try lia.
  exists p, q. repeat split; [exact Hab|].
  unfold true_div. pose proof (round_quotient_finite false p q Hab) as Hf.
  destruct (round_quotient false p q); cbn in Hf; try discriminate; reflexivity.
Qed.

Lemma thresholds :
  decimal 95 2 = S754_finite false 8556839292003942 (-53) /\
  decimal 85 2 = S754_finite false 7656119366529843 (-53) /\
  decimal 75 2 = S754_finite false 6755399441055744 (-53) /\
  decimal 65 2 = S754_finite false 5854679515581645 (-53).
Proof. repeat split; vm_compute; reflexivity. Qed.

(** The ladder on the rounded ratio is the ladder on the integers. *)
Lemma vote_ratio_points (u d : Z) :
  0 < u -> 0 <= d ->
  rbind (true_div u (Z.max 1 (u + d)))
        (fun ratio =>
           Ok (if fgt ratio (decimal 95 2) then 0 + 30
               else if fgt ratio (decimal 85 2) then 0 + 25
               else if fgt ratio (decimal 75 2) then 0 + 20
               else if fgt ratio (decimal 65 2) then 0 + 15
               else 0 + 10))
  = Ok (ratio_points u d).
Proof.
  intros Hu Hd. replace (Z.max 1 (u + d)) with (u + d) by lia.
  destruct (true_div_le u (u + d) ltac:(lia)) as (p & q & Hp & Hq & Hpq & Hdiv).
  rewrite Hdiv. cbn [rbind]. unfold fgt, ratio_points.
  destruct thresholds as (-> & -> & -> & ->).
  rewrite !round_quotient_gt by (assumption || (unfold two52, two53; lia)).
  rewrite <- Hp, <- Hq. reflexivity.
Qed.

Lemma above_mono (M u u' d : Z) :
  0 <= M < two53 -> 0 <= d -> 0 < u <= u' ->
  above M (u * two53) (u + d) = true ->
  above M (u' * two53) (u' + d) = true.
Proof.
  unfold above, two53. intros HM Hd Hu.
  assert (H1 : (18014398509481984 - (2 * M + 1)) * u
               <= (18014398509481984 - (2 * M + 1)) * u')
    by (apply Z.mul_le_mono_nonneg_l; lia).
  replace ((18014398509481984 - (2 * M + 1)) * u)
    with (18014398509481984 * u - 2 * (M * u) - u) in H1 by ring.
  replace ((18014398509481984 - (2 * M + 1)) * u')
    with (18014398509481984 * u' - 2 * (M * u') - u') in H1 by ring.
  replace ((2 * M + 1) * (u + d)) with (2 * (M * u) + 2 * (M * d) + u + d) by ring.
  replace ((2 * M + 1) * (u' + d)) with (2 * (M * u') + 2 * (M * d) + u' + d) by ring.
  set (Mu := M * u) in *. set (Mu' := M * u') in *. set (Md := M * d) in *.
  clearbody Mu Mu' Md.
  destruct (Z.even M); [rewrite !Z.ltb_lt | rewrite !Z.leb_le]; lia.
Qed.

Lemma ratio_points_range (u d : Z) : 10 <= ratio_points u d <= 30.
Proof.
  unfold ratio_points.
  repeat match goal with |- context [if ?c then _ else _] => destruct c end; lia.
Qed.

Lemma ratio_points_mono (u u' d : Z) :
  0 <= d -> 0 < u <= u' -> ratio_points u d <= ratio_points u' d.
Proof.
  intros Hd Hu. unfold ratio_points.
  pose proof (above_mono 8556839292003942 u u' d ltac:(unfold two53; lia) Hd Hu) as H95.
  pose proof (above_mono 7656119366529843 u u' d ltac:(unfold two53; lia) Hd Hu) as H85.
  pose proof (above_mono 6755399441055744 u u' d ltac:(unfold two53; lia) Hd Hu) as H75.
  pose proof (above_mono 5854679515581645 u u' d ltac:(unfold two53; lia) Hd Hu) as H65.
  destruct (above 8556839292003942 (u * two53) (u + d));
    [rewrite H95 by reflexivity; lia|].
  destruct (above 7656119366529843 (u * two53) (u + d));
    [rewrite H85 by reflexivity;
     destruct (above 8556839292003942 (u' * two53) (u' + d)); lia|].
  destruct (above 6755399441055744 (u * two53) (u + d));
    [rewrite H75 by reflexivity;
     destruct (above 8556839292003942 (u' * two53) (u' + d)),
       (above 7656119366529843 (u' * two53) (u' + d)); lia|].
  destruct (above 5854679515581645 (u * two53) (u + d));
    [rewrite H65 by reflexivity;
     destruct (above 8556839292003942 (u' * two53) (u' + d)),
       (above 7656119366529843 (u' * two53) (u' + d)),
       (above 6755399441055744 (u' * two53) (u' + d)); lia|].
  destruct (above 8556839292003942 (u' * two53) (u' + d)),
    (above 7656119366529843 (u' * two53) (u' + d)),
    (above 6755399441055744 (u' * two53) (u' + d)),
    (above 5854679515581645 (u' * two53) (u' + d)); lia.
Qed.

Lemma community_validation_total (m : SolutionMetrics) :
  0 <= downvotes m -> 0 <= confirmed_working m ->
  exists c, _score_community_validation m = Ok c /\ 0 <= c <= 100.
Proof.
  intros Hd Hc. unfold _score_community_validation. cbv zeta.
  assert (Hv : exists rp, 0 <= rp /\
            (if upvotes m >? 0
             then rbind (true_div (upvotes m) (Z.max 1 (upvotes m + downvotes m)))
                    (fun ratio =>
                       Ok (if fgt ratio (decimal 95 2) then 0 + 30
                           else if fgt ratio (decimal 85 2) then 0 + 25
                           else if fgt ratio (decimal 75 2) then 0 + 20
                           else if fgt ratio (decimal 65 2) then 0 + 15
                           else 0 + 10))
             else Ok 0) = Ok rp).
  { destruct (Z.gtb_spec (upvotes m) 0) as [Hu|Hu].
    - exists (ratio_points (upvotes m) (downvotes m)).
      split; [pose proof (ratio_points_range (upvotes m) (downvotes m)); lia|].
      apply vote_ratio_points; assumption.
    - exists 0. split; [lia | reflexivity]. }
  destruct Hv as (rp & Hrp & ->). cbn [rbind]. eexists. split; [reflexivity|].
  destruct (upvotes m >? 100), (upvotes m >? 50), (upvotes m >? 20),
    (upvotes m >? 10), (reply_count m >? 20), (reply_count m >? 10),
    (reply_count m >? 5), (view_count m >? 10000), (view_count m >? 1000); lia.
Qed.

Lemma community_validation_range (m : SolutionMetrics) (c : Z) :
  0 <= downvotes m -> 0 <= confirmed_working m ->
  _score_community_validation m = Ok c -> 0 <= c <= 100.
Proof.
  intros Hd Hc Heq.
  destruct (community_validation_total m Hd Hc) as (c' & Heq' & Hr).
  congruence.
Qed.

(** ** The weighted sum *)

Lemma of_int_nonneg (z : Z) (x : float) :
  0 <= z -> of_int z = Ok x -> nonneg x = true.
Proof.
  intros Hz. unfold of_int. destruct z as [|p|p]; [| |lia]; cbn [binary_normalize].
  - intros H; injection H as <-. reflexivity.
  - pose proof (binary_round_nonneg p 0) as Hn.
    destruct (binary_round prec emax false p 0); try discriminate;
      intros H; injection H as <-; exact Hn.
Qed.

Lemma of_int_small (z : Z) : 0 <= z <= 100 -> exists x, of_int z = Ok x.
Proof.
  intros Hz.
  assert (Hall : forallb (fun n => match of_int (Z.of_nat n) with
                                   | Ok _ => true
                                   | Raise _ => false
                                   end) (seq 0 101) = true)
    by (vm_compute; reflexivity).
  rewrite forallb_forall in Hall.
  specialize (Hall (Z.to_nat z)). rewrite Z2Nat.id in Hall by lia.
  destruct (of_int z) as [x|e]; [eauto|].
  discriminate Hall. apply in_seq. lia.
Qed.

Lemma WEIGHTS_finite (f : factor) : exists m e, WEIGHTS f = S754_finite false m e.
Proof. destruct f; vm_compute; eauto. Qed.

Lemma full_mantissa_form (f : float) :
  full_mantissa f = true ->
  exists m e, f = S754_finite false m e /\ Zpos two52 <= Zpos m < two53.
Proof.
  destruct f as [| | |[|] m e]; cbn [full_mantissa]; try discriminate.
  intros H. apply andb_true_iff in H. destruct H as [H1 H2].
  apply Z.leb_le in H1. apply Z.ltb_lt in H2. eauto.
Qed.

Lemma platform_trust_finite (key : string) :
  exists m e,
    dict_get PLATFORM_TRUST key (decimal 10 1) = S754_finite false m e /\
    Zpos two52 <= Zpos m < two53.
Proof.
  apply full_mantissa_form.
  unfold PLATFORM_TRUST. cbn [dict_get].
  repeat match goal with
         | |- context [if String.eqb ?k key then _ else _] =>
             destruct (String.eqb k key)
         end; vm_compute; reflexivity.
Qed.

Lemma weighted_terms_total (scores : list (factor * Z)) :
  Forall (fun fs => 0 <= snd fs <= 100) scores ->
  exists ts, weighted_terms scores = Ok ts /\
             Forall (fun t => nonneg t = true) ts.
Proof.
  induction 1 as [|[f z] rest Hz _ IH]; cbn [weighted_terms].
  - exists []. split; [reflexivity | constructor].
  - cbn [snd] in Hz. destruct IH as (ts & -> & Hts).
    destruct (of_int_small z Hz) as [x Hx].
    unfold weighted. rewrite Hx. cbn [rbind].
    eexists. split; [reflexivity|]. constructor; [|assumption].
    destruct (WEIGHTS_finite f) as (mw & ew & ->).
    apply fmul_nonneg. apply (of_int_nonneg z); [lia | assumption].
Qed.

Lemma py_sum_nonneg (ts : list float) :
  Forall (fun t => nonneg t = true) ts -> nonneg (py_sum ts) = true.
Proof.
  unfold py_sum. assert (H0 : nonneg fzero = true) by reflexivity.
  revert H0. generalize fzero.
  induction ts as [|t ts IH]; intros acc Hacc Hts; cbn [fold_left]; [assumption|].
  inversion Hts; subst. apply IH; [apply fadd_nonneg|]; assumption.
Qed.

(** ** The clamp *)

Lemma compare_int_float_some (z : Z) (t : float) :
  is_nan t = false -> exists c, compare_int_float z t = Some c.
Proof.
  destruct t; cbn; intros H; try discriminate; eauto.
Qed.

Lemma clamp_in_range (t : float) : is_nan t = false -> in_range (clamp t).
Proof.
  intros Hn.
  destruct (compare_int_float_some 0 t Hn) as [c0 H0].
  destruct (compare_int_float_some 100 t Hn) as [c100 H100].
  unfold in_range, clamp, py_min, py_max, num_gt, num_lt, num_le.
  cbn [num_compare]. rewrite H0. cbn [option_map].
  destruct c0; cbn [CompOpp].
  - rewrite H100.
    destruct c100; cbn [num_compare option_map]; rewrite ?H0, ?H100; cbn; auto.
  - rewrite H100.
    destruct c100; cbn [num_compare option_map]; rewrite ?H0, ?H100; cbn; auto.
  - cbn. auto.
Qed.

(** ** [calculate_score] *)

Lemma calculate_score_eq (m : SolutionMetrics) (w : World) :
  calculate_score m w =
  bind (pre_penalty_total m)
       (fun t => ret (clamp (if contradicted m then fmul t (decimal 8 1) else t)))
       w.
Proof.
  unfold calculate_score, pre_penalty_total, bind, lift, ret, clamp, score_table.
  destruct (_score_community_validation m) as [c|]; [|reflexivity].
  destruct (_score_recency m w) as [[r w1]|]; [|reflexivity].
  destruct (weighted_terms _) as [ts|]; reflexivity.
Qed.

End ScoreFacts.

(* ================================================================= *)
(** * Ranges of the scores *)

Section Ranges.

Import Rounding FloatFacts NonNegative Notions ScoreFacts QualityScorer.

Lemma score_table_range (m : SolutionMetrics) (c r : Z) :
  0 <= c <= 100 -> 0 <= r <= 100 ->
  Forall (fun fs => 0 <= snd fs <= 100) (score_table m c r).
Proof.
  intros Hc Hr. unfold score_table.
  repeat constructor; cbn [snd];
    first [ apply author_credibility_range | apply content_quality_range
          | apply official_endorsement_range | apply detail_level_range
          | lia ].
Qed.

(** Once recency is known, the score is the clamp of a float that is
    neither NaN nor negative, and stored in the regular way. *)
Lemma calculate_score_clamped (m : SolutionMetrics) (w w1 : World) (r : Z) :
  0 <= downvotes m -> 0 <= confirmed_working m ->
  _score_recency m w = Ok (r, w1) ->
  exists t, nonneg t = true /\ regular t /\
            calculate_score m w = Ok (clamp t, w1).
Proof.
  intros Hd Hc Hr.
  destruct (community_validation_total m Hd Hc) as (c & Hcv & Hcr).
  pose proof (recency_range m w w1 r Hr) as Hrr.
  destruct (weighted_terms_total _ (score_table_range m c r Hcr Hrr))
    as (ts & Hts & Hnn).
  rewrite calculate_score_eq.
  unfold bind, pre_penalty_total, lift, ret. rewrite Hcv. unfold bind. rewrite Hr, Hts.
  destruct (platform_trust_finite (PyStr.lower (platform m)))
    as (mp & ep & -> & Hmp).
  pose proof (fmul_nonneg _ mp ep (py_sum_nonneg ts Hnn)) as Ht.
  pose proof (fmul_regular _ mp ep (py_sum_nonneg ts Hnn) Hmp) as Hreg.
  destruct (contradicted m).
  - eexists. split; [|split; [|reflexivity]];
      change (decimal 8 1) with (S754_finite false 7205759403792794 (-53)).
    + apply fmul_nonneg. exact Ht.
    + apply fmul_regular; [exact Ht | unfold two52, two53; lia].
  - eexists. split; [exact Ht | split; [exact Hreg | reflexivity]].
Qed.

End Ranges.

(** The bound from below rests on the count of confirmations being a
    count: with a negative one the community sub-score is negative. *)
Lemma negative_confirmations_score_below_zero :
  QualityScorer._score_community_validation
    {| author_reputation := 0; author_post_count := 0; author_badges := [];
       upvotes := 0; downvotes := 0; reply_count := 0; view_count := 0;
       word_count := 0; has_steps := false; has_screenshots := false;
       has_video := false; code_blocks := 0;
       confirmed_working := -1; contradicted := false; is_solved := false;
       dev_response := false; mod_endorsed := false;
       post_date := None; last_updated := None; game_version := None;
       platform := "unknown" |} = Ok (-10).
Proof. reflexivity. Qed.

(** C1. For every Metrics Record whose counts are non-negative, each of
    the six factor sub-scores (author credibility, community
    validation, content quality, official endorsement, recency, detail
    level) lies in [0,100], and the final score returned by
    [calculate_score] lies in [0,100] after the weighted sum, the
    platform multiplier and the contradiction penalty.  A score is
    returned whenever [post_date] is absent or naive. *)
Theorem sub_scores_and_final_score_in_range (m : SolutionMetrics) (w : World) :
  0 <= downvotes m -> 0 <= confirmed_working m ->
  0 <= QualityScorer._score_author_credibility m <= 100 /\
  (exists c, QualityScorer._score_community_validation m = Ok c /\ 0 <= c <= 100) /\
  0 <= QualityScorer._score_content_quality m <= 100 /\
  0 <= QualityScorer._score_official_endorsement m <= 100 /\
  (forall r w', QualityScorer._score_recency m w = Ok (r, w') -> 0 <= r <= 100) /\
  0 <= QualityScorer._score_detail_level m <= 100 /\
  (forall s w', QualityScorer.calculate_score m w = Ok (s, w') ->
                Notions.in_range s) /\
  (Notions.naive_or_absent (post_date m) ->
   exists s w', QualityScorer.calculate_score m w = Ok (s, w') /\
                Notions.in_range s).
Proof.
  intros Hd Hc.
  split; [apply ScoreFacts.author_credibility_range|].
  split; [apply ScoreFacts.community_validation_total; assumption|].
  split; [apply ScoreFacts.content_quality_range|].
  split; [apply ScoreFacts.official_endorsement_range|].
  split; [intros r w'; apply ScoreFacts.recency_range|].
  split; [apply ScoreFacts.detail_level_range|].
  split.
  - intros s w' Hs.
    destruct (QualityScorer._score_recency m w) as [[r w1]|e] eqn:Hr.
    + destruct (calculate_score_clamped m w w1 r Hd Hc Hr) as (t & Ht & _ & Heq).
      rewrite Heq in Hs. injection Hs as <- _.
      apply ScoreFacts.clamp_in_range, NonNegative.nonneg_not_nan, Ht.
    + exfalso. rewrite ScoreFacts.calculate_score_eq in Hs.
      unfold bind, Notions.pre_penalty_total, lift in Hs.
      destruct (QualityScorer._score_community_validation m); [|discriminate].
      unfold bind in Hs. rewrite Hr in Hs. discriminate.
  - intros Hn.
    destruct (ScoreFacts.recency_total m w Hn) as (r & w1 & Hr).
    destruct (calculate_score_clamped m w w1 r Hd Hc Hr) as (t & Ht & _ & Heq).
    exists (Notions.clamp t), w1. split; [exact Heq|].
    apply ScoreFacts.clamp_in_range, NonNegative.nonneg_not_nan, Ht.
Qed.

Lemma sub_scores_and_final_score_in_range_witness :
  0 <= downvotes Samples.reddit_metrics /\
  0 <= confirmed_working Samples.reddit_metrics /\
  exists s w',
    QualityScorer.calculate_score Samples.reddit_metrics Samples.still_world
      = Ok (s, w') /\ Notions.in_range s.
Proof.
  split; [cbn; lia|]. split; [cbn; lia|].
  apply (sub_scores_and_final_score_in_range
           Samples.reddit_metrics Samples.still_world); cbn; try lia.
  reflexivity.
Defined.

(* ================================================================= *)
(** * Monotonicity of community validation *)

(** C3. For every Metrics Record with non-negative downvotes and every
    increase of upvotes with downvotes (and all other fields) held
    fixed, the community-validation sub-score never decreases. *)
Theorem community_validation_monotone_in_upvotes
    (m : SolutionMetrics) (u' : Z) :
  0 <= downvotes m -> upvotes m <= u' ->
  exists c c',
    QualityScorer._score_community_validation m = Ok c /\
    QualityScorer._score_community_validation (Notions.with_upvotes m u') = Ok c' /\
    c <= c'.
Proof.
  intros Hd Hu.
  unfold QualityScorer._score_community_validation. cbv zeta.
  cbn [Notions.with_upvotes upvotes downvotes confirmed_working reply_count view_count].
  set (u := upvotes m) in *. set (d := downvotes m) in *.
  assert (Hv : exists rp rp',
             0 <= rp <= rp' /\
             (if u >? 0
              then rbind (true_div u (Z.max 1 (u + d)))
                     (fun ratio =>
                        Ok (if QualityScorer.fgt ratio (decimal 95 2) then 0 + 30
                            else if QualityScorer.fgt ratio (decimal 85 2) then 0 + 25
                            else if QualityScorer.fgt ratio (decimal 75 2) then 0 + 20
                            else if QualityScorer.fgt ratio (decimal 65 2) then 0 + 15
                            else 0 + 10))
              else Ok 0) = Ok rp /\
             (if u' >? 0
              then rbind (true_div u' (Z.max 1 (u' + d)))
                     (fun ratio =>
                        Ok (if QualityScorer.fgt ratio (decimal 95 2) then 0 + 30
                            else if QualityScorer.fgt ratio (decimal 85 2) then 0 + 25
                            else if QualityScorer.fgt ratio (decimal 75 2) then 0 + 20
                            else if QualityScorer.fgt ratio (decimal 65 2) then 0 + 15
                            else 0 + 10))
              else Ok 0) = Ok rp').
  { destruct (Z.gtb_spec u 0) as [Hu0|Hu0]; destruct (Z.gtb_spec u' 0) as [Hu0'|Hu0'];
      try lia.
    - exists (Notions.ratio_points u d), (Notions.ratio_points u' d).
      split; [|split; apply ScoreFacts.vote_ratio_points; assumption].
      pose proof (ScoreFacts.ratio_points_range u d).
      pose proof (ScoreFacts.ratio_points_mono u u' d Hd ltac:(lia)). lia.
    - exists 0, (Notions.ratio_points u' d).
      split; [|split; [reflexivity | apply ScoreFacts.vote_ratio_points; assumption]].
      pose proof (ScoreFacts.ratio_points_range u' d). lia.
    - exists 0, 0. split; [lia|]. split; reflexivity. }
  destruct Hv as (rp & rp' & Hrp & -> & ->). cbn [rbind].
  eexists. eexists. split; [reflexivity|]. split; [reflexivity|].
  destruct (Z.gtb_spec u 100), (Z.gtb_spec u 50), (Z.gtb_spec u 20),
    (Z.gtb_spec u 10); try lia;
    destruct (Z.gtb_spec u' 100), (Z.gtb_spec u' 50), (Z.gtb_spec u' 20),
      (Z.gtb_spec u' 10); try lia;
    destruct (reply_count m >? 20), (reply_count m >? 10), (reply_count m >? 5),
      (view_count m >? 10000), (view_count m >? 1000); lia.
Qed.

Lemma community_validation_monotone_in_upvotes_witness :
  0 <= downvotes Samples.reddit_metrics /\
  upvotes Samples.reddit_metrics <= 200 /\
  exists c c',
    QualityScorer._score_community_validation Samples.reddit_metrics = Ok c /\
    QualityScorer._score_community_validation
      (Notions.with_upvotes Samples.reddit_metrics 200) = Ok c' /\
    c <= c'.
Proof.
  split; [cbn; lia|]. split; [cbn; lia|].
  apply (community_validation_monotone_in_upvotes Samples.reddit_metrics 200);
    cbn; lia.
Defined.

(* ================================================================= *)
(** * Recency without a date *)

(** C7. For every Metrics Record whose [post_date] is absent, the
    recency sub-score is exactly 50; it is a value, not an error, and
    the clock is not read. *)
Theorem absent_post_date_scores_50 (m : SolutionMetrics) (w : World) :
  post_date m = None -> QualityScorer._score_recency m w = Ok (50, w).
Proof.
  intros H. unfold QualityScorer._score_recency. rewrite H. reflexivity.
Qed.

Lemma absent_post_date_scores_50_witness :
  post_date default_metrics = None /\
  QualityScorer._score_recency default_metrics Samples.still_world
    = Ok (50, Samples.still_world).
Proof.
  split; [reflexivity|].
  apply (absent_post_date_scores_50 default_metrics Samples.still_world).
  reflexivity.
Defined.

(* ================================================================= *)
(** * Official endorsement *)

(** The sum before the clamp is at most 100. *)
Lemma official_endorsement_sum_le_100 (m : SolutionMetrics) :
  QualityScorer.official_endorsement_sum m <= 100.
Proof.
  unfold QualityScorer.official_endorsement_sum.
  destruct (dev_response m), (mod_endorsed m), (is_solved m); lia.
Qed.

(** C8, as worded, fails: no record has a sum above 100 before the
    clamp. *)
Lemma no_endorsement_headroom : ~ Notions.endorsement_headroom_claim.
Proof.
  intros [_ [m Hm]]. pose proof (official_endorsement_sum_le_100 m). lia.
Qed.

(** C8, amended. The official-endorsement sub-score adds 50 for
    [dev_response], 30 for [mod_endorsed] and 20 for [is_solved], then
    clamps to 100; the sum before the clamp never exceeds 100 (it is
    100 when the three flags are set), so the clamp never changes it. *)
Theorem official_endorsement_is_the_plain_sum (m : SolutionMetrics) :
  QualityScorer._score_official_endorsement m =
    Z.min ((if dev_response m then 50 else 0)
           + (if mod_endorsed m then 30 else 0)
           + (if is_solved m then 20 else 0)) 100 /\
  QualityScorer.official_endorsement_sum m <= 100 /\
  QualityScorer._score_official_endorsement m =
    QualityScorer.official_endorsement_sum m.
Proof.
  pose proof (official_endorsement_sum_le_100 m) as Hle.
  unfold QualityScorer._score_official_endorsement in *.
  unfold QualityScorer.official_endorsement_sum in *.
  destruct (dev_response m), (mod_endorsed m), (is_solved m); lia.
Qed.

(* ================================================================= *)
(** * Badges *)

Section Badges.

Import Notions QualityScorer.

Lemma badge_loop_first_match (items : list (string * Z)) (b : string) (score : Z) :
  badge_loop items b score =
  score + match find (fun kp => PyStr.contains (fst kp) b) items with
          | Some kp => snd kp
          | None => 0
          end.
Proof.
  induction items as [|[key points] rest IH]; cbn [badge_loop find fst snd]; [lia|].
  destruct (PyStr.contains key b); [reflexivity | exact IH].
Qed.

Lemma badges_fold_sum (badges : list string) (score : Z) :
  fold_left (fun score badge => badge_loop badge_scores (PyStr.lower badge) score)
            badges score
  = score + sum_Z (map (fun badge => first_match_points (PyStr.lower badge)) badges).
Proof.
  revert score. induction badges as [|b badges IH]; intros score;
    cbn [fold_left map sum_Z fold_right]; [lia|].
  rewrite IH, badge_loop_first_match. unfold first_match_points, sum_Z. lia.
Qed.

End Badges.

(** C2, as worded, fails: a badge naming two categories earns the
    points of one of them only. *)
Lemma two_categories_do_not_stack :
  QualityScorer._score_author_credibility Samples.two_category_badge = 20 /\
  Notions.stacking_author_credibility Samples.two_category_badge = 45 /\
  QualityScorer._score_author_credibility Samples.two_category_badge <>
  Notions.stacking_author_credibility Samples.two_category_badge.
Proof. repeat split; vm_compute; congruence. Qed.

(** C2, amended. Each badge is lowercased and tested, by substring,
    against the keys of the badge table in table order; it earns the
    points of the first key it contains and nothing for any later key,
    and 0 when it contains none.  The points of the badges of the list
    are added to the reputation and post-count points, and the sum is
    clamped to 100.  Badges that differ by letter case only earn the
    same points. *)
Theorem badges_earn_their_first_match (m : SolutionMetrics) :
  QualityScorer._score_author_credibility m =
    Z.min (Notions.reputation_points (author_reputation m)
           + Notions.post_count_points (author_post_count m)
           + Notions.sum_Z
               (map (fun badge => Notions.first_match_points (PyStr.lower badge))
                    (author_badges m)))
          100 /\
  (forall badge before key points after,
      QualityScorer.badge_scores = (before ++ (key, points) :: after)%list ->
      (forall kp, In kp before ->
                  PyStr.contains (fst kp) (PyStr.lower badge) = false) ->
      PyStr.contains key (PyStr.lower badge) = true ->
      Notions.first_match_points (PyStr.lower badge) = points) /\
  (forall badge,
      (forall kp, In kp QualityScorer.badge_scores ->
                  PyStr.contains (fst kp) (PyStr.lower badge) = false) ->
      Notions.first_match_points (PyStr.lower badge) = 0) /\
  (forall badge badge',
      PyStr.lower badge = PyStr.lower badge' ->
      Notions.first_match_points (PyStr.lower badge) =
      Notions.first_match_points (PyStr.lower badge')).
Proof.
  split; [|split; [|split]].
  - unfold QualityScorer._score_author_credibility. cbv zeta.
    rewrite badges_fold_sum.
    unfold Notions.reputation_points, Notions.post_count_points.
    destruct (author_reputation m >? 10000), (author_reputation m >? 5000),
      (author_reputation m >? 1000), (author_reputation m >? 500),
      (author_reputation m >? 100), (author_post_count m >? 1000),
      (author_post_count m >? 500), (author_post_count m >? 100),
      (author_post_count m >? 50); reflexivity.
  - intros badge before key points after Htable Hbefore Hkey.
    unfold Notions.first_match_points. rewrite Htable. clear Htable.
    induction before as [|kp before IH]; cbn [app find].
    + cbn [fst]. rewrite Hkey. reflexivity.
    + rewrite (Hbefore kp (or_introl eq_refl)).
      apply IH. intros kp' Hin. apply Hbefore. right. exact Hin.
  - intros badge Hnone. unfold Notions.first_match_points.
    destruct (find _ QualityScorer.badge_scores) as [kp|] eqn:Hf; [|reflexivity].
    apply find_some in Hf. destruct Hf as [Hin Hc].
    rewrite (Hnone kp Hin) in Hc. discriminate.
  - intros badge badge' Heq. rewrite Heq. reflexivity.
Qed.

Lemma badges_earn_their_first_match_witness :
  Notions.first_match_points (PyStr.lower "Moderator Developer") = 20.
Proof.
  apply (proj1 (proj2 (badges_earn_their_first_match default_metrics))
           "Moderator Developer" [] "moderator" 20
           [ ("developer", 25); ("verified", 15); ("helper", 10);
             ("veteran", 10); ("expert", 15); ("mvp", 20); ("trusted", 15) ]).
  - reflexivity.
  - intros kp [].
  - reflexivity.
Defined.

(* ================================================================= *)
(** * The contradiction penalty *)

Lemma pre_penalty_total_ignores_contradicted (m : SolutionMetrics) (b : bool) :
  Notions.pre_penalty_total (Notions.with_contradicted m b) =
  Notions.pre_penalty_total m.
Proof. reflexivity. Qed.

(** C4. For every Metrics Record with [contradicted = true], the final
    score is the clamp of 0.8 times the total [t] reached after the
    weighted sum and the platform multiplier, where the clamp of [t]
    itself is the score of the same record with [contradicted = false];
    nothing is capped between [t] and the multiplication by 0.8.  An
    exception raised on the way is raised for both records. *)
Theorem contradiction_penalty_before_clamp (m : SolutionMetrics) (w : World) :
  contradicted m = true ->
  match Notions.pre_penalty_total m w with
  | Ok (t, w') =>
      QualityScorer.calculate_score (Notions.with_contradicted m false) w
        = Ok (Notions.clamp t, w') /\
      QualityScorer.calculate_score m w
        = Ok (Notions.clamp (fmul t (decimal 8 1)), w')
  | Raise e =>
      QualityScorer.calculate_score (Notions.with_contradicted m false) w
        = Raise e /\
      QualityScorer.calculate_score m w = Raise e
  end.
Proof.
  intros Hc. rewrite !ScoreFacts.calculate_score_eq.
  unfold bind. rewrite pre_penalty_total_ignores_contradicted, Hc.
  cbn [Notions.with_contradicted contradicted].
  destruct (Notions.pre_penalty_total m w) as [[t w']|e]; split; reflexivity.
Qed.

(** On a record whose factors all score 100 on Steam the total is
    about 110: the penalised score is about 88, not the 80 that a
    clamp before the multiplication would give. *)
Lemma contradiction_penalty_before_clamp_witness :
  contradicted Samples.steam_best_contradicted = true /\
  Notions.value_of
    (Notions.pre_penalty_total Samples.steam_best_contradicted Samples.still_world)
    = Ok (S754_finite false 7740561859543041 (-46)) /\
  Notions.value_of
    (QualityScorer.calculate_score
       (Notions.with_contradicted Samples.steam_best_contradicted false)
       Samples.still_world)
    = Ok (PyInt 100) /\
  Notions.value_of
    (QualityScorer.calculate_score Samples.steam_best_contradicted
       Samples.still_world)
    = Ok (PyFlt (S754_finite false 6192449487634433 (-46))) /\
  fmul (S754_finite false 7036874417766400 (-46)) (decimal 8 1)
    = S754_finite false 5629499534213120 (-46).
Proof.
  split; [reflexivity|].
  pose proof (contradiction_penalty_before_clamp
                Samples.steam_best_contradicted Samples.still_world eq_refl) as H.
  destruct (Notions.pre_penalty_total Samples.steam_best_contradicted
              Samples.still_world) as [[t w']|e] eqn:Ht.
  - destruct H as [H1 H2]. rewrite H1, H2.
    vm_compute in Ht. injection Ht as <- _.
    repeat split; vm_compute; reflexivity.
  - vm_compute in Ht. discriminate Ht.
Defined.

(* ================================================================= *)
(** * Determinism and the clock *)

(** C6, as worded, fails: a post that turns seven days old between two
    calls gets two different scores, since each call reads the clock. *)
Lemma rescoring_can_change_the_score :
  Notions.value_of (Notions.score_twice Samples.week_old Samples.ticking_world)
    = Ok (PyFlt (S754_finite false 5629499534213120 (-49)),
          PyFlt (S754_finite false 5066549580791808 (-49))) /\
  num_eq (PyFlt (S754_finite false 5629499534213120 (-49)))
         (PyFlt (S754_finite false 5066549580791808 (-49))) = false.
Proof. split; vm_compute; reflexivity. Qed.

Lemma recency_reads_one_time (m : SolutionMetrics) (w1 w2 : World) :
  post_date m = None \/ clock w1 (reads w1) = clock w2 (reads w2) ->
  Notions.value_of (QualityScorer._score_recency m w1) =
  Notions.value_of (QualityScorer._score_recency m w2).
Proof.
  intros H. unfold QualityScorer._score_recency.
  destruct (post_date m) as [d|]; [|reflexivity].
  destruct H as [H|H]; [discriminate|].
  unfold bind, datetime_now, lift, datetime_sub, ret. cbn [utcoffset instant].
  rewrite H. destruct (utcoffset d); reflexivity.
Qed.

(** C6, amended. [calculate_score] takes the record only and reads the
    time from the ambient clock.  Its result is a function of the
    record and of that one reading: two calls on the same record return
    the identical score (or raise the same exception) whenever they
    read the same time, and always when [post_date] is absent, in which
    case the clock is not read. *)
Theorem score_is_a_function_of_record_and_clock_reading
    (m : SolutionMetrics) (w1 w2 : World) :
  post_date m = None \/ clock w1 (reads w1) = clock w2 (reads w2) ->
  Notions.value_of (QualityScorer.calculate_score m w1) =
  Notions.value_of (QualityScorer.calculate_score m w2).
Proof.
  intros H. pose proof (recency_reads_one_time m w1 w2 H) as Hr.
  unfold QualityScorer.calculate_score, bind, lift.
  destruct (QualityScorer._score_community_validation m) as [c|e]; [|reflexivity].
  destruct (QualityScorer._score_recency m w1) as [[r1 w1']|e1];
    destruct (QualityScorer._score_recency m w2) as [[r2 w2']|e2];
    cbn [Notions.value_of] in Hr; try discriminate Hr.
  - injection Hr as ->.
    destruct (QualityScorer.weighted_terms _) as [ts|e]; reflexivity.
  - injection Hr as ->. reflexivity.
Qed.

Lemma score_is_a_function_of_record_and_clock_reading_witness :
  (post_date Samples.week_old = None \/
   clock Samples.still_world (reads Samples.still_world) =
   clock Samples.ticking_world (reads Samples.ticking_world)) /\
  Notions.value_of
    (QualityScorer.calculate_score Samples.week_old Samples.still_world) =
  Notions.value_of
    (QualityScorer.calculate_score Samples.week_old Samples.ticking_world).
Proof.
  split; [right; reflexivity|].
  apply (score_is_a_function_of_record_and_clock_reading
           Samples.week_old Samples.still_world Samples.ticking_world).
  right. reflexivity.
Defined.

(* ================================================================= *)
(** * The backfill of the content fields *)

Section Backfill.

Import Notions QualityScorer.

Lemma recency_keeps_heap (m : SolutionMetrics) : keeps_heap (_score_recency m).
Proof.
  intros w r w'. unfold _score_recency.
  destruct (post_date m) as [d|].
  - unfold bind, datetime_now, lift, datetime_sub, ret. cbn [utcoffset instant].
    destruct (utcoffset d); [discriminate|].
    intros H; injection H as _ <-. reflexivity.
  - unfold ret. intros H; injection H as _ <-. reflexivity.
Qed.

Lemma calculate_score_keeps_heap (m : SolutionMetrics) :
  keeps_heap (calculate_score m).
Proof.
  intros w s w'. unfold calculate_score, bind, lift.
  destruct (_score_community_validation m) as [c|]; [|discriminate].
  destruct (_score_recency m w) as [[r w1]|] eqn:Hr; [|discriminate].
  apply recency_keeps_heap in Hr.
  destruct (weighted_terms _) as [ts|]; [|discriminate].
  unfold ret. intros H; injection H as _ <-. exact Hr.
Qed.

Lemma identify_weaknesses_keeps_heap (m : SolutionMetrics) :
  keeps_heap (_identify_weaknesses m).
Proof.
  intros w l w'. unfold _identify_weaknesses, bind, lift.
  destruct (of_int (upvotes m)) as [up|]; [|discriminate].
  destruct (post_date m) as [d|].
  - unfold datetime_now, datetime_sub, ret. cbn [utcoffset instant].
    destruct (utcoffset d); [discriminate|].
    intros H; injection H as _ <-. reflexivity.
  - unfold ret. intros H; injection H as _ <-. reflexivity.
Qed.

(** One pair: the object is overwritten by its backfill, the others
    are untouched. *)
Lemma score_one_heap (r : nat) (content : string) (w w' : World)
    (entry : RankedSolution) :
  score_one (r, content) w = Ok (entry, w') ->
  forall r', heap w' r' =
             if Nat.eqb r' r
             then backfill (heap w r) (analyze_content content)
             else heap w r'.
Proof.
  unfold score_one, bind, deref, store. cbn [heap].
  rewrite Nat.eqb_refl.
  set (m' := backfill (heap w r) (analyze_content content)).
  set (w0 := {| clock := clock w; reads := reads w;
                heap := fun r' => if Nat.eqb r' r then m' else heap w r';
                next_ref := next_ref w |}).
  destruct (calculate_score m' w0) as [[s w1]|] eqn:Hs; [|discriminate].
  apply calculate_score_keeps_heap in Hs.
  destruct (_identify_weaknesses m' w1) as [[wk w2]|] eqn:Hw; [|discriminate].
  apply identify_weaknesses_keeps_heap in Hw.
  unfold ret. intros H; injection H as _ <-.
  intros r'. rewrite Hw, Hs. reflexivity.
Qed.

Lemma backfill_backfill (m : SolutionMetrics) (a a' : ContentAnalysis) :
  backfill (backfill m a) a' = backfill m a'.
Proof. reflexivity. Qed.

(** The whole batch: every object holds the backfill of the last text
    it was paired with, or is untouched. *)
Lemma score_all_heap (solutions : list (nat * string)) :
  forall (w w' : World) (entries : list RankedSolution),
    score_all solutions w = Ok (entries, w') ->
    forall r, heap w' r =
              match last_content r solutions with
              | Some content => backfill (heap w r) (analyze_content content)
              | None => heap w r
              end.
Proof.
  induction solutions as [|[r0 c0] rest IH]; intros w w' entries; cbn [score_all].
  - unfold ret. intros H; injection H as _ <-. reflexivity.
  - unfold bind.
    destruct (score_one (r0, c0) w) as [[entry w1]|] eqn:H1; [|discriminate].
    destruct (score_all rest w1) as [[es w2]|] eqn:H2; [|discriminate].
    unfold ret. intros H; injection H as _ <-.
    intros r. rewrite (IH _ _ _ H2 r). cbn [last_content].
    rewrite (score_one_heap _ _ _ _ _ H1 r).
    destruct (last_content r rest) as [c|]; destruct (Nat.eqb r r0) eqn:Hr;
      try reflexivity; apply Nat.eqb_eq in Hr; subst r0;
      [apply backfill_backfill | reflexivity].
Qed.

Lemma last_content_in (r : nat) (solutions : list (nat * string)) (c : string) :
  last_content r solutions = Some c -> In (r, c) solutions.
Proof.
  induction solutions as [|[r0 c0] rest IH]; cbn [last_content]; [discriminate|].
  destruct (last_content r rest) as [c'|].
  - intros H; injection H as ->. right. apply IH. reflexivity.
  - destruct (Nat.eqb r r0) eqn:Hr; [|discriminate].
    apply Nat.eqb_eq in Hr. subst r0. intros H; injection H as ->.
    left. reflexivity.
Qed.

Lemma last_content_none (r : nat) (solutions : list (nat * string)) :
  last_content r solutions = None -> ~ In r (map fst solutions).
Proof.
  induction solutions as [|[r0 c0] rest IH]; cbn [last_content map fst In]; [tauto|].
  destruct (last_content r rest) as [c'|]; [discriminate|].
  destruct (Nat.eqb r r0) eqn:Hr; [discriminate|].
  apply Nat.eqb_neq in Hr. intros _ [H|H]; [congruence | exact (IH eq_refl H)].
Qed.

Lemma backfill_same_outside_content (m : SolutionMetrics) (a : ContentAnalysis) :
  same_outside_content m (backfill m a).
Proof. unfold same_outside_content. cbn. repeat split. Qed.

Lemma same_outside_content_refl (m : SolutionMetrics) : same_outside_content m m.
Proof. unfold same_outside_content. repeat split. Qed.

End Backfill.

(** C10. For every batch, [compare_solutions] changes a Metrics Record
    only by the backfill of [word_count], [has_steps],
    [has_screenshots], [has_video] and [code_blocks] from the analysis
    of the text it is paired with (the last one, when the record occurs
    several times); the [confirmed_working] and [has_warnings] values
    of the analysis never reach the record, every other field keeps its
    value, records outside the batch are untouched, and so the
    community-validation sub-score is the one of the record as
    supplied. *)
Theorem backfill_touches_content_fields_only
    (solutions : list (nat * string)) (w w' : World)
    (ranked : list QualityScorer.RankedSolution) :
  QualityScorer.compare_solutions solutions w = Ok (ranked, w') ->
  (forall r,
      heap w' r =
      match Notions.last_content r solutions with
      | Some content =>
          QualityScorer.backfill (heap w r) (QualityScorer.analyze_content content)
      | None => heap w r
      end) /\
  (forall r, In r (map fst solutions) ->
             exists content,
               In (r, content) solutions /\
               let a := QualityScorer.analyze_content content in
               word_count (heap w' r) = QualityScorer.a_word_count a /\
               has_steps (heap w' r) = QualityScorer.a_has_steps a /\
               has_screenshots (heap w' r) = QualityScorer.a_has_screenshots a /\
               has_video (heap w' r) = QualityScorer.a_has_video a /\
               code_blocks (heap w' r) = QualityScorer.a_code_blocks a) /\
  (forall r, ~ In r (map fst solutions) -> heap w' r = heap w r) /\
  (forall r, Notions.same_outside_content (heap w r) (heap w' r)) /\
  (forall r, QualityScorer._score_community_validation (heap w' r) =
             QualityScorer._score_community_validation (heap w r)).
Proof.
  intros H. unfold QualityScorer.compare_solutions, bind in H.
  destruct (QualityScorer.score_all solutions w) as [[entries w1]|] eqn:Hall;
    [|discriminate].
  unfold ret in H. injection H as _ <-.
  pose proof (score_all_heap solutions w w1 entries Hall) as Hheap.
  split; [exact Hheap|].
  split; [|split; [|split]].
  - intros r Hin. specialize (Hheap r).
    destruct (Notions.last_content r solutions) as [c|] eqn:Hl.
    + exists c. split; [apply last_content_in; exact Hl|].
      rewrite Hheap. cbn. repeat split.
    + exfalso. exact (last_content_none r solutions Hl Hin).
  - intros r Hnotin. rewrite Hheap.
    destruct (Notions.last_content r solutions) as [c|] eqn:Hl; [|reflexivity].
    exfalso. apply Hnotin. apply last_content_in in Hl.
    apply (in_map fst) in Hl. exact Hl.
  - intros r. rewrite Hheap.
    destruct (Notions.last_content r solutions);
      [apply backfill_same_outside_content | apply same_outside_content_refl].
  - intros r. rewrite Hheap.
    destruct (Notions.last_content r solutions); reflexivity.
Qed.

(** The object scored twice ends with the analysis of its second text:
    that text holds one confirmation, yet the record keeps the
    [confirmed_working] it came with. *)
Lemma backfill_touches_content_fields_only_witness :
  match QualityScorer.compare_solutions Samples.shared_batch Samples.shared_world with
  | Ok (_, w') =>
      QualityScorer.a_confirmed_working
        (QualityScorer.analyze_content
           "This worked for me. Warning: backup your save first.") = 1 /\
      confirmed_working (heap w' 0%nat) = 0 /\
      word_count (heap w' 0%nat) = 9 /\
      Notions.same_outside_content Samples.reddit_metrics (heap w' 0%nat)
  | Raise _ => False
  end.
Proof.
  destruct (QualityScorer.compare_solutions Samples.shared_batch Samples.shared_world)
    as [[ranked w']|e] eqn:H.
  - destruct (backfill_touches_content_fields_only _ _ _ _ H)
      as (Hheap & _ & _ & Hsame & _).
    split; [vm_compute; reflexivity|].
    split; [rewrite (Hheap 0%nat); reflexivity|].
    split; [rewrite (Hheap 0%nat); vm_compute; reflexivity|].
    exact (Hsame 0%nat).
  - vm_compute in H. discriminate H.
Defined.

(* ================================================================= *)
(** * The order of the scores *)

Section ScoreOrder.

Import Rounding FloatFacts NonNegative Notions ScoreFacts QualityScorer.

Lemma lex_lt_trans (a b c : Z * Z) :
  lex_lt a b = false -> lex_lt b c = false -> lex_lt a c = false.
Proof.
  destruct a as [a1 a2], b as [b1 b2], c as [c1 c2]. unfold lex_lt. cbn [fst snd].
  rewrite !orb_false_iff, !andb_false_iff, !Z.ltb_ge, !Z.eqb_neq. lia.
Qed.

Lemma regular_nonneg (t : float) : regular t -> nonneg t = true.
Proof. destruct t as [s|[|]| |[|] m e]; cbn; tauto. Qed.

Lemma regular_not_below_zero (t : float) :
  regular t -> num_lt (PyFlt t) (PyInt 0) = false.
Proof.
  unfold num_lt. cbn [num_compare].
  destruct t as [s|[|]| |[|] m e]; cbn [regular]; try tauto; intros _;
    try reflexivity.
  unfold compare_int_float. cbn [option_map].
  destruct e as [|k|k].
  - reflexivity.
  - rewrite Z.shiftl_mul_pow2 by lia.
    pose proof (pow2_pos (Zpos k) ltac:(lia)) as Hp.
    assert (H : 0 < Zpos m * 2 ^ Zpos k) by (apply Z.mul_pos_pos; lia).
    apply Z.compare_lt_iff in H. rewrite H. reflexivity.
  - rewrite Z.shiftl_0_l. reflexivity.
Qed.

(** The clamp of a regular total is a settled score. *)
Lemma clamp_settled (t : float) : regular t -> settled (clamp t).
Proof.
  intros Ht. unfold clamp, py_max, num_gt.
  rewrite (regular_not_below_zero t Ht).
  unfold py_min. destruct (num_lt (PyInt 100) (PyFlt t)) eqn:H100; cbn [settled].
  - reflexivity.
  - split; assumption.
Qed.

(** What a settled float looks like. *)
Lemma settled_float (t : float) :
  settled (PyFlt t) ->
  (exists s, t = S754_zero s) \/
  (exists m e, t = S754_finite false m e /\ well_formed m e /\
               e <= -46 /\ (e = -46 -> Zpos m <= 7036874417766400)).
Proof.
  intros [Hr H100]. unfold num_lt in H100. cbn [num_compare] in H100.
  destruct t as [s|[|]| |[|] m e]; cbn [regular] in Hr; try tauto.
  - left. eauto.
  - cbn in H100. discriminate.
  - right. exists m, e. split; [reflexivity|]. split; [exact Hr|].
    unfold compare_int_float in H100.
    destruct e as [|k|k].
    + exfalso. rewrite Z.shiftl_mul_pow2 in H100 by lia.
      change (2 ^ 0) with 1 in H100. rewrite Z.mul_1_r in H100.
      destruct Hr as [[Hm _]|[_ He]]; [|discriminate].
      unfold two52 in Hm.
      assert (Hc : (100 ?= Zpos m) = Lt) by (apply Z.compare_lt_iff; lia).
      rewrite Hc in H100. discriminate.
    + exfalso. rewrite Z.shiftl_mul_pow2 in H100 by lia.
      destruct Hr as [[Hm _]|[_ He]]; [|discriminate].
      pose proof (pow2_pos (Zpos k) ltac:(lia)) as Hp.
      assert (H1 : Zpos m * 1 <= Zpos m * 2 ^ Zpos k)
        by (apply Z.mul_le_mono_nonneg_l; lia).
      unfold two52 in Hm.
      assert (Hc : (100 ?= Zpos m * 2 ^ Zpos k) = Lt)
        by (apply Z.compare_lt_iff; lia).
      rewrite Hc in H100. discriminate.
    + rewrite Z.shiftl_mul_pow2 in H100 by lia.
      assert (Hle : Zpos m <= 100 * 2 ^ Zpos k).
      { destruct (Z.compare_spec (100 * 2 ^ Zpos k) (Zpos m)); lia || discriminate. }
      destruct Hr as [[Hm He]|[Hm He]].
      * assert (Hk : 46 <= Zpos k).
        { destruct (Z_lt_le_dec (Zpos k) 46) as [Hlt|]; [exfalso|assumption].
          assert (2 ^ Zpos k <= 2 ^ 45) by (apply Z.pow_le_mono_r; lia).
          change (2 ^ 45) with 35184372088832 in H. unfold two52 in Hm. lia. }
        split; [lia|]. intros He46.
        assert (Zpos k = 46) by lia. rewrite H in Hle.
        change (2 ^ 46) with 70368744177664 in Hle. lia.
      * split; [lia|]. intros He46. rewrite He in He46. discriminate.
Qed.

(** On settled scores [<] is the order of the places. *)
Lemma num_lt_place (x y : pynum) :
  settled x -> settled y -> num_lt x y = lex_lt (place x) (place y).
Proof.
  intros Hx Hy.
  destruct x as [a|t], y as [b|u].
  - cbn [settled] in Hx, Hy. subst. reflexivity.
  - cbn [settled] in Hx. subst a. destruct Hy as [Hr H100]. rewrite H100.
    destruct (settled_float u (conj Hr H100)) as [[s ->]|(m & e & -> & _ & He & Hm)].
    + reflexivity.
    + unfold lex_lt, place. cbn [fst snd]. symmetry.
      rewrite orb_false_iff, andb_false_iff, !Z.ltb_ge, Z.eqb_neq.
      split; [lia|]. destruct (Z.eq_dec e (-46)); [right|left]; lia.
  - cbn [settled] in Hy. subst b.
    destruct (settled_float t Hx) as [[s ->]|(m & e & -> & Hwf & He & Hm)].
    + reflexivity.
    + unfold num_lt, lex_lt, place. cbn [num_compare fst snd].
      unfold compare_int_float. cbn [option_map].
      destruct e as [|k|k]; try lia.
      rewrite Z.shiftl_mul_pow2 by lia.
      destruct (Z.eq_dec (Zpos k) 46) as [Hk|Hk].
      * rewrite Hk. change (100 * 2 ^ 46) with 7036874417766400.
        assert (Hneg : Zneg k = -46) by lia. rewrite Hneg.
        change (-46 <? -46) with false. change (-46 =? -46) with true. cbn [orb andb].
        destruct (Z.compare_spec 7036874417766400 (Zpos m)); cbn [CompOpp];
          symmetry; [apply Z.ltb_ge | apply Z.ltb_ge | apply Z.ltb_lt]; lia.
      * assert (Hk47 : 47 <= Zpos k) by lia.
        assert (H47 : 2 ^ 47 <= 2 ^ Zpos k) by (apply Z.pow_le_mono_r; lia).
        change (2 ^ 47) with 140737488355328 in H47.
        assert (Hm53 : Zpos m < two53)
          by (destruct Hwf as [[? _]|[? _]]; unfold two52, two53 in *; lia).
        unfold two53 in Hm53.
        assert (Hc : (100 * 2 ^ Zpos k ?= Zpos m) = Gt)
          by (apply Z.compare_gt_iff; lia).
        rewrite Hc. cbn [CompOpp]. symmetry.
        apply orb_true_iff. left. apply Z.ltb_lt. lia.
  - destruct (settled_float t Hx) as [[s ->]|(m & e & -> & Hwf & He & Hm)];
      destruct (settled_float u Hy) as [[s' ->]|(m' & e' & -> & Hwf' & He' & Hm')].
    + reflexivity.
    + unfold num_lt, lex_lt, place. cbn [num_compare fcompare SFcompare fst snd].
      symmetry. apply orb_true_iff. left. apply Z.ltb_lt.
      destruct Hwf' as [[_ ?]|[_ ?]]; lia.
    + unfold num_lt, lex_lt, place. cbn [num_compare fcompare SFcompare fst snd].
      symmetry. rewrite orb_false_iff, andb_false_iff, Z.ltb_ge, Z.eqb_neq.
      destruct Hwf as [[_ ?]|[_ ?]]; lia.
    + unfold num_lt, lex_lt, place. cbn [num_compare fst snd].
      unfold fcompare, SFcompare. rewrite Pos.compare_cont_spec.
      change (Pos.compare m m') with (Z.compare (Zpos m) (Zpos m')).
      destruct (Z.compare_spec e e') as [Hee|Hee|Hee].
      * subst e'. rewrite Z.ltb_irrefl, Z.eqb_refl. cbn [orb andb Pos.switch_Eq].
        destruct (Z.compare_spec (Zpos m) (Zpos m')); symmetry;
          [apply Z.ltb_ge | apply Z.ltb_lt | apply Z.ltb_ge]; lia.
      * symmetry. apply orb_true_iff. left. apply Z.ltb_lt. assumption.
      * symmetry. rewrite orb_false_iff, andb_false_iff, Z.ltb_ge, Z.eqb_neq. lia.
Qed.

(** Not being less is transitive on settled scores. *)
Lemma not_less_trans (x y z : pynum) :
  settled x -> settled y -> settled z ->
  num_lt x y = false -> num_lt y z = false -> num_lt x z = false.
Proof.
  intros Hx Hy Hz. rewrite !num_lt_place by assumption. apply lex_lt_trans.
Qed.

(** With counts in their domain every score is settled. *)
Lemma calculate_score_settled (m : SolutionMetrics) (w w' : World) (s : pynum) :
  counts_in_domain m -> calculate_score m w = Ok (s, w') -> settled s.
Proof.
  intros [Hd Hc] Hs.
  destruct (_score_recency m w) as [[r w1]|e] eqn:Hr.
  - destruct (calculate_score_clamped m w w1 r Hd Hc Hr) as (t & _ & Hreg & Heq).
    rewrite Heq in Hs. injection Hs as <- _. apply clamp_settled. exact Hreg.
  - exfalso. rewrite calculate_score_eq in Hs.
    unfold bind, pre_penalty_total, lift in Hs.
    destruct (_score_community_validation m); [|discriminate].
    unfold bind in Hs. rewrite Hr in Hs. discriminate.
Qed.

Lemma backfill_counts (m : SolutionMetrics) (a : ContentAnalysis) :
  counts_in_domain m -> counts_in_domain (backfill m a).
Proof. intros H. exact H. Qed.

Lemma score_one_settled (r : nat) (content : string) (w w' : World)
    (entry : RankedSolution) :
  counts_in_domain (heap w r) ->
  score_one (r, content) w = Ok (entry, w') -> settled (score entry).
Proof.
  intros Hdom. unfold score_one, bind, deref, store. cbn [heap].
  rewrite Nat.eqb_refl.
  destruct (calculate_score _ _) as [[s w1]|] eqn:Hs; [|discriminate].
  destruct (_identify_weaknesses _ _) as [[wk w2]|]; [|discriminate].
  unfold ret. intros H; injection H as <- _. cbn [score].
  apply (calculate_score_settled _ _ _ _ (backfill_counts _ _ Hdom) Hs).
Qed.

Lemma score_all_settled (solutions : list (nat * string)) :
  forall (w w' : World) (entries : list RankedSolution),
    (forall r, In r (map fst solutions) -> counts_in_domain (heap w r)) ->
    score_all solutions w = Ok (entries, w') ->
    Forall (fun entry => settled (score entry)) entries.
Proof.
  induction solutions as [|[r0 c0] rest IH]; intros w w' entries Hdom; cbn [score_all].
  - unfold ret. intros H; injection H as <- _. constructor.
  - unfold bind.
    destruct (score_one (r0, c0) w) as [[entry w1]|] eqn:H1; [|discriminate].
    destruct (score_all rest w1) as [[es w2]|] eqn:H2; [|discriminate].
    unfold ret. intros H; injection H as <- _.
    constructor.
    + apply (score_one_settled r0 c0 w w1); [|exact H1].
      apply Hdom. left. reflexivity.
    + apply (IH w1 w2); [|exact H2].
      intros r Hin. rewrite (score_one_heap _ _ _ _ _ H1 r).
      destruct (Nat.eqb r r0).
      * apply backfill_counts. apply Hdom. left. reflexivity.
      * apply Hdom. right. exact Hin.
Qed.

(** A sorted list is sorted all along when the relation is transitive
    on its elements. *)
Lemma sorted_all_along {A : Type} (P : A -> Prop) (R : A -> A -> Prop)
    (l : list A) :
  (forall x y z, P x -> P y -> P z -> R x y -> R y z -> R x z) ->
  Forall P l -> Sorted R l -> StronglySorted R l.
Proof.
  intros Htrans HP HS. induction HS as [|a t Ht IH Hhd]; [constructor|].
  inversion HP as [|? ? Pa Pt]; subst. specialize (IH Pt).
  constructor; [exact IH|].
  destruct t as [|b t']; [constructor|].
  inversion Hhd; subst. inversion IH; subst. inversion Pt; subst.
  constructor; [assumption|].
  rewrite Forall_forall in *. intros x Hx.
  apply (Htrans a b x); auto.
Qed.

End ScoreOrder.

(* ================================================================= *)
(** * The ranking is a stable descending sort *)

Section Comparison.

Lemma compare_cont_Eq_antisym (m1 m2 : positive) :
  Pos.compare_cont Eq m2 m1 = CompOpp (Pos.compare_cont Eq m1 m2).
Proof. symmetry. exact (Pos.compare_cont_antisym m1 m2 Eq). Qed.

Lemma SFcompare_antisym (f g : float) :
  SFcompare g f = option_map CompOpp (SFcompare f g).
Proof.
  destruct f as [s1|s1| |s1 m1 e1], g as [s2|s2| |s2 m2 e2]; cbn;
    try reflexivity;
    try (destruct s1; reflexivity); try (destruct s2; reflexivity);
    try (destruct s1, s2; reflexivity).
  destruct s1, s2; try reflexivity;
    rewrite (Z.compare_antisym e1 e2);
    destruct (e1 ?= e2); cbn; try reflexivity;
    rewrite (compare_cont_Eq_antisym m1 m2);
    destruct (Pos.compare_cont Eq m1 m2); reflexivity.
Qed.

Lemma num_compare_antisym (x y : pynum) :
  num_compare y x = option_map CompOpp (num_compare x y).
Proof.
  destruct x as [a|f], y as [b|g]; cbn [num_compare option_map].
  - rewrite (Z.compare_antisym a b). reflexivity.
  - reflexivity.
  - destruct (compare_int_float b f) as [[| |]|]; reflexivity.
  - apply SFcompare_antisym.
Qed.

(** [<] never holds both ways. *)
Lemma num_lt_asym (x y : pynum) : num_lt x y = true -> num_lt y x = false.
Proof.
  unfold num_lt. rewrite (num_compare_antisym x y).
  destruct (num_compare x y) as [[| |]|]; cbn; congruence.
Qed.

Lemma num_eq_not_lt (x y : pynum) : num_eq x y = true -> num_lt x y = false.
Proof.
  unfold num_eq, num_lt. destruct (num_compare x y) as [[| |]|]; congruence.
Qed.

End Comparison.

Section SortFacts.

Import Notions QualityScorer.

Context {A : Type} (key : A -> pynum).

Lemma insert_sorted_perm (x : A) (l : list A) :
  Permutation (x :: l) (insert_sorted key x l).
Proof.
  induction l as [|y t IH]; cbn [insert_sorted]; [apply Permutation_refl|].
  destruct (num_lt (key y) (key x)); [|apply Permutation_refl].
  eapply perm_trans; [apply perm_swap|]. apply perm_skip. exact IH.
Qed.

Lemma stable_sort_perm (l : list A) : Permutation l (stable_sort key l).
Proof.
  induction l as [|x t IH]; cbn [stable_sort]; [apply perm_nil|].
  eapply perm_trans; [apply perm_skip; exact IH|]. apply insert_sorted_perm.
Qed.

Lemma sort_reverse_perm (l : list A) : Permutation l (sort_reverse key l).
Proof.
  unfold sort_reverse.
  eapply perm_trans; [apply Permutation_rev|].
  eapply perm_trans; [apply stable_sort_perm|]. apply Permutation_rev.
Qed.

Lemma insert_sorted_hd (R : A -> A -> Prop) (y x : A) (l : list A) :
  R y x -> HdRel R y l -> HdRel R y (insert_sorted key x l).
Proof.
  intros Hyx Hl. destruct l as [|z t]; cbn [insert_sorted].
  - constructor. exact Hyx.
  - inversion Hl; subst. destruct (num_lt (key z) (key x)); constructor; assumption.
Qed.

Lemma insert_sorted_sorted (x : A) (l : list A) :
  Sorted (ascending key) l -> Sorted (ascending key) (insert_sorted key x l).
Proof.
  induction 1 as [|y t Ht IH Hhd]; cbn [insert_sorted].
  - repeat constructor.
  - destruct (num_lt (key y) (key x)) eqn:Hlt.
    + constructor; [exact IH|].
      apply insert_sorted_hd; [|exact Hhd].
      unfold ascending. apply num_lt_asym. exact Hlt.
    + constructor; [constructor; assumption|]. constructor. exact Hlt.
Qed.

Lemma stable_sort_sorted (l : list A) : Sorted (ascending key) (stable_sort key l).
Proof.
  induction l as [|x t IH]; cbn [stable_sort]; [constructor|].
  apply insert_sorted_sorted. exact IH.
Qed.

Lemma sorted_snoc (R : A -> A -> Prop) (l : list A) (x : A) :
  Sorted R l -> (forall y l', l = (l' ++ [y])%list -> R y x) ->
  Sorted R (l ++ [x]).
Proof.
  induction 1 as [|a t Ht IH Hhd]; intros Hlast; cbn [app].
  - repeat constructor.
  - constructor.
    + apply IH. intros y l' Heq. apply (Hlast y (a :: l')). rewrite Heq. reflexivity.
    + destruct t as [|b t']; cbn [app].
      * constructor. apply (Hlast a []). reflexivity.
      * inversion Hhd; subst. constructor. assumption.
Qed.

Lemma sorted_rev (R : A -> A -> Prop) (l : list A) :
  Sorted R l -> Sorted (fun x y => R y x) (rev l).
Proof.
  induction 1 as [|a t Ht IH Hhd]; cbn [rev]; [constructor|].
  apply sorted_snoc; [exact IH|].
  intros y l' Heq. destruct t as [|b t']; cbn [rev] in Heq.
  - destruct l'; discriminate.
  - apply app_inj_tail in Heq. destruct Heq as [_ <-].
    inversion Hhd; subst. assumption.
Qed.

Lemma sort_reverse_sorted (l : list A) : Sorted (descending key) (sort_reverse key l).
Proof.
  unfold sort_reverse. apply (sorted_rev (ascending key)). apply stable_sort_sorted.
Qed.

(** Stability. *)

Lemma precedes_cons (a b x : A) (l : list A) :
  precedes a b l -> precedes a b (x :: l).
Proof.
  intros (l1 & l2 & l3 & ->). exists (x :: l1), l2, l3. reflexivity.
Qed.

Lemma precedes_head (a b : A) (l : list A) : In b l -> precedes a b (a :: l).
Proof.
  intros Hin. apply in_split in Hin. destruct Hin as (l2 & l3 & ->).
  exists [], l2, l3. reflexivity.
Qed.

Lemma precedes_inv (a b x : A) (l : list A) :
  precedes a b (x :: l) -> (a = x /\ In b l) \/ precedes a b l.
Proof.
  intros (l1 & l2 & l3 & Heq). destruct l1 as [|z l1]; cbn [app] in Heq.
  - injection Heq as -> ->. left. split; [reflexivity|].
    apply in_or_app. right. left. reflexivity.
  - injection Heq as -> ->. right. exists l1, l2, l3. reflexivity.
Qed.

Lemma insert_sorted_keeps (a b x : A) (l : list A) :
  precedes a b l -> precedes a b (insert_sorted key x l).
Proof.
  revert a b. induction l as [|y t IH]; intros a b H; cbn [insert_sorted].
  - destruct H as (l1 & l2 & l3 & Heq). destruct l1; discriminate.
  - destruct (num_lt (key y) (key x)); [|apply precedes_cons; exact H].
    apply precedes_inv in H. destruct H as [[-> Hin]|H].
    + apply precedes_head.
      apply (Permutation_in _ (insert_sorted_perm x t)). right. exact Hin.
    + apply precedes_cons. apply IH. exact H.
Qed.

Lemma insert_sorted_before (x b : A) (l : list A) :
  In b l -> num_lt (key b) (key x) = false ->
  precedes x b (insert_sorted key x l).
Proof.
  intros Hin Hb. induction l as [|y t IH]; cbn [insert_sorted]; [destruct Hin|].
  destruct (num_lt (key y) (key x)) eqn:Hlt.
  - destruct Hin as [->|Hin]; [congruence|].
    apply precedes_cons. apply IH. exact Hin.
  - apply precedes_head. exact Hin.
Qed.

Lemma stable_sort_stable (a b : A) (l : list A) :
  precedes a b l -> num_lt (key b) (key a) = false ->
  precedes a b (stable_sort key l).
Proof.
  intros H Hb. induction l as [|x t IH]; cbn [stable_sort].
  - destruct H as (l1 & l2 & l3 & Heq). destruct l1; discriminate.
  - apply precedes_inv in H. destruct H as [[-> Hin]|H].
    + apply insert_sorted_before; [|exact Hb].
      apply (Permutation_in _ (stable_sort_perm t)). exact Hin.
    + apply insert_sorted_keeps. apply IH. exact H.
Qed.

Lemma precedes_rev (a b : A) (l : list A) :
  precedes a b l -> precedes b a (rev l).
Proof.
  intros (l1 & l2 & l3 & ->). exists (rev l3), (rev l2), (rev l1).
  rewrite rev_app_distr. cbn [rev]. rewrite rev_app_distr. cbn [rev].
  rewrite <- !app_assoc. reflexivity.
Qed.

(** An element keeps its place before any later element that is not
    greater. *)
Lemma sort_reverse_stable (a b : A) (l : list A) :
  precedes a b l -> num_lt (key a) (key b) = false ->
  precedes a b (sort_reverse key l).
Proof.
  intros H Hab. unfold sort_reverse. apply precedes_rev.
  apply stable_sort_stable; [apply precedes_rev; exact H | exact Hab].
Qed.

End SortFacts.

Section SortMap.

Import QualityScorer.

Context {A B : Type} (f : A -> B) (key : B -> pynum).

Lemma insert_sorted_map (x : A) (l : list A) :
  insert_sorted key (f x) (map f l) =
  map f (insert_sorted (fun a => key (f a)) x l).
Proof.
  induction l as [|y t IH]; cbn [insert_sorted map]; [reflexivity|].
  destruct (num_lt (key (f y)) (key (f x))); cbn [map]; [rewrite IH|]; reflexivity.
Qed.

Lemma stable_sort_map (l : list A) :
  stable_sort key (map f l) = map f (stable_sort (fun a => key (f a)) l).
Proof.
  induction l as [|x t IH]; cbn [stable_sort map]; [reflexivity|].
  rewrite IH. apply insert_sorted_map.
Qed.

Lemma sort_reverse_map (l : list A) :
  sort_reverse key (map f l) = map f (sort_reverse (fun a => key (f a)) l).
Proof.
  unfold sort_reverse. rewrite <- map_rev, stable_sort_map, map_rev. reflexivity.
Qed.

End SortMap.

Section Ranking.

Import Notions QualityScorer.

Lemma score_one_metrics (solution : nat * string) (w w' : World)
    (entry : RankedSolution) :
  score_one solution w = Ok (entry, w') -> metrics entry = fst solution.
Proof.
  destruct solution as [r content]. unfold score_one, bind, deref, store.
  destruct (calculate_score _ _) as [[s w1]|]; [|discriminate].
  destruct (_identify_weaknesses _ _) as [[wk w2]|]; [|discriminate].
  unfold ret. intros H; injection H as <- _. reflexivity.
Qed.

(** The entries come in the order of the batch. *)
Lemma score_all_metrics (solutions : list (nat * string)) :
  forall (w w' : World) (entries : list RankedSolution),
    score_all solutions w = Ok (entries, w') ->
    map metrics entries = map fst solutions.
Proof.
  induction solutions as [|solution rest IH]; intros w w' entries; cbn [score_all].
  - unfold ret. intros H; injection H as <- _. reflexivity.
  - unfold bind.
    destruct (score_one solution w) as [[entry w1]|] eqn:H1; [|discriminate].
    destruct (score_all rest w1) as [[es w2]|] eqn:H2; [|discriminate].
    unfold ret. intros H; injection H as <- _. cbn [map].
    rewrite (score_one_metrics _ _ _ _ H1), (IH _ _ _ H2). reflexivity.
Qed.

End Ranking.

(** C5. For every batch of (metrics, content) pairs that
    [compare_solutions] ranks, the output is a rearrangement of the
    entries computed in input order, it is in descending order of score
    (no entry has a score less than the score of the entry after it,
    nor, when the counts of the records are in their domain, than the
    score of any later entry), and two candidates whose scores are
    equal come in the output in the order they have in the input.
    Candidates are told apart by their position in the input. *)
Theorem ranking_is_a_stable_descending_sort
    (solutions : list (nat * string)) (w w' : World)
    (ranked : list QualityScorer.RankedSolution) :
  QualityScorer.compare_solutions solutions w = Ok (ranked, w') ->
  exists entries,
    QualityScorer.score_all solutions w = Ok (entries, w') /\
    map QualityScorer.metrics entries = map fst solutions /\
    Permutation entries ranked /\
    Sorted (Notions.descending QualityScorer.score) ranked /\
    ((forall r, In r (map fst solutions) -> Notions.counts_in_domain (heap w r)) ->
     StronglySorted (Notions.descending QualityScorer.score) ranked) /\
    exists placed,
      Permutation (combine (seq 0 (List.length entries)) entries) placed /\
      ranked = map snd placed /\
      forall p q,
        Notions.precedes p q (combine (seq 0 (List.length entries)) entries) ->
        num_eq (QualityScorer.score (snd p)) (QualityScorer.score (snd q)) = true ->
        Notions.precedes p q placed.
Proof.
  intros H. unfold QualityScorer.compare_solutions, bind in H.
  destruct (QualityScorer.score_all solutions w) as [[entries w1]|] eqn:Hall;
    [|discriminate].
  unfold ret in H. injection H as <- <-.
  exists entries. split; [reflexivity|].
  split; [exact (score_all_metrics solutions w w1 entries Hall)|].
  split; [apply sort_reverse_perm|].
  split; [apply sort_reverse_sorted|].
  split.
  { intros Hdom.
    apply (sorted_all_along (fun entry => Notions.settled (QualityScorer.score entry)));
      [| |apply sort_reverse_sorted].
    - intros x y z Hx Hy Hz. unfold Notions.descending.
      intros Hxy Hyz.
      destruct (num_lt (QualityScorer.score x) (QualityScorer.score z)) eqn:Hxz;
        [|reflexivity].
      (* z is not below y, y is not below x *)
      rewrite (num_lt_place _ _ Hx Hy) in Hxy.
      rewrite (num_lt_place _ _ Hy Hz) in Hyz.
      rewrite (num_lt_place _ _ Hx Hz) in Hxz.
      rewrite (lex_lt_trans _ _ _ Hxy Hyz) in Hxz. discriminate.
    - pose proof (score_all_settled solutions w w1 entries Hdom Hall) as Hset.
      rewrite Forall_forall in *. intros entry Hin.
      apply Hset.
      apply (Permutation_in _
               (Permutation_sym (sort_reverse_perm QualityScorer.score entries))).
      exact Hin. }
  set (tagged := combine (seq 0 (List.length entries)) entries).
  exists (QualityScorer.sort_reverse
            (fun p => QualityScorer.score (snd p)) tagged).
  split; [apply sort_reverse_perm|].
  split.
  - rewrite <- (sort_reverse_map snd QualityScorer.score tagged).
    f_equal. subst tagged.
    assert (Hmap : forall (l : list QualityScorer.RankedSolution) n,
               map snd (combine (seq n (List.length l)) l) = l).
    { induction l as [|x l IH]; intros n; cbn; [reflexivity|].
      rewrite IH. reflexivity. }
    symmetry. apply Hmap.
  - intros p q Hpq Heq. apply sort_reverse_stable; [exact Hpq|].
    apply num_eq_not_lt. exact Heq.
Qed.

(** The third candidate scores more and comes first; the two others
    tie and keep their order. *)
Lemma ranking_is_a_stable_descending_sort_witness :
  match QualityScorer.compare_solutions Samples.tie_batch Samples.shared_world with
  | Ok (ranked, _) =>
      map QualityScorer.metrics ranked = [0%nat; 1%nat; 2%nat] /\
      StronglySorted (Notions.descending QualityScorer.score) ranked
  | Raise _ => False
  end.
Proof.
  destruct (QualityScorer.compare_solutions Samples.tie_batch Samples.shared_world)
    as [[ranked w']|e] eqn:H.
  - split.
    + vm_compute in H. injection H as <- _. reflexivity.
    + destruct (ranking_is_a_stable_descending_sort _ _ _ _ H)
        as (entries & _ & _ & _ & _ & Hsorted & _).
      apply Hsorted. intros r Hin. cbn in Hin.
      destruct Hin as [<-|[<-|[<-|[]]]]; cbn; unfold Notions.counts_in_domain;
        cbn; lia.
  - vm_compute in H. discriminate H.
Defined.

(* ================================================================= *)
(** * Dates that cannot be used *)

(** A text that [fromisoformat] rejects leaves [post_date] absent, and
    recency then takes its neutral value. *)
Lemma unparseable_date_is_absent
    (fromisoformat : string -> option datetime)
    (solution : SolutionRanker.SolutionDict) (s : string) (w : World) :
  SolutionRanker.d_date solution = Some (SolutionRanker.DateStr s) ->
  fromisoformat s = None ->
  post_date (SolutionRanker._dict_to_metrics fromisoformat solution) = None /\
  QualityScorer._score_recency
    (SolutionRanker._dict_to_metrics fromisoformat solution) w = Ok (50, w).
Proof.
  intros Hd Hp.
  assert (H : post_date (SolutionRanker._dict_to_metrics fromisoformat solution) = None).
  { unfold SolutionRanker._dict_to_metrics. cbn [post_date]. rewrite Hd, Hp. reflexivity. }
  split; [exact H|]. unfold QualityScorer._score_recency. rewrite H. reflexivity.
Qed.

(** With a parser that rejects its date, the sample solution is ranked. *)
Lemma garbled_date_is_ranked :
  exists ranked w',
    SolutionRanker.rank_solutions (fun _ => None) [Samples.garbled_solution]
      Samples.still_world = Ok (ranked, w') /\
    map QualityScorer.trust_level ranked = [Some "Very Low"].
Proof.
  destruct (SolutionRanker.rank_solutions (fun _ => None) [Samples.garbled_solution]
              Samples.still_world) as [[ranked w']|e] eqn:H.
  - exists ranked, w'. split; [reflexivity|].
    vm_compute in H. injection H as <- _. reflexivity.
  - vm_compute in H. discriminate H.
Qed.

(** C9 fails on the code.  A timezone-aware timestamp is a well-formed
    date: [_dict_to_metrics] stores it, and [datetime.now() -
    post_date] in [_score_recency] then raises [TypeError], which
    leaves [calculate_score], [compare_solutions] and [rank_solutions]
    unhandled, whatever the parser and the state of the world. *)
Theorem aware_post_date_raises_type_error
    (fromisoformat : string -> option datetime) (w : World) :
  SolutionRanker.rank_solutions fromisoformat [Samples.aware_solution] w
    = Raise TypeError /\
  QualityScorer.calculate_score
    (SolutionRanker._dict_to_metrics fromisoformat Samples.aware_solution) w
    = Raise TypeError.
Proof.
  split; [|reflexivity].
  unfold SolutionRanker.rank_solutions, SolutionRanker.to_metrics_list, bind,
    alloc, ret, QualityScorer.compare_solutions, QualityScorer.score_all, bind.
  unfold QualityScorer.score_one, bind, deref, store.
  cbn [heap next_ref clock reads]. cbv beta.
  rewrite !Nat.eqb_refl. reflexivity.
Qed.

(* ================================================================= *)
(** * Recommendations and trust levels *)

Section Labels.

Import Rounding FloatFacts Notions QualityScorer SolutionRanker.

(** Comparing a float with a larger integer can only move the answer
    towards [Gt]. *)
Lemma compare_int_float_mono (a b : Z) (f : float) :
  a <= b ->
  match compare_int_float a f, compare_int_float b f with
  | Some ca, Some cb =>
      (cb = Lt -> ca = Lt) /\ (cb = Eq -> ca <> Gt)
  | None, None => True
  | _, _ => False
  end.
Proof.
  intros Hab. destruct f as [s|s| |s m e]; cbn [compare_int_float].
  - destruct (Z.compare_spec a 0), (Z.compare_spec b 0);
      split; intros; try discriminate; try reflexivity; lia.
  - split; intros; try assumption. destruct s; discriminate.
  - exact I.
  - set (v := if s then Zneg m else Zpos m).
    destruct e as [|k|k].
    + destruct (Z.compare_spec a (Z.shiftl v 0)), (Z.compare_spec b (Z.shiftl v 0));
        split; intros; try discriminate; try reflexivity; lia.
    + destruct (Z.compare_spec a (Z.shiftl v (Zpos k))),
               (Z.compare_spec b (Z.shiftl v (Zpos k)));
        split; intros; try discriminate; try reflexivity; lia.
    + rewrite !Z.shiftl_mul_pow2 by lia.
      assert (Hp : 0 < 2 ^ Zpos k) by (apply Z.pow_pos_nonneg; lia).
      assert (Hle : a * 2 ^ Zpos k <= b * 2 ^ Zpos k)
        by (apply Z.mul_le_mono_nonneg_r; lia).
      destruct (Z.compare_spec (a * 2 ^ Zpos k) v),
               (Z.compare_spec (b * 2 ^ Zpos k) v);
        split; intros; try discriminate; try reflexivity; lia.
Qed.

(** A score above an integer is above every smaller one. *)
Lemma num_gt_int_mono (a b : Z) (s : pynum) :
  a <= b -> num_gt s (PyInt b) = true -> num_gt s (PyInt a) = true.
Proof.
  intros Hab. unfold num_gt, num_lt. destruct s as [z|f]; cbn [num_compare].
  - destruct (Z.compare_spec b z); try discriminate. intros _.
    destruct (Z.compare_spec a z); try reflexivity; lia.
  - pose proof (compare_int_float_mono a b f Hab) as H.
    destruct (compare_int_float a f) as [ca|], (compare_int_float b f) as [cb|];
      try contradiction; try discriminate.
    destruct cb; try discriminate. intros _.
    destruct H as [H _]. rewrite (H eq_refl). reflexivity.
Qed.

Lemma num_ge_int_mono (a b : Z) (s : pynum) :
  a <= b -> num_ge s (PyInt b) = true -> num_ge s (PyInt a) = true.
Proof.
  intros Hab. unfold num_ge, num_le. destruct s as [z|f]; cbn [num_compare].
  - destruct (Z.compare_spec b z); try discriminate; intros _;
      destruct (Z.compare_spec a z); try reflexivity; lia.
  - pose proof (compare_int_float_mono a b f Hab) as H.
    destruct (compare_int_float a f) as [ca|], (compare_int_float b f) as [cb|];
      try contradiction; try discriminate.
    destruct H as [H1 H2].
    destruct cb; try discriminate; intros _.
    + destruct ca; try reflexivity. exfalso. apply H2; reflexivity.
    + rewrite (H1 eq_refl). reflexivity.
Qed.

Lemma num_gt_ge (s c : pynum) : num_gt s c = true -> num_ge s c = true.
Proof.
  unfold num_gt, num_ge, num_lt, num_le.
  destruct (num_compare c s) as [[| |]|]; try discriminate; reflexivity.
Qed.

(** Beyond the first rank a solution is an alternative at best. *)
Lemma later_rank_labels (solution : RankedSolution) (rank total : nat) :
  _get_recommendation solution (S rank) total = GoodAlternative \/
  _get_recommendation solution (S rank) total = UseWithCaution \/
  _get_recommendation solution (S rank) total = LastResort.
Proof.
  unfold _get_recommendation. cbn [Nat.eqb andb].
  destruct (num_gt _ (PyInt 70)); [tauto|].
  destruct (num_gt _ (PyInt 50)); tauto.
Qed.

(** At the first rank a solution is never a mere alternative. *)
Lemma first_rank_labels (solution : RankedSolution) (total : nat) :
  _get_recommendation solution 0 total <> GoodAlternative.
Proof.
  unfold _get_recommendation. cbn [Nat.eqb andb].
  destruct (num_gt (score solution) (PyInt 80)) eqn:H80; [discriminate|].
  destruct (num_gt (score solution) (PyInt 60)) eqn:H60; [discriminate|].
  destruct (num_gt (score solution) (PyInt 70)) eqn:H70.
  - rewrite (num_gt_int_mono 60 70 _ ltac:(lia) H70) in H60. discriminate.
  - destruct (num_gt _ (PyInt 50)); discriminate.
Qed.

Lemma label_text_inj (l l' : recommendation_label) :
  label_text l = label_text l' -> l = l'.
Proof. destruct l, l'; cbn; intros H; try reflexivity; discriminate. Qed.

(** What [annotate] leaves at each place of the list. *)
Lemma annotate_nth (ranked : list RankedSolution) :
  forall (i total k : nat) (entry : RankedSolution),
    nth_error (annotate i total ranked) k = Some entry ->
    exists solution,
      nth_error ranked k = Some solution /\
      score entry = score solution /\
      metrics entry = metrics solution /\
      content_preview entry = content_preview solution /\
      strengths entry = strengths solution /\
      weaknesses entry = weaknesses solution /\
      recommendation entry =
        Some (label_text (_get_recommendation solution (i + k) total)) /\
      trust_level entry = Some (_get_trust_level (score solution)).
Proof.
  induction ranked as [|x rest IH]; intros i total k entry; cbn [annotate].
  - destruct k; discriminate.
  - destruct k as [|k]; cbn [nth_error].
    + intros H; injection H as <-. exists x. rewrite Nat.add_0_r.
      cbn. repeat split; reflexivity.
    + intros H. destruct (IH _ _ _ _ H) as (y & Hy & Hrest).
      exists y. split; [exact Hy|]. rewrite Nat.add_succ_r. exact Hrest.
Qed.

Lemma annotate_length (ranked : list RankedSolution) :
  forall i total, List.length (annotate i total ranked) = List.length ranked.
Proof.
  induction ranked as [|x rest IH]; intros i total; cbn [annotate List.length];
    [reflexivity|]. rewrite IH. reflexivity.
Qed.

Lemma annotate_metrics (ranked : list RankedSolution) :
  forall i total, map metrics (annotate i total ranked) = map metrics ranked.
Proof.
  induction ranked as [|x rest IH]; intros i total; cbn [annotate map];
    [reflexivity|]. rewrite IH. reflexivity.
Qed.

Lemma annotate_score (ranked : list RankedSolution) :
  forall i total, map score (annotate i total ranked) = map score ranked.
Proof.
  induction ranked as [|x rest IH]; intros i total; cbn [annotate map];
    [reflexivity|]. rewrite IH. reflexivity.
Qed.

(** The ranked list before its annotation. *)
Lemma rank_solutions_inv (fromisoformat : string -> option datetime)
    (solutions : list SolutionDict) (w w' : World) (ranked : list RankedSolution) :
  rank_solutions fromisoformat solutions w = Ok (ranked, w') ->
  exists metrics_list w1 sorted,
    to_metrics_list fromisoformat solutions w = Ok (metrics_list, w1) /\
    compare_solutions metrics_list w1 = Ok (sorted, w') /\
    ranked = annotate 0 (List.length sorted) sorted.
Proof.
  unfold rank_solutions, bind.
  destruct (to_metrics_list _ _ _) as [[ml w1]|] eqn:H1; [|discriminate].
  destruct (compare_solutions ml w1) as [[sorted w2]|] eqn:H2; [|discriminate].
  unfold ret. intros H; injection H as <- <-.
  exists ml, w1, sorted. repeat split; exact H2.
Qed.

End Labels.

(** X1. In the list that [rank_solutions] returns, the labels
    "Highly Recommended" and "Recommended" go to the first entry only:
    every later entry is a "Good Alternative", "Use with caution" or
    "Last resort", whatever its score; and the first entry is never
    labelled "Good Alternative". *)
Theorem only_the_first_entry_is_recommended
    (fromisoformat : string -> option datetime)
    (solutions : list SolutionRanker.SolutionDict) (w w' : World)
    (ranked : list QualityScorer.RankedSolution) :
  SolutionRanker.rank_solutions fromisoformat solutions w = Ok (ranked, w') ->
  (forall k entry,
      nth_error ranked (S k) = Some entry ->
      exists label,
        QualityScorer.recommendation entry
          = Some (SolutionRanker.label_text label) /\
        (label = SolutionRanker.GoodAlternative \/
         label = SolutionRanker.UseWithCaution \/
         label = SolutionRanker.LastResort) /\
        QualityScorer.recommendation entry
          <> Some (SolutionRanker.label_text SolutionRanker.HighlyRecommended) /\
        QualityScorer.recommendation entry
          <> Some (SolutionRanker.label_text SolutionRanker.Recommended)) /\
  (forall entry,
      nth_error ranked 0 = Some entry ->
      QualityScorer.recommendation entry
        <> Some (SolutionRanker.label_text SolutionRanker.GoodAlternative)).
Proof.
  intros H. destruct (rank_solutions_inv _ _ _ _ _ H) as (ml & w1 & sorted & _ & _ & ->).
  split.
  - intros k entry Hk.
    destruct (annotate_nth _ _ _ _ _ Hk) as (x & _ & _ & _ & _ & _ & _ & Hrec & _).
    cbn [Nat.add] in Hrec.
    exists (SolutionRanker._get_recommendation x (S k) (List.length sorted)).
    split; [exact Hrec|].
    pose proof (later_rank_labels x k (List.length sorted)) as Hl.
    split; [exact Hl|]. rewrite Hrec.
    split; intros Heq; injection Heq as Heq;
      [apply (label_text_inj _ SolutionRanker.HighlyRecommended) in Heq
      |apply (label_text_inj _ SolutionRanker.Recommended) in Heq];
      rewrite Heq in Hl; destruct Hl as [Hl|[Hl|Hl]]; discriminate.
  - intros entry H0.
    destruct (annotate_nth _ _ _ _ _ H0) as (x & _ & _ & _ & _ & _ & _ & Hrec & _).
    cbn [Nat.add] in Hrec. rewrite Hrec. intros Heq. injection Heq as Heq.
    apply (label_text_inj _ SolutionRanker.GoodAlternative) in Heq.
    exact (first_rank_labels _ _ Heq).
Qed.

Lemma only_the_first_entry_is_recommended_witness :
  match SolutionRanker.rank_solutions (fun _ => None) Cases.main_solutions
          Samples.still_world with
  | Ok (ranked, _) =>
      forall k entry,
        nth_error ranked (S k) = Some entry ->
        QualityScorer.recommendation entry
          <> Some (SolutionRanker.label_text SolutionRanker.HighlyRecommended) /\
        QualityScorer.recommendation entry
          <> Some (SolutionRanker.label_text SolutionRanker.Recommended)
  | Raise _ => False
  end.
Proof.
  destruct (SolutionRanker.rank_solutions (fun _ => None) Cases.main_solutions
              Samples.still_world) as [[ranked w']|e] eqn:H.
  - intros k entry Hk.
    destruct (only_the_first_entry_is_recommended _ _ _ _ _ H) as [Hlater _].
    destruct (Hlater k entry Hk) as (label & _ & _ & Hne).
    exact Hne.
  - vm_compute in H. discriminate H.
Defined.

(** X2. The recommendation and the trust level of a solution never
    disagree: "Highly Recommended" comes with the trust level "Very
    High", "Good Alternative" with "High" or "Very High", and any label
    other than "Last resort" with "Moderate" at least; this holds for
    every score, a NaN included, and at every rank. *)
Theorem recommendation_agrees_with_trust_level
    (solution : QualityScorer.RankedSolution) (rank total : nat) :
  (SolutionRanker._get_recommendation solution rank total
     = SolutionRanker.HighlyRecommended ->
   SolutionRanker._get_trust_level (QualityScorer.score solution) = "Very High") /\
  (SolutionRanker._get_recommendation solution rank total
     = SolutionRanker.GoodAlternative ->
   SolutionRanker._get_trust_level (QualityScorer.score solution) = "Very High" \/
   SolutionRanker._get_trust_level (QualityScorer.score solution) = "High") /\
  (SolutionRanker._get_recommendation solution rank total
     <> SolutionRanker.LastResort ->
   SolutionRanker._get_trust_level (QualityScorer.score solution) = "Very High" \/
   SolutionRanker._get_trust_level (QualityScorer.score solution) = "High" \/
   SolutionRanker._get_trust_level (QualityScorer.score solution) = "Moderate").
Proof.
  unfold SolutionRanker._get_recommendation, SolutionRanker._get_trust_level.
  set (s := QualityScorer.score solution).
  destruct (num_gt s (PyInt 80)) eqn:G80.
  { rewrite (num_gt_ge _ _ G80). cbv iota.
    repeat split; intros _; auto. }
  destruct (num_gt s (PyInt 70)) eqn:G70.
  { pose proof (num_ge_int_mono 65 70 s ltac:(lia) (num_gt_ge _ _ G70)) as H65.
    rewrite H65.
    destruct (num_ge s (PyInt 80)), (Nat.eqb rank 0), (num_gt s (PyInt 60));
      cbn [andb]; cbv iota; repeat split; intros H; try discriminate H; auto. }
  destruct (num_gt s (PyInt 60)) eqn:G60.
  { pose proof (num_ge_int_mono 50 60 s ltac:(lia) (num_gt_ge _ _ G60)) as H50.
    rewrite H50.
    destruct (num_ge s (PyInt 80)), (num_ge s (PyInt 65)), (Nat.eqb rank 0),
             (num_gt s (PyInt 50));
      cbn [andb]; cbv iota; repeat split; intros H; try discriminate H; auto. }
  destruct (num_gt s (PyInt 50)) eqn:G50.
  { rewrite (num_gt_ge _ _ G50).
    destruct (num_ge s (PyInt 80)), (num_ge s (PyInt 65)), (Nat.eqb rank 0);
      cbn [andb]; cbv iota; repeat split; intros H; try discriminate H; auto. }
  destruct (Nat.eqb rank 0); cbn [andb]; cbv iota;
    repeat split; intros H; try discriminate H; exfalso; apply H; reflexivity.
Qed.

(* ================================================================= *)
(** * What scoring does to the world *)

Section WorldEffects.

Import Notions QualityScorer SolutionRanker Effects.

Lemma reads_only_trans (n k : nat) (w w1 w2 : World) :
  reads_only n w w1 -> reads_only k w1 w2 -> reads_only (n + k) w w2.
Proof.
  unfold reads_only. intros (Hc & Hr & Hh & Hn) (Hc' & Hr' & Hh' & Hn').
  repeat split; try congruence. rewrite Hr', Hr. apply eq_sym, Nat.add_assoc.
Qed.

Lemma recency_effect (m : SolutionMetrics) (w w' : World) (r : Z) :
  _score_recency m w = Ok (r, w') -> reads_only (dated m) w w'.
Proof.
  unfold _score_recency, dated.
  destruct (post_date m) as [d|].
  - unfold bind, datetime_now, lift, datetime_sub, ret. cbn [utcoffset instant].
    destruct (utcoffset d); [discriminate|].
    intros H; injection H as _ <-. unfold reads_only. cbn.
    repeat split. apply eq_sym, Nat.add_1_r.
  - unfold ret. intros H; injection H as _ <-. unfold reads_only.
    repeat split. apply eq_sym, Nat.add_0_r.
Qed.

Lemma calculate_score_effect (m : SolutionMetrics) (w w' : World) (s : pynum) :
  calculate_score m w = Ok (s, w') -> reads_only (dated m) w w'.
Proof.
  unfold calculate_score, bind, lift.
  destruct (_score_community_validation m) as [c|]; [|discriminate].
  destruct (_score_recency m w) as [[r w1]|] eqn:Hr; [|discriminate].
  apply recency_effect in Hr.
  destruct (weighted_terms _) as [ts|]; [|discriminate].
  unfold ret. intros H; injection H as _ <-. exact Hr.
Qed.

Lemma identify_weaknesses_effect (m : SolutionMetrics) (w w' : World)
    (l : list string) :
  _identify_weaknesses m w = Ok (l, w') -> reads_only (dated m) w w'.
Proof.
  unfold _identify_weaknesses, bind, lift, dated.
  destruct (of_int (upvotes m)) as [up|]; [|discriminate].
  destruct (post_date m) as [d|].
  - unfold datetime_now, datetime_sub, ret. cbn [utcoffset instant].
    destruct (utcoffset d); [discriminate|].
    intros H; injection H as _ <-. unfold reads_only. cbn.
    repeat split. apply eq_sym, Nat.add_1_r.
  - unfold ret. intros H; injection H as _ <-. unfold reads_only.
    repeat split. apply eq_sym, Nat.add_0_r.
Qed.

(** One pair, step by step: the record is overwritten by its backfill,
    then scored, then its weaknesses are listed. *)
Lemma score_one_inv (r : nat) (content : string) (w w' : World)
    (entry : RankedSolution) :
  score_one (r, content) w = Ok (entry, w') ->
  exists w0 w1,
    store r (backfill (heap w r) (analyze_content content)) w = Ok (tt, w0) /\
    calculate_score (backfill (heap w r) (analyze_content content)) w0
      = Ok (score entry, w1) /\
    _identify_weaknesses (backfill (heap w r) (analyze_content content)) w1
      = Ok (weaknesses entry, w') /\
    strengths entry
      = _identify_strengths (backfill (heap w r) (analyze_content content)) /\
    metrics entry = r /\
    content_preview entry
      = (if PyStr.len content >? 200
         then (PyStr.take 200 content ++ "...")%string else content) /\
    recommendation entry = None /\ trust_level entry = None.
Proof.
  unfold score_one, bind, deref. cbn [heap].
  set (m' := backfill (heap w r) (analyze_content content)).
  destruct (store r m' w) as [[[] w0]|] eqn:Hst; [|discriminate].
  assert (Hm : heap w0 r = m').
  { unfold store in Hst. injection Hst as <-. cbn [heap].
    rewrite Nat.eqb_refl. reflexivity. }
  rewrite Hm.
  destruct (calculate_score m' w0) as [[s w1]|] eqn:Hs; [|discriminate].
  destruct (_identify_weaknesses m' w1) as [[wk w2]|] eqn:Hw; [|discriminate].
  unfold ret. intros H; injection H as <- <-. cbn.
  exists w0, w1. repeat split; assumption.
Qed.

Lemma score_one_effect (r : nat) (content : string) (w w' : World)
    (entry : RankedSolution) :
  score_one (r, content) w = Ok (entry, w') ->
  clock w' = clock w /\
  reads w' = (reads w + 2 * dated (heap w r))%nat /\
  next_ref w' = next_ref w.
Proof.
  intros H. destruct (score_one_inv _ _ _ _ _ H) as (w0 & w1 & Hst & Hs & Hw & _).
  apply calculate_score_effect in Hs. apply identify_weaknesses_effect in Hw.
  unfold store in Hst. injection Hst as <-.
  destruct Hs as (Hc1 & Hr1 & _ & Hn1), Hw as (Hc2 & Hr2 & _ & Hn2).
  cbn in Hc1, Hr1, Hn1. unfold dated in *. cbn [backfill post_date] in *.
  repeat split; try congruence. rewrite Hr2, Hr1. lia.
Qed.

Lemma score_all_effect (solutions : list (nat * string)) :
  forall (w w' : World) (entries : list RankedSolution),
    score_all solutions w = Ok (entries, w') ->
    clock w' = clock w /\
    reads w' = (reads w + 2 * dated_pairs w solutions)%nat /\
    next_ref w' = next_ref w /\
    List.length entries = List.length solutions.
Proof.
  induction solutions as [|[r0 c0] rest IH]; intros w w' entries; cbn [score_all].
  - unfold ret. intros H; injection H as <- <-. cbn. repeat split. lia.
  - unfold bind.
    destruct (score_one (r0, c0) w) as [[entry w1]|] eqn:H1; [|discriminate].
    destruct (score_all rest w1) as [[es w2]|] eqn:H2; [|discriminate].
    unfold ret. intros H; injection H as <- <-.
    destruct (score_one_effect _ _ _ _ _ H1) as (Hc1 & Hr1 & Hn1).
    destruct (IH _ _ _ H2) as (Hc2 & Hr2 & Hn2 & Hl2).
    assert (Hd : dated_pairs w1 rest = dated_pairs w rest).
    { unfold dated_pairs. f_equal. apply filter_ext. intros [r c]. cbn [fst].
      rewrite (score_one_heap _ _ _ _ _ H1 r).
      destruct (Nat.eqb r r0) eqn:E; [|reflexivity].
      apply Nat.eqb_eq in E. subst r0. reflexivity. }
    repeat split; try congruence.
    + rewrite Hr2, Hr1, Hd. unfold dated_pairs, dated. cbn [filter fst].
      destruct (post_date (heap w r0)); cbn [List.length]; lia.
    + cbn [List.length]. rewrite Hl2. reflexivity.
Qed.

(** Every entry is the scoring of one pair of the batch, on a world
    whose record differs from the one supplied by the content fields
    at most. *)
Lemma score_all_entries (solutions : list (nat * string)) :
  forall (w w' : World) (entries : list RankedSolution),
    score_all solutions w = Ok (entries, w') ->
    Forall (fun entry =>
              exists content wa wb,
                In (metrics entry, content) solutions /\
                same_outside_content (heap w (metrics entry))
                                     (heap wa (metrics entry)) /\
                score_one (metrics entry, content) wa = Ok (entry, wb))
           entries.
Proof.
  induction solutions as [|[r0 c0] rest IH]; intros w w' entries; cbn [score_all].
  - unfold ret. intros H; injection H as <- _. constructor.
  - unfold bind.
    destruct (score_one (r0, c0) w) as [[entry w1]|] eqn:H1; [|discriminate].
    destruct (score_all rest w1) as [[es w2]|] eqn:H2; [|discriminate].
    unfold ret. intros H; injection H as <- _.
    constructor.
    + pose proof (score_one_metrics _ _ _ _ H1) as Hm. cbn [fst] in Hm.
      exists c0, w, w1. rewrite Hm. repeat split.
      * left. reflexivity.
      * exact H1.
    + specialize (IH _ _ _ H2). rewrite Forall_forall in *.
      intros e He. destruct (IH e He) as (c & wa & wb & Hin & Hsame & Hone).
      exists c, wa, wb. split; [right; exact Hin|]. split; [|exact Hone].
      rewrite (score_one_heap _ _ _ _ _ H1 (metrics e)) in Hsame.
      destruct (Nat.eqb (metrics e) r0) eqn:E; [|exact Hsame].
      apply Nat.eqb_eq in E. rewrite E in *.
      unfold same_outside_content in *. cbn [backfill author_reputation
        author_post_count author_badges upvotes downvotes reply_count view_count
        confirmed_working contradicted is_solved dev_response mod_endorsed
        post_date last_updated game_version platform] in Hsame. exact Hsame.
Qed.

Lemma last_content_notin (r : nat) (solutions : list (nat * string)) :
  ~ In r (map fst solutions) -> last_content r solutions = None.
Proof.
  intros H. destruct (last_content r solutions) as [c|] eqn:E; [|reflexivity].
  exfalso. apply H. apply last_content_in in E.
  apply (in_map fst) in E. exact E.
Qed.

Lemma last_content_nodup (solutions : list (nat * string)) :
  NoDup (map fst solutions) ->
  forall r c, In (r, c) solutions -> last_content r solutions = Some c.
Proof.
  induction solutions as [|[r0 c0] rest IH]; intros Hnd r c; cbn [In]; [tauto|].
  cbn [map fst] in Hnd. inversion Hnd as [|? ? Hnotin Hnd']; subst.
  cbn [last_content]. intros [Heq|Hin].
  - injection Heq as -> ->. rewrite (last_content_notin _ _ Hnotin).
    rewrite Nat.eqb_refl. reflexivity.
  - rewrite (IH Hnd' _ _ Hin). reflexivity.
Qed.

(** The conversion of the dictionaries: one new record each, at
    successive addresses, and nothing else changes. *)
Lemma to_metrics_list_spec (fromisoformat : string -> option datetime)
    (solutions : list SolutionDict) :
  forall w, exists w',
    to_metrics_list fromisoformat solutions w =
      Ok (combine (seq (next_ref w) (List.length solutions))
                  (map content_of solutions), w') /\
    clock w' = clock w /\ reads w' = reads w /\
    next_ref w' = (next_ref w + List.length solutions)%nat /\
    (forall r, (r < next_ref w)%nat -> heap w' r = heap w r) /\
    (forall k solution,
        nth_error solutions k = Some solution ->
        heap w' (next_ref w + k) = _dict_to_metrics fromisoformat solution).
Proof.
  induction solutions as [|s rest IH]; intros w; cbn [to_metrics_list].
  - exists w. unfold ret. cbn. repeat split; auto.
    intros k solution Hk. destruct k; discriminate.
  - unfold bind, alloc.
    set (w1 := {| clock := clock w; reads := reads w;
                  heap := fun r' => if Nat.eqb r' (next_ref w)
                                    then _dict_to_metrics fromisoformat s
                                    else heap w r';
                  next_ref := S (next_ref w) |}).
    destruct (IH w1) as (w' & Heq & Hc & Hr & Hn & Hold & Hnew).
    exists w'. rewrite Heq. unfold ret. cbn [List.length seq map combine].
    cbn [next_ref clock reads heap w1] in *.
    repeat split; try assumption.
    + rewrite Hn. lia.
    + intros r Hlt. rewrite Hold by lia.
      destruct (Nat.eqb r (next_ref w)) eqn:E; [|reflexivity].
      apply Nat.eqb_eq in E. lia.
    + intros k solution Hk. destruct k as [|k]; cbn [nth_error] in Hk.
      * injection Hk as <-. rewrite Nat.add_0_r. rewrite Hold by lia.
        rewrite Nat.eqb_refl. reflexivity.
      * rewrite <- (Hnew k solution Hk). f_equal. lia.
Qed.

Lemma combine_fst_seq {B : Type} (l : list B) (a : nat) :
  map fst (combine (seq a (List.length l)) l) = seq a (List.length l).
Proof.
  revert a. induction l as [|x t IH]; intros a; cbn; [reflexivity|].
  rewrite IH. reflexivity.
Qed.

Lemma combine_seq_nth {B : Type} (l : list B) :
  forall (a r : nat) (c : B),
    In (r, c) (combine (seq a (List.length l)) l) ->
    exists k, r = (a + k)%nat /\ nth_error l k = Some c.
Proof.
  induction l as [|x t IH]; intros a r c; cbn; [tauto|].
  intros [H|H].
  - injection H as <- <-. exists 0%nat. split; [lia|reflexivity].
  - destruct (IH _ _ _ H) as (k & -> & Hk). exists (S k). split; [lia|exact Hk].
Qed.

Lemma combine_seq_in {B : Type} (l : list B) :
  forall (a k : nat) (c : B),
    nth_error l k = Some c -> In ((a + k)%nat, c) (combine (seq a (List.length l)) l).
Proof.
  induction l as [|x t IH]; intros a k c; destruct k as [|k]; cbn;
    try discriminate.
  - intros H; injection H as <-. left. f_equal. lia.
  - intros H. right. replace (a + S k)%nat with (S a + k)%nat by lia.
    apply IH. exact H.
Qed.

(** The whole of [rank_solutions], step by step. *)
Lemma rank_solutions_steps (fromisoformat : string -> option datetime)
    (solutions : list SolutionDict) (w w' : World) (ranked : list RankedSolution) :
  rank_solutions fromisoformat solutions w = Ok (ranked, w') ->
  exists w1 entries,
    to_metrics_list fromisoformat solutions w =
      Ok (combine (seq (next_ref w) (List.length solutions))
                  (map content_of solutions), w1) /\
    clock w1 = clock w /\ reads w1 = reads w /\
    next_ref w1 = (next_ref w + List.length solutions)%nat /\
    (forall r, (r < next_ref w)%nat -> heap w1 r = heap w r) /\
    (forall k solution,
        nth_error solutions k = Some solution ->
        heap w1 (next_ref w + k) = _dict_to_metrics fromisoformat solution) /\
    score_all (combine (seq (next_ref w) (List.length solutions))
                       (map content_of solutions)) w1 = Ok (entries, w') /\
    ranked = annotate 0 (List.length entries) (sort_reverse score entries).
Proof.
  intros H. destruct (rank_solutions_inv _ _ _ _ _ H) as (ml & w1 & sorted & H1 & H2 & ->).
  destruct (to_metrics_list_spec fromisoformat solutions w)
    as (w1' & Heq & Hc & Hr & Hn & Hold & Hnew).
  rewrite Heq in H1. injection H1 as <- <-.
  unfold compare_solutions, bind in H2.
  destruct (score_all _ w1') as [[entries w2]|] eqn:Hall; [|discriminate].
  unfold ret in H2. injection H2 as <- <-.
  exists w1', entries. repeat split; try assumption.
  f_equal. apply eq_sym, Permutation_length, sort_reverse_perm.
Qed.

End WorldEffects.

(* ================================================================= *)
(** * The records that [rank_solutions] works on *)

Section OwnRecords.

Import Notions QualityScorer SolutionRanker Effects.

Lemma backfill_same (m m' : SolutionMetrics) (a : ContentAnalysis) :
  same_outside_content m m' -> backfill m a = backfill m' a.
Proof.
  unfold same_outside_content. destruct m, m'. cbn.
  intros (? & ? & ? & ? & ? & ? & ? & ? & ? & ? & ? & ? & ? & ? & ? & ?).
  subst. reflexivity.
Qed.

Lemma nth_error_content (solutions : list SolutionDict) (k : nat) (c : string) :
  nth_error (map content_of solutions) k = Some c ->
  exists solution, nth_error solutions k = Some solution /\ c = content_of solution.
Proof.
  rewrite nth_error_map. destruct (nth_error solutions k) as [s|]; [|discriminate].
  cbn. intros H; injection H as <-. exists s. split; reflexivity.
Qed.

Lemma batch_addresses (solutions : list SolutionDict) (a : nat) :
  map fst (combine (seq a (List.length solutions)) (map content_of solutions))
  = seq a (List.length solutions).
Proof.
  rewrite <- (length_map content_of solutions). apply combine_fst_seq.
Qed.

(** The record of the [k]-th dictionary after the ranking. *)
Lemma rank_solutions_heap (fromisoformat : string -> option datetime)
    (solutions : list SolutionDict) (w w' : World) (ranked : list RankedSolution) :
  rank_solutions fromisoformat solutions w = Ok (ranked, w') ->
  (forall r, (r < next_ref w)%nat -> heap w' r = heap w r) /\
  (forall k solution,
      nth_error solutions k = Some solution ->
      heap w' (next_ref w + k) =
      backfill (_dict_to_metrics fromisoformat solution)
               (analyze_content (content_of solution))).
Proof.
  intros H.
  destruct (rank_solutions_steps _ _ _ _ _ H)
    as (w1 & entries & _ & _ & _ & _ & Hold & Hnew & Hall & _).
  pose proof (score_all_heap _ _ _ _ Hall) as Hheap.
  split.
  - intros r Hlt. rewrite Hheap, last_content_notin; [apply Hold; exact Hlt|].
    rewrite batch_addresses, in_seq. lia.
  - intros k solution Hk. rewrite Hheap.
    assert (Hlc : last_content (next_ref w + k)
                    (combine (seq (next_ref w) (List.length solutions))
                             (map content_of solutions))
                  = Some (content_of solution)).
    { apply last_content_nodup.
      - rewrite batch_addresses. apply seq_NoDup.
      - rewrite <- (length_map content_of solutions). apply combine_seq_in.
        rewrite nth_error_map, Hk. reflexivity. }
    rewrite Hlc, (Hnew _ _ Hk). reflexivity.
Qed.

(** Every entry of the ranked list is the scoring of the backfilled
    record of one dictionary. *)
Lemma rank_solutions_entry (fromisoformat : string -> option datetime)
    (solutions : list SolutionDict) (w w' : World) (ranked : list RankedSolution) :
  rank_solutions fromisoformat solutions w = Ok (ranked, w') ->
  Forall (fun entry =>
            exists k solution w0 w1 w2,
              nth_error solutions k = Some solution /\
              metrics entry = (next_ref w + k)%nat /\
              heap w' (metrics entry) =
                backfill (_dict_to_metrics fromisoformat solution)
                         (analyze_content (content_of solution)) /\
              calculate_score (heap w' (metrics entry)) w0 = Ok (score entry, w1) /\
              _identify_weaknesses (heap w' (metrics entry)) w1
                = Ok (weaknesses entry, w2) /\
              strengths entry = _identify_strengths (heap w' (metrics entry)) /\
              trust_level entry = Some (_get_trust_level (score entry)) /\
              exists label, recommendation entry = Some (label_text label))
         ranked.
Proof.
  intros H.
  destruct (rank_solutions_heap _ _ _ _ _ H) as [_ Hfinal].
  destruct (rank_solutions_steps _ _ _ _ _ H)
    as (w1 & entries & _ & _ & _ & _ & Hold & Hnew & Hall & ->).
  pose proof (score_all_entries _ _ _ _ Hall) as Hentries.
  rewrite Forall_forall in *. intros entry Hin.
  apply In_nth_error in Hin. destruct Hin as [i Hi].
  destruct (annotate_nth _ _ _ _ _ Hi)
    as (x & Hx & Hscore & Hmetrics & _ & Hst & Hwk & Hrec & Htrust).
  apply nth_error_In in Hx.
  apply (Permutation_in _ (Permutation_sym (sort_reverse_perm score entries))) in Hx.
  destruct (Hentries x Hx) as (c & wa & wb & Hpair & Hsame & Hone).
  rewrite <- (length_map content_of solutions) in Hpair.
  destruct (combine_seq_nth _ _ _ _ Hpair) as (k & Hk & Hc).
  destruct (nth_error_content _ _ _ Hc) as (solution & Hsol & ->).
  destruct (score_one_inv _ _ _ _ _ Hone)
    as (w0 & w1' & _ & Hcalc & Hweak & Hstr & _).
  rewrite <- (backfill_same _ _ _ Hsame) in Hcalc, Hweak, Hstr.
  rewrite Hk, (Hnew _ _ Hsol) in Hcalc, Hweak, Hstr.
  exists k, solution, w0, w1', wb.
  rewrite Hmetrics, Hk, (Hfinal _ _ Hsol), Hscore, Hwk, Hst.
  repeat split; try assumption. eexists. exact Hrec.
Qed.

End OwnRecords.

(** X3. [rank_solutions] works on records of its own: it creates one
    record per dictionary, at fresh addresses, and the ranked list
    refers to each of them once; when it returns, the record of a
    dictionary is its conversion with the five content fields taken
    from the analysis of its text, every record that existed before is
    unchanged, the list is as long as the input, and every entry has
    its recommendation and its trust level. *)
Theorem rank_solutions_works_on_records_of_its_own
    (fromisoformat : string -> option datetime)
    (solutions : list SolutionRanker.SolutionDict) (w w' : World)
    (ranked : list QualityScorer.RankedSolution) :
  SolutionRanker.rank_solutions fromisoformat solutions w = Ok (ranked, w') ->
  List.length ranked = List.length solutions /\
  Permutation (map QualityScorer.metrics ranked)
              (seq (next_ref w) (List.length solutions)) /\
  next_ref w' = (next_ref w + List.length solutions)%nat /\
  (forall r, (r < next_ref w)%nat -> heap w' r = heap w r) /\
  (forall k solution,
      nth_error solutions k = Some solution ->
      heap w' (next_ref w + k) =
      QualityScorer.backfill
        (SolutionRanker._dict_to_metrics fromisoformat solution)
        (QualityScorer.analyze_content (Effects.content_of solution))) /\
  Forall (fun entry => QualityScorer.recommendation entry <> None /\
                       QualityScorer.trust_level entry <> None) ranked.
Proof.
  intros H.
  destruct (rank_solutions_heap _ _ _ _ _ H) as [Hold Hfinal].
  pose proof (rank_solutions_entry _ _ _ _ _ H) as Hentry.
  destruct (rank_solutions_steps _ _ _ _ _ H)
    as (w1 & entries & _ & _ & _ & Hn1 & _ & _ & Hall & ->).
  destruct (score_all_effect _ _ _ _ Hall) as (_ & _ & Hn & Hlen).
  assert (Hlen' : List.length entries = List.length solutions).
  { rewrite Hlen, length_combine, length_seq, length_map. apply Nat.min_id. }
  repeat split.
  - rewrite annotate_length, <- Hlen'.
    apply eq_sym, Permutation_length, sort_reverse_perm.
  - rewrite annotate_metrics.
    rewrite <- (batch_addresses solutions (next_ref w)).
    rewrite <- (score_all_metrics _ _ _ _ Hall).
    apply Permutation_map, Permutation_sym, sort_reverse_perm.
  - rewrite Hn. exact Hn1.
  - exact Hold.
  - exact Hfinal.
  - rewrite Forall_forall in *. intros entry Hin.
    destruct (Hentry entry Hin)
      as (k & s & w0 & w1' & w2 & _ & _ & _ & _ & _ & _ & Ht & label & Hl).
    rewrite Ht, Hl. split; discriminate.
Qed.

(** The three solutions of [main()] get the addresses 0, 1 and 2. *)
Lemma rank_solutions_works_on_records_of_its_own_witness :
  match SolutionRanker.rank_solutions (fun _ => None) Cases.main_solutions
          Samples.still_world with
  | Ok (ranked, w') =>
      List.length ranked = 3%nat /\
      Permutation (map QualityScorer.metrics ranked) [0%nat; 1%nat; 2%nat] /\
      next_ref w' = 3%nat
  | Raise _ => False
  end.
Proof.
  destruct (SolutionRanker.rank_solutions (fun _ => None) Cases.main_solutions
              Samples.still_world) as [[ranked w']|e] eqn:H.
  - destruct (rank_solutions_works_on_records_of_its_own _ _ _ _ _ H)
      as (Hl & Hp & Hn & _).
    split; [exact Hl|]. split; [exact Hp|exact Hn].
  - vm_compute in H. discriminate H.
Defined.

Section Unreached.

Import Notions QualityScorer SolutionRanker Effects ScoreFacts.



End Unreached.



(* ================================================================= *)
(** * When scoring returns and when it raises *)

Section Conversion.

Import Rounding FloatFacts NonNegative.

Lemma digits2_iter_xO (p k : positive) :
  Zpos (digits2_pos (Pos.iter xO p k)) = Zpos (digits2_pos p) + Zpos k.
Proof.
  induction k as [|k IH] using Pos.peano_ind.
  - cbn [Pos.iter digits2_pos]. lia.
  - rewrite Pos.iter_succ. cbn [digits2_pos]. lia.
Qed.

Lemma assemble_finite_below (sx : bool) (m' e1 : Z) :
  0 <= m' -> e1 <= 970 -> is_finite (assemble sx m' e1) = true.
Proof.
  intros Hm He. unfold assemble.
  destruct (m' =? two53).
  - replace (e1 + 1 <=? 971) with true by (symmetry; apply Z.leb_le; lia).
    reflexivity.
  - destruct m' as [|p|p]; [reflexivity| |lia].
    replace (e1 <=? 971) with true by (symmetry; apply Z.leb_le; lia).
    reflexivity.
Qed.

(** An integer below [2^1023] in absolute value rounds to a finite
    binary64. *)
Lemma binary_round_finite (sx : bool) (p : positive) :
  Zpos p < 2 ^ 1023 -> is_finite (binary_round prec emax sx p 0) = true.
Proof.
  intros Hp. unfold binary_round.
  assert (Hd : 0 < Zpos (digits2_pos p) <= 1023).
  { split; [lia|]. change (Zpos (digits2_pos p)) with (Zdigits2 (Zpos p)).
    apply Zdigits2_le; lia. }
  rewrite Z.add_0_r, fexp_eq.
  assert (Hal : exists mz ez,
             shl_align p 0 (Z.max (Zpos (digits2_pos p) - 53) (-1074)) = (mz, ez) /\
             ez <= 0 /\ Zdigits2 (Zpos mz) + ez = Zpos (digits2_pos p)).
  { unfold shl_align. rewrite Z.sub_0_r.
    destruct (Z.max (Zpos (digits2_pos p) - 53) (-1074)) as [|k|k] eqn:Hk.
    - exists p, 0. repeat split; try lia; cbn [Zdigits2]; lia.
    - exists p, 0. repeat split; try lia; cbn [Zdigits2]; lia.
    - exists (Pos.iter xO p k), (Zneg k). repeat split; try lia;
      cbn [Zdigits2]; rewrite digits2_iter_xO; lia. }
  destruct Hal as (mz & ez & -> & Hez & Hdig).
  destruct (binary_round_aux_spec sx (Zpos mz) ez (Zpos mz) 1 loc_Exact
              ltac:(lia) eq_refl (Rep_exact (Zpos mz)))
    as (r1 & _ & Hm1 & ->).
  apply assemble_finite_below.
  - destruct (loc_of_shr_record r1) as [|[| |]]; cbn [round_nearest_even];
      try destruct (Z.even (shr_m r1)); lia.
  - rewrite Hdig, fexp_eq. lia.
Qed.

Lemma of_int_total (z : Z) :
  Z.abs z < 2 ^ 1023 -> exists x, of_int z = Ok x /\ is_finite x = true.
Proof.
  intros Hz. unfold of_int. destruct z as [|p|p]; cbn [binary_normalize].
  - exists (S754_zero false). split; reflexivity.
  - pose proof (binary_round_finite false p ltac:(lia)) as Hf.
    destruct (binary_round prec emax false p 0) as [s|s| |s m e] eqn:E;
      try discriminate Hf; eexists; split; reflexivity.
  - pose proof (binary_round_finite true p ltac:(lia)) as Hf.
    destruct (binary_round prec emax true p 0) as [s|s| |s m e] eqn:E;
      try discriminate Hf; eexists; split; reflexivity.
Qed.

End Conversion.

Section Returns.

Import Notions QualityScorer SolutionRanker Effects Domain ScoreFacts.

Lemma scorable_backfill (m : SolutionMetrics) (a : ContentAnalysis) :
  scorable m -> scorable (backfill m a).
Proof. intros H. exact H. Qed.


Lemma calculate_score_total (m : SolutionMetrics) (w : World) :
  scorable m ->
  exists s w', calculate_score m w = Ok (s, w') /\ in_range s.
Proof.
  intros [(Hd & Hc & _) Hdate].
  destruct (recency_total m w Hdate) as (r & w1 & Hr).
  destruct (calculate_score_clamped m w w1 r Hd Hc Hr) as (t & Hnn & _ & Heq).
  exists (clamp t), w1. split; [exact Heq|].
  apply clamp_in_range, NonNegative.nonneg_not_nan, Hnn.
Qed.

Lemma identify_weaknesses_total (m : SolutionMetrics) (w : World) :
  scorable m -> exists wk w', _identify_weaknesses m w = Ok (wk, w').
Proof.
  intros [(_ & _ & Hu) Hdate].
  destruct (of_int_total _ Hu) as (up & Hup & _).
  unfold _identify_weaknesses, bind, lift. rewrite Hup.
  unfold naive_or_absent in Hdate.
  destruct (post_date m) as [d|].
  - unfold datetime_now, datetime_sub, ret. cbn [utcoffset instant].
    rewrite Hdate. eauto.
  - unfold ret. eauto.
Qed.

Lemma score_one_total (r : nat) (content : string) (w : World) :
  scorable (heap w r) ->
  exists entry w', score_one (r, content) w = Ok (entry, w') /\
                   in_range (score entry).
Proof.
  intros Hs. unfold score_one, bind, deref, store. cbn [heap].
  rewrite Nat.eqb_refl.
  pose proof (scorable_backfill _ (analyze_content content) Hs) as Hb.
  match goal with
  | |- context [calculate_score ?m ?w0] =>
      destruct (calculate_score_total m w0 Hb) as (s & w1 & -> & Hrange)
  end.
  match goal with
  | |- context [_identify_weaknesses ?m ?w1] =>
      destruct (identify_weaknesses_total m w1 Hb) as (wk & w2 & ->)
  end.
  unfold ret. eexists. eexists. split; [reflexivity|]. exact Hrange.
Qed.

Lemma score_all_total (solutions : list (nat * string)) :
  forall w,
    (forall r, In r (map fst solutions) -> scorable (heap w r)) ->
    exists entries w',
      score_all solutions w = Ok (entries, w') /\
      Forall (fun entry => in_range (score entry)) entries.
Proof.
  induction solutions as [|[r0 c0] rest IH]; intros w Hall; cbn [score_all].
  - unfold ret. eexists. eexists. split; [reflexivity|constructor].
  - unfold bind.
    destruct (score_one_total r0 c0 w) as (entry & w1 & H1 & Hrange).
    { apply Hall. left. reflexivity. }
    rewrite H1.
    destruct (IH w1) as (entries & w2 & H2 & Hranges).
    { intros r Hin. rewrite (score_one_heap _ _ _ _ _ H1 r).
      destruct (Nat.eqb r r0).
      - apply scorable_backfill. apply Hall. left. reflexivity.
      - apply Hall. right. exact Hin. }
    rewrite H2. unfold ret. eexists. eexists. split; [reflexivity|].
    constructor; assumption.
Qed.





(** The records of a batch made by [rank_solutions]. *)
Lemma converted_records (fromisoformat : string -> option datetime)
    (solutions : list SolutionDict) (w w1 : World) (P : SolutionMetrics -> Prop) :
  (forall k solution,
      nth_error solutions k = Some solution ->
      heap w1 (next_ref w + k) = _dict_to_metrics fromisoformat solution) ->
  (forall solution, In solution solutions ->
                    P (_dict_to_metrics fromisoformat solution)) ->
  forall r,
    In r (map fst (combine (seq (next_ref w) (List.length solutions))
                           (map content_of solutions))) ->
    P (heap w1 r).
Proof.
  intros Hnew HP r Hin. rewrite batch_addresses, in_seq in Hin.
  destruct (nth_error solutions (r - next_ref w)) as [s|] eqn:Hs.
  - replace r with (next_ref w + (r - next_ref w))%nat by lia.
    rewrite (Hnew _ _ Hs). apply HP. apply (nth_error_In _ _ Hs).
  - apply nth_error_None in Hs. lia.
Qed.

End Returns.



(** X6. [rank_solutions] returns a ranked list whenever every
    dictionary converts to a record with non-negative [downvotes], a
    number of upvotes below [2^1023] in absolute value, and a date that
    is missing, rejected by [fromisoformat], or naive. *)
Theorem rank_solutions_returns_on_naive_dates
    (fromisoformat : string -> option datetime)
    (solutions : list SolutionRanker.SolutionDict) (w : World) :
  (forall solution,
      In solution solutions ->
      Domain.scorable (SolutionRanker._dict_to_metrics fromisoformat solution)) ->
  exists ranked w',
    SolutionRanker.rank_solutions fromisoformat solutions w = Ok (ranked, w') /\
    Forall (fun entry => Notions.in_range (QualityScorer.score entry)) ranked.
Proof.
  intros Hall.
  destruct (to_metrics_list_spec fromisoformat solutions w)
    as (w1 & Heq & _ & _ & _ & _ & Hnew).
  destruct (score_all_total _ w1
              (converted_records fromisoformat solutions w w1 _ Hnew Hall))
    as (entries & w' & Hs & Hranges).
  unfold SolutionRanker.rank_solutions, bind. rewrite Heq.
  unfold QualityScorer.compare_solutions, bind. rewrite Hs. unfold ret.
  eexists. eexists. split; [reflexivity|].
  rewrite Forall_forall in *. intros entry Hin.
  apply In_nth_error in Hin. destruct Hin as [i Hi].
  destruct (annotate_nth _ _ _ _ _ Hi) as (x & Hx & Hscore & _).
  rewrite Hscore. apply Hranges. apply nth_error_In in Hx.
  apply (Permutation_in _ (Permutation_sym
                             (sort_reverse_perm QualityScorer.score entries))).
  exact Hx.
Qed.

Lemma rank_solutions_returns_on_naive_dates_witness :
  exists ranked w',
    SolutionRanker.rank_solutions (fun _ => None) Cases.main_solutions
      Samples.still_world = Ok (ranked, w') /\
    Forall (fun entry => Notions.in_range (QualityScorer.score entry)) ranked.
Proof.
  apply (rank_solutions_returns_on_naive_dates
           (fun _ => None) Cases.main_solutions Samples.still_world).
  intros solution Hin. cbn in Hin.
  destruct Hin as [<-|[<-|[<-|[]]]];
    (split; [split; [|split]; cbn; lia | reflexivity]).
Defined.



(* ================================================================= *)
(** * Scores against thresholds *)

Section Thresholds.

Import Rounding FloatFacts NonNegative Notions ScoreFacts QualityScorer Levels.

(** An integer that is a binary64 with a full mantissa compares with
    a float as that binary64 does. *)
Lemma compare_int_float_normal (c : Z) (mc : positive) (ec : Z)
    (m : positive) (e : Z) :
  -1074 <= ec < 0 -> c * 2 ^ (- ec) = Zpos mc ->
  Zpos two52 <= Zpos mc < two53 -> well_formed m e ->
  compare_int_float c (S754_finite false m e) =
  SFcompare (S754_finite false mc ec) (S754_finite false m e).
Proof.
  intros Hec Hc Hmc Hwf. unfold two52, two53 in *.
  assert (Hm53 : Zpos m < 9007199254740992)
    by (destruct Hwf as [[? _]|[? _]]; unfold two52, two53 in *; lia).
  assert (Hnormal : -1074 < e -> 4503599627370496 <= Zpos m)
    by (intros ?; destruct Hwf as [[? _]|[_ ?]]; unfold two52 in *; lia).
  assert (He : -1074 <= e) by (destruct Hwf as [[_ ?]|[_ ?]]; lia).
  assert (Hcpos : 0 < c).
  { assert (0 < 2 ^ (- ec)) by (apply pow2_pos; lia). nia. }
  cbn [SFcompare]. rewrite Pos.compare_cont_spec.
  replace (Pos.switch_Eq Eq (Pos.compare mc m)) with (Z.compare (Zpos mc) (Zpos m))
    by (cbn [Z.compare]; destruct (Pos.compare mc m); reflexivity).
  unfold compare_int_float.
  destruct (Z.compare_spec ec e) as [Hee|Hee|Hee].
  - subst e. destruct ec as [|k|k]; try lia.
    rewrite Z.shiftl_mul_pow2 by lia.
    change (- Zneg k) with (Zpos k) in Hc. rewrite Hc. reflexivity.
  - (* the float has the larger exponent *)
    assert (Hlt : forall j, 0 <= j -> - ec = j + 1 + (- ec - j - 1) ->
                            0 <= - ec - j - 1 -> c * 2 ^ j < 4503599627370496).
    { intros j Hj Hsplit Hrest.
      rewrite Hsplit in Hc. rewrite !Z.pow_add_r in Hc by lia.
      assert (0 < 2 ^ j) by (apply pow2_pos; lia).
      assert (0 < 2 ^ (- ec - j - 1)) by (apply pow2_pos; lia).
      change (2 ^ 1) with 2 in Hc. nia. }
    destruct e as [|k|k].
    + rewrite Z.shiftl_mul_pow2 by lia. change (2 ^ 0) with 1. rewrite Z.mul_1_r.
      specialize (Hlt 0 ltac:(lia) ltac:(lia) ltac:(lia)).
      change (2 ^ 0) with 1 in Hlt. specialize (Hnormal ltac:(lia)).
      f_equal. apply Z.compare_lt_iff. lia.
    + rewrite Z.shiftl_mul_pow2 by lia.
      specialize (Hlt 0 ltac:(lia) ltac:(lia) ltac:(lia)).
      change (2 ^ 0) with 1 in Hlt. specialize (Hnormal ltac:(lia)).
      assert (1 <= 2 ^ Zpos k) by (pose proof (pow2_pos (Zpos k)); lia).
      f_equal. apply Z.compare_lt_iff. nia.
    + rewrite Z.shiftl_mul_pow2 by lia.
      specialize (Hlt (Zpos k) ltac:(lia) ltac:(lia) ltac:(lia)).
      specialize (Hnormal ltac:(lia)).
      f_equal. apply Z.compare_lt_iff. lia.
  - (* the float has the smaller exponent *)
    destruct e as [|k|k]; try lia.
    rewrite Z.shiftl_mul_pow2 by lia.
    assert (Hsplit : Zpos k = - ec + (Zpos k + ec)) by lia.
    rewrite Hsplit, Z.pow_add_r, Z.mul_assoc, Hc by lia.
    assert (2 <= 2 ^ (Zpos k + ec)).
    { change 2 with (2 ^ 1) at 1. apply Z.pow_le_mono_r; lia. }
    f_equal. apply Z.compare_gt_iff. nia.
Qed.

(** Among the stored floats [<] is the order of the places. *)
Lemma stored_lt_place (a b : float) :
  stored a -> stored b ->
  num_lt (PyFlt a) (PyFlt b) = lex_lt (place (PyFlt a)) (place (PyFlt b)).
Proof.
  intros Ha Hb.
  destruct a as [sa|[|]| |[|] m e]; cbn [stored] in Ha; try contradiction;
    destruct b as [sb|[|]| |[|] m' e']; cbn [stored] in Hb; try contradiction.
  - reflexivity.
  - unfold num_lt, lex_lt, place. cbn [num_compare fcompare SFcompare fst snd].
    symmetry. apply orb_true_iff. left. apply Z.ltb_lt.
    destruct Hb as [[[_ ?]|[_ ?]] _]; lia.
  - unfold num_lt, lex_lt, place. cbn [num_compare fcompare SFcompare fst snd].
    symmetry. rewrite orb_false_iff, andb_false_iff, Z.ltb_ge, Z.eqb_neq.
    destruct Ha as [[[_ ?]|[_ ?]] _]; lia.
  - unfold num_lt, lex_lt, place. cbn [num_compare fst snd].
    unfold fcompare, SFcompare. rewrite Pos.compare_cont_spec.
    change (Pos.compare m m') with (Z.compare (Zpos m) (Zpos m')).
    destruct (Z.compare_spec e e') as [Hee|Hee|Hee].
    + subst e'. rewrite Z.ltb_irrefl, Z.eqb_refl. cbn [orb andb Pos.switch_Eq].
      destruct (Z.compare_spec (Zpos m) (Zpos m')); symmetry;
        [apply Z.ltb_ge | apply Z.ltb_lt | apply Z.ltb_ge]; lia.
    + symmetry. apply orb_true_iff. left. apply Z.ltb_lt. assumption.
    + symmetry. rewrite orb_false_iff, andb_false_iff, Z.ltb_ge, Z.eqb_neq. lia.
Qed.

(** A settled float is a stored one. *)
Lemma settled_stored (t : float) : settled (PyFlt t) -> stored t.
Proof.
  intros H. destruct (settled_float t H) as [[s ->]|(m & e & -> & Hwf & He & _)].
  - exact I.
  - split; [exact Hwf|lia].
Qed.

(** A score is never a NaN once it is settled. *)
Lemma settled_compare_int (x : pynum) (c : Z) :
  settled x -> exists o, num_compare (PyInt c) x = Some o.
Proof.
  destruct x as [z|t]; cbn [num_compare]; [eauto|].
  intros [Hreg _]. apply compare_int_float_some.
  apply nonneg_not_nan, regular_nonneg, Hreg.
Qed.

Lemma num_ge_not_lt (x : pynum) (c : Z) :
  settled x -> num_ge x (PyInt c) = negb (num_lt x (PyInt c)).
Proof.
  intros Hx. unfold num_ge, num_le, num_lt.
  rewrite (num_compare_antisym (PyInt c) x).
  destruct (settled_compare_int x c Hx) as [o ->]. destruct o; reflexivity.
Qed.

(** The threshold [c], as an integer and as the binary64 that equals
    it, divides the settled scores in the same way. *)
Lemma threshold_as_float (c : Z) (mc : positive) (ec : Z) (x : pynum) :
  -1074 <= ec <= -46 -> c * 2 ^ (- ec) = Zpos mc ->
  Zpos two52 <= Zpos mc < two53 -> settled x ->
  num_lt x (PyInt c) = num_lt x (PyFlt (S754_finite false mc ec)).
Proof.
  intros Hec Hc Hmc Hx. unfold num_lt.
  rewrite (num_compare_antisym (PyInt c) x).
  rewrite (num_compare_antisym (PyFlt (S754_finite false mc ec)) x).
  enough (Heq : num_compare (PyInt c) x
                = num_compare (PyFlt (S754_finite false mc ec)) x)
    by (rewrite Heq; reflexivity).
  destruct x as [z|t].
  - cbn [settled] in Hx. subst z. cbn [num_compare option_map].
    unfold compare_int_float. destruct ec as [|k|k]; try lia.
    rewrite Z.shiftl_mul_pow2 by lia. change (- Zneg k) with (Zpos k) in Hc.
    rewrite <- Hc. f_equal.
    assert (Hp : 0 < 2 ^ Zpos k) by (apply pow2_pos; lia).
    destruct (Z.compare_spec c 100), (Z.compare_spec (100 * 2 ^ Zpos k) (c * 2 ^ Zpos k));
      try reflexivity; nia.
  - destruct (settled_float t Hx) as [[s ->]|(m & e & -> & Hwf & He & _)].
    + cbn [num_compare compare_int_float fcompare SFcompare].
      assert (0 < c) by (assert (0 < 2 ^ (- ec)) by (apply pow2_pos; lia); nia).
      f_equal. apply Z.compare_gt_iff. lia.
    + cbn [num_compare fcompare].
      apply compare_int_float_normal; try assumption. lia.
Qed.

(** A score that is not less than another one passes every threshold
    that the other one passes. *)
Lemma passes_threshold (c : Z) (mc : positive) (ec : Z) (x y : pynum) :
  -1074 <= ec <= -46 -> c * 2 ^ (- ec) = Zpos mc ->
  Zpos two52 <= Zpos mc < two53 ->
  (ec = -46 -> Zpos mc <= 7036874417766400) ->
  settled x -> settled y -> num_lt x y = false ->
  num_ge y (PyInt c) = true -> num_ge x (PyInt c) = true.
Proof.
  intros Hec Hc Hmc Htop Hx Hy Hxy.
  assert (Hf : settled (PyFlt (S754_finite false mc ec))).
  { split.
    - cbn [regular]. left. split; [exact Hmc|lia].
    - unfold num_lt. cbn [num_compare compare_int_float].
      destruct ec as [|k|k]; try lia.
      rewrite Z.shiftl_mul_pow2 by lia.
      destruct (Z.compare_spec (100 * 2 ^ Zpos k) (Zpos mc)) as [| Hlt |];
        try reflexivity.
      exfalso.
      destruct (Z.eq_dec (Zpos k) 46) as [E|E].
      + rewrite E in Hlt. change (100 * 2 ^ 46) with 7036874417766400 in Hlt.
        assert (Zneg k = -46) by lia. specialize (Htop H). lia.
      + assert (2 ^ 47 <= 2 ^ Zpos k) by (apply Z.pow_le_mono_r; lia).
        change (2 ^ 47) with 140737488355328 in H. unfold two53 in Hmc. lia. }
  rewrite !num_ge_not_lt by assumption.
  rewrite !(threshold_as_float c mc ec) by assumption.
  rewrite !negb_true_iff. intros Hyc.
  exact (not_less_trans _ _ _ Hx Hy Hf Hxy Hyc).
Qed.

(** The trust level does not rise when the score does not. *)
Lemma trust_level_mono (x y : pynum) :
  settled x -> settled y -> num_lt x y = false ->
  trust_rank (SolutionRanker._get_trust_level y)
  <= trust_rank (SolutionRanker._get_trust_level x).
Proof.
  intros Hx Hy Hxy.
  pose proof (passes_threshold 80 5629499534213120 (-46) x y
                ltac:(lia) eq_refl ltac:(unfold two52, two53; lia)
                ltac:(lia) Hx Hy Hxy) as H80.
  pose proof (passes_threshold 65 4573968371548160 (-46) x y
                ltac:(lia) eq_refl ltac:(unfold two52, two53; lia)
                ltac:(lia) Hx Hy Hxy) as H65.
  pose proof (passes_threshold 50 7036874417766400 (-47) x y
                ltac:(lia) eq_refl ltac:(unfold two52, two53; lia)
                ltac:(lia) Hx Hy Hxy) as H50.
  pose proof (passes_threshold 35 4925812092436480 (-47) x y
                ltac:(lia) eq_refl ltac:(unfold two52, two53; lia)
                ltac:(lia) Hx Hy Hxy) as H35.
  unfold SolutionRanker._get_trust_level.
  destruct (num_ge y (PyInt 80)); [rewrite (H80 eq_refl); reflexivity|].
  destruct (num_ge y (PyInt 65)).
  { rewrite (H65 eq_refl). destruct (num_ge x (PyInt 80)); cbv; discriminate. }
  destruct (num_ge y (PyInt 50)).
  { rewrite (H50 eq_refl).
    destruct (num_ge x (PyInt 80)), (num_ge x (PyInt 65)); cbv; discriminate. }
  destruct (num_ge y (PyInt 35)).
  { rewrite (H35 eq_refl).
    destruct (num_ge x (PyInt 80)), (num_ge x (PyInt 65)), (num_ge x (PyInt 50));
      cbv; discriminate. }
  destruct (num_ge x (PyInt 80)), (num_ge x (PyInt 65)), (num_ge x (PyInt 50)),
           (num_ge x (PyInt 35)); cbv; discriminate.
Qed.

End Thresholds.

Section TrustOrder.

Import Notions QualityScorer SolutionRanker Effects Levels.

Lemma annotate_in (ranked : list RankedSolution) (i total : nat)
    (entry : RankedSolution) :
  In entry (annotate i total ranked) ->
  exists solution,
    In solution ranked /\ score entry = score solution /\
    trust_level entry = Some (_get_trust_level (score solution)).
Proof.
  intros Hin. apply In_nth_error in Hin. destruct Hin as [k Hk].
  destruct (annotate_nth _ _ _ _ _ Hk) as (x & Hx & Hs & _ & _ & _ & _ & _ & Ht).
  exists x. split; [exact (nth_error_In _ _ Hx)|]. split; assumption.
Qed.

(** The annotation keeps the order of the scores, and the trust levels
    follow it. *)
Lemma annotate_sorted (ranked : list RankedSolution) :
  forall i total,
    StronglySorted (descending score) ranked ->
    Forall (fun entry => settled (score entry)) ranked ->
    StronglySorted (descending score) (annotate i total ranked) /\
    StronglySorted (fun a b => entry_trust b <= entry_trust a)
                   (annotate i total ranked).
Proof.
  induction ranked as [|x rest IH]; intros i total Hsorted Hsettled;
    cbn [annotate]; [split; constructor|].
  inversion Hsorted as [|? ? Hrest Hx]; subst.
  inversion Hsettled as [|? ? Sx Srest]; subst.
  destruct (IH (S i) total Hrest Srest) as [IH1 IH2].
  rewrite Forall_forall in Hx, Srest.
  split; (constructor; [assumption|]); rewrite Forall_forall; intros b Hb;
    destruct (annotate_in _ _ _ _ Hb) as (y & Hy & Hs & Ht).
  - unfold descending. cbn [score]. rewrite Hs. exact (Hx y Hy).
  - unfold entry_trust. cbn [trust_level]. rewrite Ht.
    apply trust_level_mono; [exact Sx|exact (Srest y Hy)|exact (Hx y Hy)].
Qed.

End TrustOrder.

(** X8. Down the list that [rank_solutions] returns neither the score
    nor the trust level ever rises: with non-negative downvotes, no
    entry has a score less than the score of a later entry, and its
    trust level ("Very High", "High", "Moderate", "Low", "Very Low") is
    at least that of every later entry. *)
Theorem trust_levels_never_rise_down_the_ranking
    (fromisoformat : string -> option datetime)
    (solutions : list SolutionRanker.SolutionDict) (w w' : World)
    (ranked : list QualityScorer.RankedSolution) :
  (forall solution,
      In solution solutions ->
      0 <= downvotes (SolutionRanker._dict_to_metrics fromisoformat solution)) ->
  SolutionRanker.rank_solutions fromisoformat solutions w = Ok (ranked, w') ->
  StronglySorted (Notions.descending QualityScorer.score) ranked /\
  StronglySorted (fun a b => Levels.entry_trust b <= Levels.entry_trust a) ranked.
Proof.
  intros Hdown H.
  destruct (rank_solutions_steps _ _ _ _ _ H)
    as (w1 & entries & _ & _ & _ & _ & _ & Hnew & Hall & ->).
  assert (Hsettled : Forall (fun entry => Notions.settled (QualityScorer.score entry))
                            entries).
  { apply (score_all_settled _ _ _ _) with (2 := Hall).
    apply (converted_records fromisoformat solutions w w1
             Notions.counts_in_domain Hnew).
    intros s Hs. split; [apply Hdown; exact Hs|]. cbn. lia. }
  pose proof (sort_reverse_perm QualityScorer.score entries) as Hperm.
  pose proof (Permutation_Forall Hperm Hsettled) as Hsettled'.
  apply annotate_sorted; [|exact Hsettled'].
  apply (sorted_all_along
           (fun entry => Notions.settled (QualityScorer.score entry))).
  - intros x y z Hx Hy Hz. unfold Notions.descending. apply not_less_trans;
      assumption.
  - exact Hsettled'.
  - apply sort_reverse_sorted.
Qed.

Lemma trust_levels_never_rise_down_the_ranking_witness :
  match SolutionRanker.rank_solutions (fun _ => None) Cases.main_solutions
          Samples.still_world with
  | Ok (ranked, _) =>
      map QualityScorer.trust_level ranked
        = [Some "Low"; Some "Low"; Some "Very Low"] /\
      StronglySorted (fun a b => Levels.entry_trust b <= Levels.entry_trust a)
                     ranked
  | Raise _ => False
  end.
Proof.
  destruct (SolutionRanker.rank_solutions (fun _ => None) Cases.main_solutions
              Samples.still_world) as [[ranked w']|e] eqn:H.
  - split.
    + vm_compute in H. injection H as <- _. reflexivity.
    + apply (trust_levels_never_rise_down_the_ranking _ _ _ _ _) with (2 := H).
      intros solution Hin. cbn in Hin.
      destruct Hin as [<-|[<-|[<-|[]]]]; cbn; lia.
  - vm_compute in H. discriminate H.
Defined.

(* ================================================================= *)
(** * The penalty lowers the score *)

Section Penalty.

Import Rounding FloatFacts NonNegative Notions ScoreFacts QualityScorer Levels.

Lemma assemble_exponent (sx s : bool) (m' e1 : Z) (m : positive) (e : Z) :
  assemble sx m' e1 = S754_finite s m e -> e <= 971.
Proof.
  unfold assemble. destruct (m' =? two53).
  - destruct (Z.leb_spec (e1 + 1) 971) as [Hle|]; [|discriminate].
    intros Heq; injection Heq as _ _ <-. exact Hle.
  - destruct m' as [|p|p]; try discriminate.
    destruct (Z.leb_spec e1 971) as [Hle|]; [|discriminate].
    intros Heq; injection Heq as _ _ <-. exact Hle.
Qed.

(** A product of a non-negative float by a constant with a full
    mantissa is stored, unless it overflows. *)
Lemma fmul_stored (x : float) (mc : positive) (ec : Z) :
  nonneg x = true -> Zpos two52 <= Zpos mc < two53 ->
  stored (fmul x (S754_finite false mc ec)) \/
  fmul x (S754_finite false mc ec) = S754_infinity false.
Proof.
  intros Hx Hmc. pose proof (fmul_regular x mc ec Hx Hmc) as Hreg.
  destruct x as [s|[|]| |[|] mx ex]; cbn [nonneg] in Hx; try discriminate.
  - left. exact I.
  - right. reflexivity.
  - revert Hreg. unfold fmul, SFmul. cbn [xorb].
    destruct (binary_round_aux_spec false (Zpos (mx * mc)) (ex + ec)
                (Zpos (mx * mc)) 1 loc_Exact ltac:(lia) eq_refl (Rep_exact _))
      as (r1 & _ & _ & Heq).
    destruct (binary_round_aux prec emax false (Zpos (mx * mc)) (ex + ec) loc_Exact)
      as [s|[|]| |[|] m e] eqn:E; cbn [regular stored]; try contradiction;
      intros Hreg; auto.
    left. split; [exact Hreg|]. symmetry in Heq. exact (assemble_exponent _ _ _ _ _ _ Heq).
Qed.

(** A product by a constant below 1 is not above what is multiplied. *)
Lemma fmul_shrinks (t : float) (mc : positive) :
  stored t -> Zpos two52 <= Zpos mc < two53 ->
  stored (fmul t (S754_finite false mc (-53))) /\
  lex_lt (place (PyFlt t)) (place (PyFlt (fmul t (S754_finite false mc (-53)))))
  = false.
Proof.
  intros Ht Hmc.
  assert (Hnn : nonneg t = true)
    by (destruct t as [s|[|]| |[|] m e]; cbn in Ht |- *; tauto).
  pose proof (fmul_regular t mc (-53) Hnn Hmc) as Hreg.
  destruct t as [s|[|]| |[|] m e]; cbn [stored] in Ht; try contradiction.
  - split; [exact I|reflexivity].
  - destruct Ht as [Hwf He].
    revert Hreg. unfold fmul, SFmul. cbn [xorb].
    set (q := Zpos (m * mc)). set (e0 := e + -53).
    destruct (binary_round_aux_spec false q e0 q 1 loc_Exact
                ltac:(subst q; lia) eq_refl (Rep_exact q))
      as (r1 & HR1 & Hm1 & ->).
    rewrite fexp_eq in *.
    set (e1 := Z.max e0 (Z.max (Zdigits2 q + e0 - 53) (-1074))) in *.
    set (m' := round_nearest_even (shr_m r1) (loc_of_shr_record r1)).
    assert (Hm53 : Zpos m < two53)
      by (destruct Hwf as [[? _]|[? _]]; unfold two52, two53 in *; lia).
    assert (Hnormal : -1074 < e -> Zpos two52 <= Zpos m)
      by (intros ?; destruct Hwf as [[? _]|[_ ?]]; lia).
    assert (Hlow : -1074 <= e) by (destruct Hwf as [[_ ?]|[_ ?]]; lia).
    assert (Hq : 0 < q < 2 ^ 106).
    { subst q. rewrite Pos2Z.inj_mul. split; [lia|].
      change (2 ^ 106) with (two53 * two53). unfold two53 in *. nia. }
    assert (Hdq : Zdigits2 q <= 106) by (apply Zdigits2_le; lia).
    assert (He1 : e0 <= e1 <= e) by (subst e1 e0; lia).
    assert (He1' : -1074 <= e1) by (subst e1; lia).
    assert (Hm' : 0 <= m' <= two53).
    { subst m'. destruct (loc_of_shr_record r1) as [|[| |]]; cbn [round_nearest_even];
        try destruct (Z.even (shr_m r1)); lia. }
    assert (Hsame : e1 = e -> m' <= Zpos m).
    { intros Hee.
      assert (HD : 0 < 2 ^ (e1 - e0) * 1)
        by (pose proof (pow2_pos (e1 - e0) ltac:(lia)); lia).
      pose proof (round_nearest_even_above q _ (Zpos m) r1 HD HR1) as Hab.
      fold m' in Hab.
      replace (e1 - e0) with 53 in Hab by (subst e0; lia).
      change (2 ^ 53 * 1) with two53 in Hab.
      assert (Hfalse : above (Zpos m) q two53 = false).
      { unfold above. subst q. rewrite Pos2Z.inj_mul. unfold two53 in *.
        destruct (Z.even (Zpos m)); [apply Z.ltb_ge|apply Z.leb_gt]; nia. }
      rewrite Hfalse in Hab. apply Z.ltb_ge in Hab. exact Hab. }
    unfold assemble.
    destruct (Z.eqb_spec m' two53) as [Hc|Hc].
    + assert (Hlt : e1 < e).
      { destruct (Z.eq_dec e1 e) as [Hee|]; [|lia].
        specialize (Hsame Hee). lia. }
      replace (e1 + 1 <=? 971) with true by (symmetry; apply Z.leb_le; lia).
      cbn [regular stored place]. intros Hwf'. split; [split; [exact Hwf'|lia]|].
      unfold lex_lt. cbn [fst snd].
      rewrite orb_false_iff, andb_false_iff, !Z.ltb_ge, Z.eqb_neq.
      split; [lia|]. specialize (Hnormal ltac:(lia)). right. lia.
    + destruct m' as [|p|p] eqn:Hp; [| |lia].
      * intros _. split; [exact I|].
        unfold lex_lt, place. cbn [fst snd].
        rewrite orb_false_iff, andb_false_iff, !Z.ltb_ge, Z.eqb_neq. lia.
      * replace (e1 <=? 971) with true by (symmetry; apply Z.leb_le; lia).
        cbn [regular stored place]. intros Hwf'. split; [split; [exact Hwf'|lia]|].
        unfold lex_lt. cbn [fst snd].
        rewrite orb_false_iff, andb_false_iff, !Z.ltb_ge, Z.eqb_neq.
        split; [lia|]. destruct (Z.eq_dec e1 e) as [Hee|]; [|left; lia].
        right. specialize (Hsame Hee). lia.
Qed.

(** The total before the penalty, once recency is known. *)
Lemma pre_penalty_total_stored (m : SolutionMetrics) (w w1 : World) (r : Z) :
  0 <= downvotes m -> 0 <= confirmed_working m ->
  _score_recency m w = Ok (r, w1) ->
  exists t, pre_penalty_total m w = Ok (t, w1) /\
            (stored t \/ t = S754_infinity false).
Proof.
  intros Hd Hc Hr.
  destruct (community_validation_total m Hd Hc) as (c & Hcv & Hcr).
  pose proof (recency_range m w w1 r Hr) as Hrr.
  destruct (weighted_terms_total _ (score_table_range m c r Hcr Hrr))
    as (ts & Hts & Hnn).
  unfold bind, pre_penalty_total, lift, ret. rewrite Hcv. unfold bind.
  rewrite Hr, Hts.
  destruct (platform_trust_finite (PyStr.lower (platform m)))
    as (mp & ep & -> & Hmp).
  eexists. split; [reflexivity|].
  apply fmul_stored; [apply py_sum_nonneg; exact Hnn|exact Hmp].
Qed.

Lemma stored_regular (t : float) : stored t -> regular t.
Proof. destruct t as [s|[|]| |[|] m e]; cbn; tauto. Qed.

(** The clamp of a stored total, by its place. *)
Lemma clamp_stored (t : float) :
  stored t ->
  clamp t = if lex_lt (-46, 7036874417766400) (place (PyFlt t))
            then PyInt 100 else PyFlt t.
Proof.
  intros Ht. unfold clamp, py_max, num_gt.
  rewrite (regular_not_below_zero t (stored_regular t Ht)).
  unfold py_min.
  replace (num_lt (PyInt 100) (PyFlt t))
    with (lex_lt (-46, 7036874417766400) (place (PyFlt t))); [reflexivity|].
  change (-46, 7036874417766400)
    with (place (PyFlt (S754_finite false 7036874417766400 (-46)))).
  rewrite <- stored_lt_place;
    [| split; [left; unfold two52, two53; lia | lia] | exact Ht].
  unfold num_lt. cbn [num_compare fcompare].
  destruct t as [s|[|]| |[|] m e]; cbn [stored] in Ht; try contradiction.
  - reflexivity.
  - rewrite (compare_int_float_normal 100 7036874417766400 (-46) m e);
      [reflexivity | lia | reflexivity | unfold two52, two53; lia | tauto].
Qed.

(** The clamp keeps the order of the stored totals. *)
Lemma clamp_mono (t r : float) :
  stored t -> stored r ->
  lex_lt (place (PyFlt t)) (place (PyFlt r)) = false ->
  num_le (clamp r) (clamp t) = true.
Proof.
  intros Ht Hr Hle. rewrite (clamp_stored t Ht), (clamp_stored r Hr).
  set (p100 := (-46, 7036874417766400)) in *.
  destruct (lex_lt p100 (place (PyFlt r))) eqn:Hr100.
  - assert (Ht100 : lex_lt p100 (place (PyFlt t)) = true).
    { destruct (lex_lt p100 (place (PyFlt t))) eqn:E; [reflexivity|].
      rewrite (lex_lt_trans _ _ _ E Hle) in Hr100. discriminate. }
    rewrite Ht100. reflexivity.
  - assert (Hlt100 : num_lt (PyInt 100) (PyFlt r) = false).
    { pose proof (clamp_stored r Hr) as Hcl. fold p100 in Hcl.
      rewrite Hr100 in Hcl. unfold clamp, py_max, num_gt in Hcl.
      rewrite (regular_not_below_zero r (stored_regular r Hr)) in Hcl.
      unfold py_min in Hcl.
      destruct (num_lt (PyInt 100) (PyFlt r)); [discriminate|reflexivity]. }
    assert (Hnan : is_nan r = false)
      by (apply nonneg_not_nan, regular_nonneg, stored_regular, Hr).
    destruct (lex_lt p100 (place (PyFlt t))) eqn:Ht100.
    + unfold num_le. rewrite (num_compare_antisym (PyInt 100) (PyFlt r)).
      unfold num_lt in Hlt100.
      destruct (compare_int_float_some 100 r Hnan) as [o Ho].
      cbn [num_compare] in Hlt100 |- *. rewrite Ho in *.
      destruct o; try reflexivity. discriminate.
    + pose proof (stored_lt_place t r Ht Hr) as Htr. rewrite Hle in Htr.
      unfold num_le. rewrite (num_compare_antisym (PyFlt t) (PyFlt r)).
      unfold num_lt in Htr.
      assert (Hsome : exists o, num_compare (PyFlt t) (PyFlt r) = Some o).
      { cbn [num_compare fcompare].
        destruct t as [s|[|]| |[|] m e]; cbn [stored] in Ht; try contradiction;
          destruct r as [s'|[|]| |[|] m' e']; cbn [stored] in Hr;
            try contradiction; unfold fcompare; cbn [SFcompare]; eauto. }
      destruct Hsome as [o Ho]. rewrite Ho in *.
      destruct o; try reflexivity. discriminate.
Qed.

End Penalty.

(** X9. The contradiction penalty never raises a score: for every record
    with non-negative [downvotes] and [confirmed_working] and a date
    that is absent or naive, the score with [contradicted = true] is
    less than or equal to the score of the same record with
    [contradicted = false], the same clock reading being used;
    roundings and the clamp included. *)
Theorem contradiction_never_raises_the_score (m : SolutionMetrics) (w : World) :
  0 <= downvotes m -> 0 <= confirmed_working m ->
  Notions.naive_or_absent (post_date m) ->
  exists s0 s1 w',
    QualityScorer.calculate_score (Notions.with_contradicted m false) w
      = Ok (s0, w') /\
    QualityScorer.calculate_score (Notions.with_contradicted m true) w
      = Ok (s1, w') /\
    num_le s1 s0 = true.
Proof.
  intros Hd Hc Hdate.
  destruct (ScoreFacts.recency_total m w Hdate) as (r & w1 & Hr).
  destruct (pre_penalty_total_stored m w w1 r Hd Hc Hr) as (t & Ht & Hst).
  rewrite !ScoreFacts.calculate_score_eq. unfold bind.
  rewrite !pre_penalty_total_ignores_contradicted, Ht.
  cbn [Notions.with_contradicted contradicted]. unfold ret.
  eexists. eexists. eexists. split; [reflexivity|]. split; [reflexivity|].
  change (decimal 8 1) with (S754_finite false 7205759403792794 (-53)).
  destruct Hst as [Hst| ->].
  - destruct (fmul_shrinks t 7205759403792794 Hst
                ltac:(unfold Rounding.two52, Rounding.two53; lia)) as [Hst' Hle].
    apply clamp_mono; assumption.
  - reflexivity.
Qed.

Lemma contradiction_never_raises_the_score_witness :
  exists s0 s1 w',
    QualityScorer.calculate_score
      (Notions.with_contradicted Samples.steam_best_contradicted false)
      Samples.still_world = Ok (s0, w') /\
    QualityScorer.calculate_score
      (Notions.with_contradicted Samples.steam_best_contradicted true)
      Samples.still_world = Ok (s1, w') /\
    num_le s1 s0 = true.
Proof.
  apply (contradiction_never_raises_the_score
           Samples.steam_best_contradicted Samples.still_world).
  - cbn. lia.
  - cbn. lia.
  - reflexivity.
Defined.

(* ================================================================= *)
(** * The ladders of the factor scores *)

Section Ladders.

Import Notions QualityScorer ScoreFacts.

Lemma sum_Z_app (l l' : list Z) : sum_Z (l ++ l') = sum_Z l + sum_Z l'.
Proof.
  unfold sum_Z. induction l as [|x l IH]; cbn [app fold_right]; [lia|].
  rewrite IH. lia.
Qed.

Lemma sum_Z_perm (l l' : list Z) : Permutation l l' -> sum_Z l = sum_Z l'.
Proof.
  unfold sum_Z. induction 1; cbn [fold_right]; lia.
Qed.

Lemma first_match_points_nonneg (b : string) : 0 <= first_match_points b.
Proof.
  pose proof (badge_loop_ge badge_scores b 0 badge_scores_nonneg) as H.
  rewrite badge_loop_first_match in H. unfold first_match_points. lia.
Qed.

Lemma badge_points_nonneg (badges : list string) :
  0 <= sum_Z (map (fun badge => first_match_points (PyStr.lower badge)) badges).
Proof.
  unfold sum_Z. induction badges as [|b badges IH]; cbn [map fold_right]; [lia|].
  pose proof (first_match_points_nonneg (PyStr.lower b)). lia.
Qed.

(** Author credibility, ladder by ladder. *)
Lemma author_credibility_sum (m : SolutionMetrics) :
  _score_author_credibility m =
  Z.min (reputation_points (author_reputation m)
         + post_count_points (author_post_count m)
         + sum_Z (map (fun badge => first_match_points (PyStr.lower badge))
                      (author_badges m)))
        100.
Proof.
  unfold _score_author_credibility. rewrite badges_fold_sum.
  unfold reputation_points, post_count_points.
  destruct (author_reputation m >? 10000), (author_reputation m >? 5000),
           (author_reputation m >? 1000), (author_reputation m >? 500),
           (author_reputation m >? 100),
           (author_post_count m >? 1000), (author_post_count m >? 500),
           (author_post_count m >? 100), (author_post_count m >? 50);
    reflexivity.
Qed.

Lemma reputation_points_mono (a b : Z) :
  a <= b -> reputation_points a <= reputation_points b.
Proof.
  intros H. unfold reputation_points.
  destruct (Z.gtb_spec a 10000), (Z.gtb_spec b 10000),
           (Z.gtb_spec a 5000), (Z.gtb_spec b 5000),
           (Z.gtb_spec a 1000), (Z.gtb_spec b 1000),
           (Z.gtb_spec a 500), (Z.gtb_spec b 500),
           (Z.gtb_spec a 100), (Z.gtb_spec b 100); lia.
Qed.

Lemma post_count_points_mono (a b : Z) :
  a <= b -> post_count_points a <= post_count_points b.
Proof.
  intros H. unfold post_count_points.
  destruct (Z.gtb_spec a 1000), (Z.gtb_spec b 1000),
           (Z.gtb_spec a 500), (Z.gtb_spec b 500),
           (Z.gtb_spec a 100), (Z.gtb_spec b 100),
           (Z.gtb_spec a 50), (Z.gtb_spec b 50); lia.
Qed.

End Ladders.

(** X10. Author credibility does not depend on the order of the badges
    and never falls when credentials are added: if a second record has
    at least the reputation and the post count of a first one, and its
    badges are those of the first one with more badges added, in any
    order, its author-credibility score is at least that of the
    first. *)
Theorem more_credentials_never_lower_credibility
    (m m' : SolutionMetrics) (added : list string) :
  author_reputation m <= author_reputation m' ->
  author_post_count m <= author_post_count m' ->
  Permutation (author_badges m ++ added)%list (author_badges m') ->
  QualityScorer._score_author_credibility m
  <= QualityScorer._score_author_credibility m'.
Proof.
  intros Hrep Hposts Hperm. rewrite !author_credibility_sum.
  pose proof (reputation_points_mono _ _ Hrep).
  pose proof (post_count_points_mono _ _ Hposts).
  pose proof (sum_Z_perm _ _
                (Permutation_map
                   (fun badge => Notions.first_match_points (PyStr.lower badge))
                   Hperm)) as Hsum.
  rewrite map_app, sum_Z_app in Hsum.
  pose proof (badge_points_nonneg added). lia.
Qed.

Lemma more_credentials_never_lower_credibility_witness :
  QualityScorer._score_author_credibility Samples.reddit_metrics
  <= QualityScorer._score_author_credibility Cases.seasoned.
Proof.
  apply (more_credentials_never_lower_credibility
           Samples.reddit_metrics Cases.seasoned ["Developer"]).
  - cbn. lia.
  - cbn. lia.
  - cbn. apply perm_swap.
Defined.

Section Engagement.

Import Notions QualityScorer.

Lemma replies_ladder_mono (a b : Z) :
  a <= b ->
  (if a >? 20 then 15 else if a >? 10 then 10 else if a >? 5 then 5 else 0)
  <= (if b >? 20 then 15 else if b >? 10 then 10 else if b >? 5 then 5 else 0).
Proof.
  intros H.
  destruct (Z.gtb_spec a 20), (Z.gtb_spec b 20), (Z.gtb_spec a 10),
           (Z.gtb_spec b 10), (Z.gtb_spec a 5), (Z.gtb_spec b 5); lia.
Qed.

Lemma views_ladder_mono (a b : Z) :
  a <= b ->
  (if a >? 10000 then 5 else if a >? 1000 then 3 else 0)
  <= (if b >? 10000 then 5 else if b >? 1000 then 3 else 0).
Proof.
  intros H.
  destruct (Z.gtb_spec a 10000), (Z.gtb_spec b 10000), (Z.gtb_spec a 1000),
           (Z.gtb_spec b 1000); lia.
Qed.

(** Community validation, once the points of the vote ratio are known. *)
Lemma community_validation_sum (m : SolutionMetrics) :
  _score_community_validation m =
  rbind (if upvotes m >? 0 then
           rbind (true_div (upvotes m) (Z.max 1 (upvotes m + downvotes m)))
                 (fun ratio =>
                    Ok (if fgt ratio (decimal 95 2) then 0 + 30
                        else if fgt ratio (decimal 85 2) then 0 + 25
                        else if fgt ratio (decimal 75 2) then 0 + 20
                        else if fgt ratio (decimal 65 2) then 0 + 15
                        else 0 + 10))
         else Ok 0)
        (fun score =>
           Ok (Z.min (score
                      + (if upvotes m >? 100 then 20
                         else if upvotes m >? 50 then 15
                         else if upvotes m >? 20 then 10
                         else if upvotes m >? 10 then 5 else 0)
                      + Z.min (confirmed_working m * 10) 30
                      + (if reply_count m >? 20 then 15
                         else if reply_count m >? 10 then 10
                         else if reply_count m >? 5 then 5 else 0)
                      + (if view_count m >? 10000 then 5
                         else if view_count m >? 1000 then 3 else 0))
                     100)).
Proof.
  unfold _score_community_validation.
  destruct (if upvotes m >? 0 then _ else _) as [score|e]; [|reflexivity].
  cbn [rbind]. f_equal. f_equal.
  destruct (upvotes m >? 100), (upvotes m >? 50), (upvotes m >? 20),
           (upvotes m >? 10), (reply_count m >? 20), (reply_count m >? 10),
           (reply_count m >? 5), (view_count m >? 10000), (view_count m >? 1000);
    lia.
Qed.

End Engagement.

(** X11. Community validation never falls when the engagement grows:
    with the votes unchanged, a record with at least as many
    confirmations, replies and views as another one gets a
    community-validation score at least as high, and gets one whenever
    the other does. *)
Theorem engagement_never_lowers_community_validation
    (m m' : SolutionMetrics) (c : Z) :
  upvotes m' = upvotes m -> downvotes m' = downvotes m ->
  confirmed_working m <= confirmed_working m' ->
  reply_count m <= reply_count m' ->
  view_count m <= view_count m' ->
  QualityScorer._score_community_validation m = Ok c ->
  exists c', QualityScorer._score_community_validation m' = Ok c' /\ c <= c'.
Proof.
  intros Hup Hdown Hconf Hreplies Hviews.
  rewrite !community_validation_sum, Hup, Hdown.
  destruct (if upvotes m >? 0 then _ else _) as [score|e]; [|discriminate].
  cbn [rbind]. intros H; injection H as <-.
  eexists. split; [reflexivity|].
  pose proof (replies_ladder_mono _ _ Hreplies).
  pose proof (views_ladder_mono _ _ Hviews).
  lia.
Qed.

Lemma engagement_never_lowers_community_validation_witness :
  exists c',
    QualityScorer._score_community_validation Samples.steam_best_contradicted
      = Ok c' /\ 65 <= c'.
Proof.
  apply (engagement_never_lowers_community_validation
           Cases.quiet Samples.steam_best_contradicted 65);
    try reflexivity; cbn; lia.
Defined.

(** X12. The length of a text counts in two ways.  Between two
    records that differ by the word count only, the content-quality
    score is greatest for 100 to 500 words: no other length scores
    more.  The detail-level score never falls when the word count
    grows. *)
Theorem length_has_a_sweet_spot_for_quality_not_for_detail
    (m m' : SolutionMetrics) :
  has_steps m' = has_steps m -> has_screenshots m' = has_screenshots m ->
  has_video m' = has_video m -> code_blocks m' = code_blocks m ->
  is_solved m' = is_solved m ->
  (100 <= word_count m <= 500 ->
   QualityScorer._score_content_quality m'
   <= QualityScorer._score_content_quality m) /\
  (word_count m <= word_count m' ->
   QualityScorer._score_detail_level m <= QualityScorer._score_detail_level m').
Proof.
  intros Hsteps Hshots Hvideo Hcode Hsolved.
  unfold QualityScorer._score_content_quality, QualityScorer._score_detail_level.
  rewrite Hsteps, Hshots, Hvideo, Hcode, Hsolved. cbv zeta.
  split; intros Hwc.
  - set (A := if code_blocks m >? 0 then _ else _).
    replace (100 <=? word_count m) with true by (symmetry; apply Z.leb_le; lia).
    replace (word_count m <=? 500) with true by (symmetry; apply Z.leb_le; lia).
    cbn [andb].
    destruct (is_solved m), (100 <=? word_count m'), (word_count m' <=? 500),
             (50 <=? word_count m'), (word_count m' <? 100),
             (500 <? word_count m'), (word_count m' <=? 1000),
             (word_count m' >? 1000); cbn [andb]; lia.
  - destruct (has_steps m), (has_screenshots m || has_video m)%bool,
             (code_blocks m >? 0),
             (Z.gtb_spec (word_count m) 200), (Z.gtb_spec (word_count m') 200),
             (Z.gtb_spec (word_count m) 100), (Z.gtb_spec (word_count m') 100),
             (Z.gtb_spec (word_count m) 50), (Z.gtb_spec (word_count m') 50);
      lia.
Qed.

Lemma length_has_a_sweet_spot_for_quality_not_for_detail_witness :
  QualityScorer._score_content_quality Cases.long_winded
  <= QualityScorer._score_content_quality Samples.steam_best_contradicted /\
  QualityScorer._score_detail_level Samples.steam_best_contradicted
  <= QualityScorer._score_detail_level Cases.long_winded.
Proof.
  destruct (length_has_a_sweet_spot_for_quality_not_for_detail
              Samples.steam_best_contradicted Cases.long_winded
              eq_refl eq_refl eq_refl eq_refl eq_refl) as [Hquality Hdetail].
  split.
  - apply Hquality. cbn. lia.
  - apply Hdetail. cbn. lia.
Defined.

(** X13. Recency never rises with age, and a date in the future counts
    as new: of two records with naive dates scored at the same clock
    reading, the one posted earlier never gets the greater recency
    score; every score is between 20 and 100; and a record dated at or
    after the clock reading scores 100. *)
Theorem recency_never_rises_with_age
    (m1 m2 : SolutionMetrics) (d1 d2 : datetime) (w : World) :
  post_date m1 = Some d1 -> post_date m2 = Some d2 ->
  utcoffset d1 = None -> utcoffset d2 = None ->
  instant d1 <= instant d2 ->
  exists r1 r2 w',
    QualityScorer._score_recency m1 w = Ok (r1, w') /\
    QualityScorer._score_recency m2 w = Ok (r2, w') /\
    20 <= r1 <= r2 /\ r2 <= 100 /\
    (clock w (reads w) <= instant d2 -> r2 = 100).
Proof.
  intros H1 H2 Hn1 Hn2 Hle.
  unfold QualityScorer._score_recency. rewrite H1, H2.
  unfold bind, datetime_now, lift, datetime_sub, ret. cbn [utcoffset instant].
  rewrite Hn1, Hn2.
  eexists. eexists. eexists. split; [reflexivity|]. split; [reflexivity|].
  unfold timedelta.
  set (now := clock w (reads w)).
  destruct (Z.ltb_spec (now - instant d1) (7 * 86400000000)),
           (Z.ltb_spec (now - instant d2) (7 * 86400000000)),
           (Z.ltb_spec (now - instant d1) (30 * 86400000000)),
           (Z.ltb_spec (now - instant d2) (30 * 86400000000)),
           (Z.ltb_spec (now - instant d1) (90 * 86400000000)),
           (Z.ltb_spec (now - instant d2) (90 * 86400000000)),
           (Z.ltb_spec (now - instant d1) (180 * 86400000000)),
           (Z.ltb_spec (now - instant d2) (180 * 86400000000)),
           (Z.ltb_spec (now - instant d1) (365 * 86400000000)),
           (Z.ltb_spec (now - instant d2) (365 * 86400000000));
    lia.
Qed.

Lemma recency_never_rises_with_age_witness :
  exists r1 r2 w',
    QualityScorer._score_recency Samples.reddit_metrics Samples.still_world
      = Ok (r1, w') /\
    QualityScorer._score_recency Samples.week_old Samples.still_world
      = Ok (r2, w') /\
    20 <= r1 <= r2 /\ r2 <= 100 /\
    (Samples.noon <= Samples.noon + 1 - 7 * Samples.day -> r2 = 100).
Proof.
  apply (recency_never_rises_with_age
           Samples.reddit_metrics Samples.week_old
           {| instant := Samples.noon - 10 * Samples.day; utcoffset := None |}
           {| instant := Samples.noon + 1 - 7 * Samples.day; utcoffset := None |}
           Samples.still_world);
    try reflexivity.
  vm_compute. discriminate.
Defined.

(* ================================================================= *)
(** * The analysis of a text *)

Section Analysis.

Import PyStr QualityScorer.

Lemma search_app (matcher : string -> bool) (a s : string) :
  matcher s = true -> search matcher (a ++ s) = true.
Proof.
  intros H. induction a as [|x a IH].
  - cbn [append]. destruct s; cbn [search]; rewrite H; reflexivity.
  - cbn [append search].
    destruct (matcher (String x (a ++ s))); [reflexivity|exact IH].
Qed.

Lemma no_tick_cons (x : ascii) (s : string) :
  contains "`" (String x s) = false ->
  x <> "`"%char /\ contains "`" s = false.
Proof.
  cbn [contains String.prefix].
  destruct (ascii_dec "`" x) as [He|Hne]; intros H.
  - destruct s; discriminate H.
  - split; [congruence|exact H].
Qed.

Lemma no_fence_at (x : ascii) (s : string) :
  x <> "`"%char -> String.prefix "```" (String x s) = false.
Proof.
  intros Hne. cbn [String.prefix].
  destruct (ascii_dec "`" x) as [<-|_]; [contradiction|reflexivity].
Qed.

(** Text without a backquote holds no fence, wherever the count
    starts. *)
Lemma count_no_tick (s : string) :
  contains "`" s = false -> forall skip, count_from skip "```" s = 0.
Proof.
  induction s as [|x s IH]; intros Hs skip; [reflexivity|].
  apply no_tick_cons in Hs. destruct Hs as [Hx Hs].
  cbn [count_from]. destruct skip as [|k]; [|apply IH; exact Hs].
  rewrite (no_fence_at x s Hx). apply IH. exact Hs.
Qed.

Lemma count_after_no_tick (a s : string) :
  contains "`" a = false ->
  count_from 0 "```" (a ++ s) = count_from 0 "```" s.
Proof.
  induction a as [|x a IH]; intros Ha; [reflexivity|].
  apply no_tick_cons in Ha. destruct Ha as [Hx Ha].
  cbn [append count_from]. rewrite (no_fence_at x _ Hx). apply IH. exact Ha.
Qed.

(** A fence counts for one, and the count goes on after it. *)
Lemma count_fence (s : string) :
  count_from 0 "```" ("```" ++ s) = 1 + count_from 0 "```" s.
Proof.
  cbn [append count_from].
  replace (String.prefix "```" (String "`" (String "`" (String "`" s))))
    with true; [reflexivity|].
  symmetry. cbn [String.prefix].
  destruct (ascii_dec "`" "`"); [|congruence].
  destruct s; reflexivity.
Qed.

Lemma prefix_length (lit s : string) :
  String.prefix lit s = true -> (String.length lit <= String.length s)%nat.
Proof.
  revert s. induction lit as [|c lit IH]; intros s; [cbn; lia|].
  destruct s as [|x s]; cbn [String.prefix String.length]; [discriminate|].
  destruct (ascii_dec c x); [|discriminate].
  intros H. specialize (IH s H). lia.
Qed.

(** The matches of a literal do not overlap: there is room for each
    of them. *)
Lemma count_from_room (lit : string) :
  lit <> "" ->
  forall s skip,
    0 <= count_from skip lit s /\
    (count_from skip lit s = 0 \/
     len lit * count_from skip lit s + Z.of_nat skip <= len s).
Proof.
  intros Hlit.
  assert (Hl : (1 <= String.length lit)%nat)
    by (destruct lit; [contradiction|cbn; lia]).
  unfold len.
  induction s as [|x s IH]; intros skip; cbn [count_from String.length];
    [split; [lia|left; reflexivity]|].
  destruct skip as [|k].
  - destruct (String.prefix lit (String x s)) eqn:Hp.
    + apply prefix_length in Hp. cbn [String.length] in Hp.
      destruct (IH (String.length lit - 1)%nat) as [H0 [Hz|Hroom]].
      * split; [lia|]. right. rewrite Hz. lia.
      * split; [lia|]. right. rewrite Z.mul_add_distr_l, Z.mul_1_r. lia.
    + destruct (IH 0%nat) as [H0 [Hz|Hroom]].
      * split; [lia|]. left. exact Hz.
      * split; [lia|]. right. lia.
  - destruct (IH k) as [H0 [Hz|Hroom]].
    + split; [lia|]. left. exact Hz.
    + split; [lia|]. right. lia.
Qed.

Lemma count_words_room (s : string) :
  forall in_word, 0 <= count_words in_word s <= len s.
Proof.
  unfold len. induction s as [|x s IH]; intros in_word;
    cbn [count_words String.length]; [lia|].
  destruct (is_space x).
  - specialize (IH false). lia.
  - specialize (IH true). destruct in_word; lia.
Qed.

End Analysis.

(** X14. Any digit followed by a full stop marks a text as having
    steps: whatever comes before and after it (a version number, a
    decimal, a date), [analyze_content] sets [has_steps]. *)
Theorem a_digit_and_a_full_stop_count_as_steps (before after : string) (c : ascii) :
  PyStr.is_digit c = true ->
  QualityScorer.a_has_steps
    (QualityScorer.analyze_content (before ++ String c (String "." after)))
  = true.
Proof.
  intros Hc. unfold QualityScorer.analyze_content.
  cbn [QualityScorer.a_has_steps QualityScorer.step_patterns existsb].
  rewrite search_app; [reflexivity|].
  cbn [QualityScorer.pat_numbered PyStr.digits_dot]. rewrite Hc. reflexivity.
Qed.

Lemma a_digit_and_a_full_stop_count_as_steps_witness :
  QualityScorer.a_has_steps
    (QualityScorer.analyze_content "Fixed in patch 1.04 for me") = true.
Proof.
  apply (a_digit_and_a_full_stop_count_as_steps
           "Fixed in patch " "04 for me" "1"%char).
  reflexivity.
Defined.

(** X15. [code_blocks] counts fences, not blocks: a text with one
    fenced block, that is an opening and a closing fence and no other
    backquote, has [code_blocks = 2]. *)
Theorem one_fenced_block_counts_twice (before inside after : string) :
  PyStr.contains "`" before = false ->
  PyStr.contains "`" inside = false ->
  PyStr.contains "`" after = false ->
  QualityScorer.a_code_blocks
    (QualityScorer.analyze_content
       (before ++ "```" ++ inside ++ "```" ++ after))
  = 2.
Proof.
  intros Hb Hi Ha. unfold QualityScorer.analyze_content.
  cbn [QualityScorer.a_code_blocks]. unfold PyStr.findall_len.
  rewrite (count_after_no_tick _ _ Hb), count_fence.
  rewrite (count_after_no_tick _ _ Hi), count_fence.
  rewrite (count_no_tick _ Ha). reflexivity.
Qed.

Lemma one_fenced_block_counts_twice_witness :
  QualityScorer.a_code_blocks
    (QualityScorer.analyze_content "Run ```sfc /scannow``` once.") = 2.
Proof.
  apply (one_fenced_block_counts_twice "Run " "sfc /scannow" " once.");
    reflexivity.
Defined.

(** X16. The counts of the analysis are counts: for every text the
    word count is between 0 and the length of the text, the fences are
    disjoint, so that three times [code_blocks] is at most the length,
    and the number of confirmations is not negative. *)
Theorem analysis_counts_fit_the_text (content : string) :
  0 <= QualityScorer.a_word_count (QualityScorer.analyze_content content)
    <= PyStr.len content /\
  0 <= QualityScorer.a_code_blocks (QualityScorer.analyze_content content) /\
  3 * QualityScorer.a_code_blocks (QualityScorer.analyze_content content)
    <= PyStr.len content /\
  0 <= QualityScorer.a_confirmed_working (QualityScorer.analyze_content content).
Proof.
  unfold QualityScorer.analyze_content.
  cbn [QualityScorer.a_word_count QualityScorer.a_code_blocks
       QualityScorer.a_confirmed_working].
  split; [apply count_words_room|].
  unfold PyStr.findall_len.
  destruct (count_from_room "```" ltac:(discriminate) content 0%nat) as [H0 Hroom].
  split; [exact H0|]. split.
  - change (PyStr.len "```") with 3 in Hroom.
    pose proof (count_words_room content false) as Hw.
    destruct Hroom as [Hz|Hroom]; [rewrite Hz|]; lia.
  - unfold QualityScorer.confirmation_phrases. cbn [fold_left].
    repeat match goal with
           | |- context [PyStr.count_from 0 (PyStr.lower ?p) ?s] =>
               let H := fresh "Hc" in
               destruct (count_from_room (PyStr.lower p)
                           ltac:(discriminate) s 0%nat) as [H _];
               generalize dependent (PyStr.count_from 0 (PyStr.lower p) s);
               intros
           end.
    lia.
Qed.

(* ================================================================= *)
(** * The clock and the platform *)

(** X17. [compare_solutions] consults the clock twice for every pair
    whose record has a date, once for its recency and once for the
    weakness "Over 1 year old", and never for a record without a date;
    it creates no record and leaves the clock itself alone. *)
Theorem the_clock_is_read_twice_per_dated_record
    (solutions : list (nat * string)) (w w' : World)
    (ranked : list QualityScorer.RankedSolution) :
  QualityScorer.compare_solutions solutions w = Ok (ranked, w') ->
  reads w' = (reads w + 2 * Effects.dated_pairs w solutions)%nat /\
  clock w' = clock w /\
  next_ref w' = next_ref w.
Proof.
  unfold QualityScorer.compare_solutions, bind.
  destruct (QualityScorer.score_all solutions w) as [[entries w1]|] eqn:Hall;
    [|discriminate].
  unfold ret. intros H; injection H as _ <-.
  destruct (score_all_effect _ _ _ _ Hall) as (Hc & Hr & Hn & _).
  repeat split; assumption.
Qed.

Lemma the_clock_is_read_twice_per_dated_record_witness :
  match QualityScorer.compare_solutions Samples.tie_batch Samples.shared_world with
  | Ok (_, w') => reads w' = 6%nat
  | Raise _ => False
  end.
Proof.
  destruct (QualityScorer.compare_solutions Samples.tie_batch Samples.shared_world)
    as [[ranked w']|e] eqn:H.
  - destruct (the_clock_is_read_twice_per_dated_record _ _ _ _ H) as [Hr _].
    exact Hr.
  - vm_compute in H. discriminate H.
Defined.

Section Platform.

Import PyStr QualityScorer Variants.




End Platform.


(* ================================================================= *)
(** * Significant downvotes *)

Section Downvotes.

Import Rounding FloatFacts NonNegative Notions QualityScorer.

Lemma iter_xO_mul (p k : positive) :
  Zpos (Pos.iter xO p k) = Zpos p * 2 ^ Zpos k.
Proof.
  induction k as [|k IH] using Pos.peano_ind.
  - cbn [Pos.iter]. change (2 ^ 1) with 2. lia.
  - rewrite Pos.iter_succ, Pos2Z.inj_xO, IH, Pos2Z.inj_succ, Z.pow_succ_r by lia.
    ring.
Qed.

(** An integer with at most 53 digits is a binary64, stored with a
    full mantissa. *)
Lemma of_int_exact (u : Z) :
  0 < u < two53 ->
  exists mu eu,
    of_int u = Ok (S754_finite false mu eu) /\
    Zpos mu = u * 2 ^ (- eu) /\ -52 <= eu <= 0 /\
    Zpos two52 <= Zpos mu < two53.
Proof.
  intros Hu. destruct u as [|p|p]; try lia.
  unfold of_int. cbn [binary_normalize]. unfold binary_round.
  pose proof (Zdigits2_bounds (Zpos p) ltac:(lia)) as Hb.
  pose proof (Zdigits2_le (Zpos p) 53 ltac:(unfold two53 in Hu; lia) ltac:(lia))
    as Hd53.
  change (Zdigits2 (Zpos p)) with (Zpos (digits2_pos p)) in Hb, Hd53.
  set (d := Zpos (digits2_pos p)) in *.
  rewrite Z.add_0_r, fexp_eq.
  assert (Hal : exists mu eu,
             shl_align p 0 (Z.max (d - 53) (-1074)) = (mu, eu) /\
             Zpos mu = Zpos p * 2 ^ (- eu) /\ eu = d - 53).
  { unfold shl_align. rewrite Z.sub_0_r.
    destruct (Z.max (d - 53) (-1074)) as [|k|k] eqn:Hk; try lia.
    - exists p, 0. split; [reflexivity|]. split; [|lia].
      change (2 ^ (- 0)) with 1. lia.
    - exists (Pos.iter xO p k), (Zneg k). split; [reflexivity|]. split; [|lia].
      rewrite iter_xO_mul. reflexivity. }
  destruct Hal as (mu & eu & -> & Hmu & Heu).
  assert (Hrange : Zpos two52 <= Zpos mu < two53).
  { rewrite Hmu. replace (- eu) with (53 - d) by lia.
    assert (Hs : 2 ^ d * 2 ^ (53 - d) = two53).
    { rewrite <- Z.pow_add_r by lia. replace (d + (53 - d)) with 53 by lia.
      reflexivity. }
    assert (Hs' : 2 ^ (d - 1) * 2 ^ (53 - d) = Zpos two52).
    { rewrite <- Z.pow_add_r by lia. replace (d - 1 + (53 - d)) with 52 by lia.
      reflexivity. }
    pose proof (pow2_pos (53 - d) ltac:(lia)) as Hp.
    rewrite <- Hs, <- Hs'. split.
    - apply Z.mul_le_mono_nonneg_r; lia.
    - apply Z.mul_lt_mono_pos_r; lia. }
  exists mu, eu. split; [|repeat split; lia].
  unfold binary_round_aux.
  rewrite (renormalize_small (Zpos mu) eu) by lia.
  cbn [shr_m loc_of_shr_record round_nearest_even].
  rewrite (renormalize_small (Zpos mu) eu) by lia.
  cbn [shr_m].
  replace (eu <=? emax - prec) with true
    by (symmetry; apply Z.leb_le; unfold emax, prec; lia).
  reflexivity.
Qed.

(** The comparison [d > u * 0.3], roundings included, is the
    comparison of [10 d] with [3 u]. *)
Lemma three_tenths (u d : Z) :
  0 <= u < 2 ^ 51 ->
  exists up,
    of_int u = Ok up /\
    num_gt (PyInt d) (PyFlt (fmul up (decimal 3 1))) = (3 * u <? 10 * d).
Proof.
  intros Hu. change (2 ^ 51) with 2251799813685248 in Hu.
  change (decimal 3 1) with (S754_finite false 5404319552844595 (-54)).
  destruct (Z.eq_dec u 0) as [->|Hne].
  { exists (S754_zero false). split; [reflexivity|].
    unfold num_gt, num_lt, fmul, SFmul.
    cbn [num_compare xorb compare_int_float option_map].
    change (3 * 0) with 0.
    destruct (Z.compare_spec d 0); cbn [CompOpp];
      destruct (Z.ltb_spec 0 (10 * d)); try reflexivity; lia. }
  destruct (of_int_exact u ltac:(unfold two53; lia))
    as (mu & eu & Hof & Hmu & Heu & Hrange).
  exists (S754_finite false mu eu). split; [exact Hof|].
  unfold two52, two53 in Hrange.
  set (P := 2 ^ (- eu)) in *.
  assert (HP4 : 4 <= P).
  { destruct (Z_lt_le_dec eu (-1)) as [Hlt|Hge].
    - subst P. change 4 with (2 ^ 2). apply Z.pow_le_mono_r; lia.
    - exfalso. assert (HP2 : P <= 2 ^ 1) by (subst P; apply Z.pow_le_mono_r; lia).
      change (2 ^ 1) with 2 in HP2. nia. }
  assert (Heu2 : eu <= -2).
  { destruct (Z_lt_le_dec eu (-1)) as [Hlt|Hge]; [lia|exfalso].
    assert (HP2 : P <= 2 ^ 1) by (subst P; apply Z.pow_le_mono_r; lia).
    change (2 ^ 1) with 2 in HP2. lia. }
  unfold fmul, SFmul. cbn [xorb].
  set (q := Zpos (mu * 5404319552844595)).
  set (e0 := eu + -54).
  assert (Hq : q = Zpos mu * 5404319552844595) by (subst q; apply Pos2Z.inj_mul).
  assert (Hq104 : 2 ^ 104 <= q < 2 ^ 106).
  { change (2 ^ 104) with (4503599627370496 * 4503599627370496).
    change (2 ^ 106) with (9007199254740992 * 9007199254740992). rewrite Hq. nia. }
  destruct (binary_round_aux_spec false q e0 q 1 loc_Exact
              ltac:(lia) eq_refl (Rep_exact q)) as (r1 & HR1 & Hm1 & ->).
  rewrite fexp_eq in *.
  pose proof (Zdigits2_bounds q ltac:(lia)) as Hdq.
  pose proof (Zdigits2_le q 106 ltac:(lia) ltac:(lia)) as Hdq106.
  set (dq := Zdigits2 q) in *.
  assert (Hdq105 : 105 <= dq).
  { destruct (Z_lt_le_dec dq 105) as [Hlt|]; [exfalso|assumption].
    pose proof (Zdigits2_nonneg q) as Hnn. fold dq in Hnn.
    assert (2 ^ dq <= 2 ^ 104) by (apply Z.pow_le_mono_r; lia). lia. }
  set (e1 := Z.max e0 (Z.max (dq + e0 - 53) (-1074))) in *.
  assert (He1 : e1 = dq + eu - 107) by (subst e1 e0; lia).
  rewrite Z.mul_1_r in HR1.
  set (D := 2 ^ (e1 - e0)) in *.
  assert (HD : 0 < D) by (subst D; apply pow2_pos; subst e0; lia).
  set (m' := round_nearest_even (shr_m r1) (loc_of_shr_record r1)).
  assert (Habove : forall K, (K <? m') = above K q D)
    by (intros K; apply round_nearest_even_above; assumption).
  assert (Hm' : 0 <= m' <= two53).
  { subst m'. destruct (loc_of_shr_record r1) as [|[| |]]; cbn [round_nearest_even];
      try destruct (Z.even (shr_m r1)); lia. }
  (* the two possible scales *)
  assert (HDcases : (D = 2 ^ 52 /\ q < 2 ^ 105) \/ D = 2 ^ 53).
  { destruct (Z.eq_dec dq 105) as [E|E].
    - left. split.
      + subst D. f_equal. subst e0. lia.
      + rewrite E in Hdq. apply Hdq.
    - right. subst D. f_equal. subst e0. lia. }
  set (s := - e1).
  assert (Hs : 3 <= s) by (subst s; lia).
  assert (HsD : 2 ^ s * D = 2 ^ 54 * P).
  { subst D P s. rewrite <- !Z.pow_add_r by (subst e0; lia).
    f_equal. subst e0. lia. }
  (* the rounded mantissa is positive *)
  assert (Hpos : 0 < m').
  { apply Z.ltb_lt. rewrite Habove. unfold above. cbn [Z.even].
    apply Z.ltb_lt.
    destruct HDcases as [[-> _]| ->];
      [change (2 ^ 52) with 4503599627370496
      |change (2 ^ 53) with 9007199254740992];
      change (2 ^ 104) with 20282409603651670423947251286016 in Hq104; lia. }
  (* the comparison with [d], in terms of the rounded mantissa *)
  assert (Hflag : num_gt (PyInt d) (PyFlt (assemble false m' e1))
                  = negb (d * 2 ^ s - 1 <? m')).
  { unfold num_gt, num_lt. cbn [num_compare]. unfold assemble.
    destruct (Z.eqb_spec m' two53) as [Hc|Hc].
    - replace (e1 + 1 <=? 971) with true by (symmetry; apply Z.leb_le; lia).
      unfold compare_int_float.
      destruct (e1 + 1) as [|k|k] eqn:Hk; try lia.
      rewrite Z.shiftl_mul_pow2 by lia. cbn [option_map].
      assert (Hpow : 2 ^ s = 2 * 2 ^ Zpos k).
      { replace s with (Zpos k + 1) by (subst s; lia).
        rewrite Z.pow_add_r by lia. change (2 ^ 1) with 2. ring. }
      rewrite Hpow, Hc. unfold two52, two53.
      destruct (Z.compare_spec (d * 2 ^ Zpos k) 4503599627370496);
        destruct (Z.ltb_spec (d * (2 * 2 ^ Zpos k) - 1) 9007199254740992);
        cbn; try reflexivity; lia.
    - destruct m' as [|p|p] eqn:Hp; try lia.
      replace (e1 <=? 971) with true by (symmetry; apply Z.leb_le; lia).
      unfold compare_int_float.
      destruct e1 as [|k|k] eqn:Hk; try lia.
      rewrite Z.shiftl_mul_pow2 by lia. cbn [option_map].
      replace s with (Zpos k) by (subst s; lia).
      destruct (Z.compare_spec (d * 2 ^ Zpos k) (Zpos p));
        destruct (Z.ltb_spec (d * 2 ^ Zpos k - 1) (Zpos p));
        cbn; try reflexivity; lia. }
  rewrite Hflag, Habove. clear Hflag Habove.
  (* [d * 2^s - 1] is odd *)
  assert (Hodd : Z.even (d * 2 ^ s - 1) = false).
  { replace s with (s - 1 + 1) by lia. rewrite Z.pow_add_r by lia.
    change (2 ^ 1) with 2.
    replace (d * (2 ^ (s - 1) * 2) - 1) with (-1 + 2 * (d * 2 ^ (s - 1))) by ring.
    rewrite Z.even_add_mul_2. reflexivity. }
  unfold above. rewrite Hodd.
  (* everything in terms of [X = d P] and [Y = u P] *)
  assert (Hlhs : (2 * (d * 2 ^ s - 1) + 1) * D = 2 ^ 55 * (d * P) - D).
  { replace ((2 * (d * 2 ^ s - 1) + 1) * D) with (2 * d * (2 ^ s * D) - D) by ring.
    rewrite HsD. change (2 ^ 55) with (2 * 2 ^ 54). ring. }
  rewrite Hlhs, Hq, Hmu. fold P.
  set (X := d * P). set (Y := u * P).
  assert (HY : Y = Zpos mu) by (subst Y; lia).
  assert (Hdiff : 10 * X - 3 * Y = P * (10 * d - 3 * u)) by (subst X Y; ring).
  change (2 ^ 55) with 36028797018963968.
  change (2 ^ 105) with 40564819207303340847894502572032 in HDcases.
  change (2 ^ 52) with 4503599627370496 in HDcases.
  change (2 ^ 53) with 9007199254740992 in HDcases.
  rewrite Hq, Hmu in HDcases. fold P in HDcases. fold Y in HDcases.
  rewrite HY in *.
  clearbody D X P. clear HR1 Hm1 Hm' Hpos HsD Hlhs Hq104 Hdq Hq.
  destruct (Z.ltb_spec (3 * u) (10 * d)) as [Hlt|Hge]; cbn [negb].
  - (* more than three tenths: the product rounds below [d] *)
    apply negb_true_iff. apply Z.leb_gt.
    assert (Hstep : P <= 10 * X - 3 * Zpos mu).
    { rewrite Hdiff. assert (1 <= 10 * d - 3 * u) by lia. nia. }
    destruct HDcases as [[-> _]| ->]; lia.
  - (* at most three tenths *)
    apply negb_false_iff. apply Z.leb_le.
    assert (Hstep : 10 * X - 3 * Zpos mu <= 0).
    { rewrite Hdiff. assert (10 * d - 3 * u <= 0) by lia. nia. }
    destruct HDcases as [[-> Hsmall]| ->]; lia.
Qed.

Lemma in_append_if_iff (b : bool) (x y : string) (l : list string) :
  In x (append_if b y l) <-> In x l \/ (b = true /\ x = y).
Proof.
  unfold append_if. destruct b.
  - rewrite in_app_iff. cbn. intuition congruence.
  - intuition discriminate.
Qed.

End Downvotes.

(** X19. "Significant downvotes" is listed exactly when the downvotes
    exceed three tenths of the upvotes: for a record with fewer than
    [2^51] upvotes and a date that is absent or naive,
    [_identify_weaknesses] returns a list that holds "Significant
    downvotes" if and only if [10 * downvotes > 3 * upvotes], the
    conversion of the upvotes to a float, the binary64 constant [0.3]
    and the rounding of the product notwithstanding. *)
Theorem significant_downvotes_means_more_than_three_tenths
    (m : SolutionMetrics) (w : World) :
  0 <= upvotes m < 2 ^ 51 ->
  Notions.naive_or_absent (post_date m) ->
  exists wk w',
    QualityScorer._identify_weaknesses m w = Ok (wk, w') /\
    (In "Significant downvotes" wk <-> 3 * upvotes m < 10 * downvotes m).
Proof.
  intros Hu Hdate.
  destruct (three_tenths (upvotes m) (downvotes m) Hu) as (up & Hup & Hflag).
  unfold QualityScorer._identify_weaknesses, bind, lift. rewrite Hup, Hflag.
  unfold Notions.naive_or_absent in Hdate.
  destruct (post_date m) as [dt|];
    [unfold datetime_now, datetime_sub; cbn [utcoffset instant]; rewrite Hdate|];
    unfold ret; eexists; eexists; (split; [reflexivity|]);
    rewrite !in_append_if_iff; cbn [In];
    destruct (Z.ltb_spec (3 * upvotes m) (10 * downvotes m));
    intuition (try discriminate; try lia; auto).
Qed.

Lemma significant_downvotes_means_more_than_three_tenths_witness :
  exists wk w',
    QualityScorer._identify_weaknesses Cases.three_in_ten Samples.still_world
      = Ok (wk, w') /\
    (In "Significant downvotes" wk <-> 3 * 10 < 10 * 3).
Proof.
  apply (significant_downvotes_means_more_than_three_tenths
           Cases.three_in_ten Samples.still_world).
  - cbn. lia.
  - exact I.
Defined.

(* ================================================================= *)
(** * The preview of a text *)

Section Preview.

Import PyStr QualityScorer.



End Preview.



(* ================================================================= *)
(** * Rounding keeps the order *)

Section RoundingOrder.

Import Rounding FloatFacts NonNegative Values.

(** Rounding an integer with at least 53 digits, at exponent [e]: the
    mantissa has its 53 digits, or is [2^53]. *)
Lemma round_normal (q e : Z) :
  Zpos two52 <= q -> -1074 <= Zdigits2 q + e - 53 ->
  exists m',
    binary_round_aux prec emax false q e loc_Exact
      = assemble false m' (Zdigits2 q + e - 53) /\
    Zpos two52 <= m' <= two53 /\
    (forall K, (K <? m') = above K q (2 ^ (Zdigits2 q - 53))).
Proof.
  intros Hq HE. unfold two52 in Hq.
  pose proof (Zdigits2_bounds q ltac:(lia)) as Hd.
  set (d := Zdigits2 q) in *.
  assert (Hd53 : 53 <= d).
  { destruct (Z_lt_le_dec d 53) as [Hlt|]; [exfalso|assumption].
    pose proof (Zdigits2_nonneg q) as Hnn. fold d in Hnn.
    assert (2 ^ d <= 2 ^ 52) by (apply Z.pow_le_mono_r; lia).
    change (2 ^ 52) with 4503599627370496 in H. lia. }
  destruct (binary_round_aux_spec false q e q 1 loc_Exact
              ltac:(lia) eq_refl (Rep_exact q)) as (r1 & HR1 & Hm1 & Heq).
  fold d in HR1, Heq. rewrite fexp_eq in HR1, Heq.
  replace (Z.max e (Z.max (d + e - 53) (-1074))) with (d + e - 53) in HR1, Heq by lia.
  replace (d + e - 53 - e) with (d - 53) in HR1 by lia.
  rewrite Z.mul_1_r in HR1.
  set (D := 2 ^ (d - 53)) in *.
  assert (HD : 0 < D) by (subst D; apply pow2_pos; lia).
  set (m' := round_nearest_even (shr_m r1) (loc_of_shr_record r1)) in *.
  assert (Habove : forall K, (K <? m') = above K q D)
    by (intros K; apply round_nearest_even_above; assumption).
  assert (HqD : 4503599627370496 * D <= q < 9007199254740992 * D).
  { subst D. change 4503599627370496 with (2 ^ 52).
    change 9007199254740992 with (2 ^ 53).
    rewrite <- !Z.pow_add_r by lia.
    replace (52 + (d - 53)) with (d - 1) by lia.
    replace (53 + (d - 53)) with d by lia. exact Hd. }
  exists m'. split; [exact Heq|]. split; [|exact Habove].
  unfold two52, two53. split.
  - assert (H : (4503599627370495 <? m') = true).
    { rewrite Habove. unfold above.
      change (Z.even 4503599627370495) with false. apply Z.leb_le. lia. }
    apply Z.ltb_lt in H. lia.
  - assert (H : (9007199254740992 <? m') = false).
    { rewrite Habove. unfold above.
      change (Z.even 9007199254740992) with true. apply Z.ltb_ge. lia. }
    apply Z.ltb_ge in H. exact H.
Qed.

(** What the rounded mantissa and its exponent make. *)
Lemma assemble_value (m' E : Z) :
  Zpos two52 <= m' <= two53 -> -1100 <= E <= 970 ->
  value (assemble false m' E) = m' * 2 ^ (E + 1100) /\
  ranged E (E + 1) (assemble false m' E).
Proof.
  intros Hm HE. unfold assemble, two52, two53 in *.
  destruct (Z.eqb_spec m' 9007199254740992) as [->|Hne].
  - replace (E + 1 <=? 971) with true by (symmetry; apply Z.leb_le; lia).
    cbn [value ranged]. split.
    + replace (E + 1 + 1100) with (E + 1100 + 1) by lia.
      rewrite Z.pow_add_r by lia. change (2 ^ 1) with 2. unfold two52. lia.
    + unfold two52, two53. lia.
  - destruct m' as [|p|p]; try lia.
    replace (E <=? 971) with true by (symmetry; apply Z.leb_le; lia).
    cbn [value ranged]. split; [reflexivity|]. unfold two52, two53. lia.
Qed.

(** Rounding is monotone: of two integers with at least 53 digits,
    each at its exponent, the one that stands for the lesser number
    rounds to the lesser float. *)
Lemma round_mono (q1 e1 q2 e2 : Z) :
  Zpos two52 <= q1 -> Zpos two52 <= q2 ->
  -1100 <= e1 -> -1100 <= e2 ->
  -1074 <= Zdigits2 q1 + e1 - 53 -> Zdigits2 q2 + e2 - 53 <= 970 ->
  q1 * 2 ^ (e1 + 1100) <= q2 * 2 ^ (e2 + 1100) ->
  exists lo hi,
    ranged lo hi (binary_round_aux prec emax false q1 e1 loc_Exact) /\
    ranged lo hi (binary_round_aux prec emax false q2 e2 loc_Exact) /\
    lo = Zdigits2 q1 + e1 - 53 /\ hi = Zdigits2 q2 + e2 - 53 + 1 /\
    value (binary_round_aux prec emax false q1 e1 loc_Exact)
    <= value (binary_round_aux prec emax false q2 e2 loc_Exact).
Proof.
  intros Hq1 Hq2 He1 He2 HE1 HE2 Hle.
  pose proof (Zdigits2_bounds q1 ltac:(unfold two52 in Hq1; lia)) as Hd1.
  pose proof (Zdigits2_bounds q2 ltac:(unfold two52 in Hq2; lia)) as Hd2.
  set (d1 := Zdigits2 q1) in *. set (d2 := Zdigits2 q2) in *.
  assert (Hd1' : 53 <= d1).
  { destruct (Z_lt_le_dec d1 53) as [Hlt|]; [exfalso|assumption].
    pose proof (Zdigits2_nonneg q1) as Hnn. fold d1 in Hnn.
    assert (2 ^ d1 <= 2 ^ 52) by (apply Z.pow_le_mono_r; lia).
    change (2 ^ 52) with (Zpos two52) in H. lia. }
  assert (Hd2' : 53 <= d2).
  { destruct (Z_lt_le_dec d2 53) as [Hlt|]; [exfalso|assumption].
    pose proof (Zdigits2_nonneg q2) as Hnn. fold d2 in Hnn.
    assert (2 ^ d2 <= 2 ^ 52) by (apply Z.pow_le_mono_r; lia).
    change (2 ^ 52) with (Zpos two52) in H. lia. }
  (* the magnitudes are in order *)
  assert (Hmag : d1 + e1 <= d2 + e2).
  { assert (H1 : 2 ^ (d1 - 1) * 2 ^ (e1 + 1100) <= q1 * 2 ^ (e1 + 1100))
      by (apply Z.mul_le_mono_nonneg_r; [apply Z.pow_nonneg|]; lia).
    assert (H2 : q2 * 2 ^ (e2 + 1100) < 2 ^ d2 * 2 ^ (e2 + 1100))
      by (apply Z.mul_lt_mono_pos_r; [apply pow2_pos|]; lia).
    rewrite <- Z.pow_add_r in H1, H2 by lia.
    assert (H3 : 2 ^ (d1 - 1 + (e1 + 1100)) < 2 ^ (d2 + (e2 + 1100))) by lia.
    apply Z.pow_lt_mono_r_iff in H3; lia. }
  destruct (round_normal q1 e1 Hq1 HE1) as (m1 & -> & Hm1 & Hab1).
  destruct (round_normal q2 e2 Hq2 ltac:(fold d2; lia)) as (m2 & -> & Hm2 & Hab2).
  fold d1 in Hab1 |- *. fold d2 in Hab2 |- *.
  set (E1 := d1 + e1 - 53) in *. set (E2 := d2 + e2 - 53) in *.
  destruct (assemble_value m1 E1 Hm1 ltac:(lia)) as [-> Hr1].
  destruct (assemble_value m2 E2 Hm2 ltac:(lia)) as [-> Hr2].
  exists E1, (E2 + 1).
  assert (Hw1 : ranged E1 (E2 + 1) (assemble false m1 E1)).
  { revert Hr1. unfold ranged. destruct (assemble false m1 E1) as [|[|]| |[|] m e]; try tauto.
    intros [? ?]. split; [assumption|lia]. }
  assert (Hw2 : ranged E1 (E2 + 1) (assemble false m2 E2)).
  { revert Hr2. unfold ranged. destruct (assemble false m2 E2) as [|[|]| |[|] m e]; try tauto.
    intros [? ?]. split; [assumption|lia]. }
  split; [exact Hw1|]. split; [exact Hw2|]. split; [reflexivity|].
  split; [reflexivity|].
  unfold two52, two53 in *.
  destruct (Z.eq_dec E1 E2) as [HE|HE].
  - (* the same exponent: the mantissas are in order *)
    rewrite HE. apply Z.mul_le_mono_nonneg_r; [apply Z.pow_nonneg; lia|].
    assert (H : (m1 - 1 <? m2) = true).
    { rewrite Hab2. pose proof (Hab1 (m1 - 1)) as H1.
      replace (m1 - 1 <? m1) with true in H1 by (symmetry; apply Z.ltb_lt; lia).
      symmetry in H1. revert H1. unfold above.
      set (S1 := 2 ^ (E2 + 1100)).
      assert (HS1 : 2 ^ (d1 - 53) * 2 ^ (e1 + 1100) = S1).
      { subst S1. rewrite <- Z.pow_add_r by lia. f_equal. lia. }
      assert (HS2 : 2 ^ (d2 - 53) * 2 ^ (e2 + 1100) = S1).
      { subst S1. rewrite <- Z.pow_add_r by lia. f_equal. lia. }
      pose proof (pow2_pos (e1 + 1100) ltac:(lia)) as HP1.
      pose proof (pow2_pos (e2 + 1100) ltac:(lia)) as HP2.
      set (P1 := 2 ^ (e1 + 1100)) in *. set (P2 := 2 ^ (e2 + 1100)) in *.
      set (D1 := 2 ^ (d1 - 53)) in *. set (D2 := 2 ^ (d2 - 53)) in *.
      set (K := 2 * (m1 - 1) + 1).
      destruct (Z.even (m1 - 1)).
      - intros H1. apply Z.ltb_lt in H1. apply Z.ltb_lt.
        apply (Z.mul_lt_mono_pos_r P2); [assumption|].
        replace (K * D2 * P2) with (K * S1) by (rewrite <- HS2; ring).
        assert (K * S1 < 2 * q1 * P1).
        { replace (K * S1) with (K * D1 * P1) by (rewrite <- HS1; ring).
          apply Z.mul_lt_mono_pos_r; assumption. }
        lia.
      - intros H1. apply Z.leb_le in H1. apply Z.leb_le.
        apply (Z.mul_le_mono_pos_r _ _ P2); [assumption|].
        replace (K * D2 * P2) with (K * S1) by (rewrite <- HS2; ring).
        assert (K * S1 <= 2 * q1 * P1).
        { replace (K * S1) with (K * D1 * P1) by (rewrite <- HS1; ring).
          apply Z.mul_le_mono_nonneg_r; lia. }
        lia. }
    apply Z.ltb_lt in H. lia.
  - (* a lesser exponent *)
    assert (Hlt : E1 + 1 <= E2) by (subst E1 E2; lia).
    assert (Hp : 2 * 2 ^ (E1 + 1100) <= 2 ^ (E2 + 1100)).
    { replace (2 * 2 ^ (E1 + 1100)) with (2 ^ (E1 + 1100 + 1))
        by (rewrite Z.pow_add_r by lia; change (2 ^ 1) with 2; ring).
      apply Z.pow_le_mono_r; lia. }
    pose proof (pow2_pos (E1 + 1100) ltac:(lia)) as HP1.
    set (A := 2 ^ (E1 + 1100)) in *. set (B := 2 ^ (E2 + 1100)) in *.
    nia.
Qed.

End RoundingOrder.

Section OperationsOrder.

Import Rounding FloatFacts NonNegative Values.

Lemma value_nonneg (f : float) : 0 <= value f.
Proof.
  destruct f as [| | |s m e]; cbn [value]; [lia|lia|lia|].
  apply Z.mul_nonneg_nonneg; [lia|apply Z.pow_nonneg; lia].
Qed.

Lemma ranged_weaken (lo hi lo' hi' : Z) (f : float) :
  lo' <= lo -> hi <= hi' -> ranged lo hi f -> ranged lo' hi' f.
Proof.
  intros Hlo Hhi. destruct f as [|[|]| |[|] m e]; cbn [ranged]; try tauto.
  intros [? ?]. split; [assumption|lia].
Qed.

Lemma ranged_value_pos (lo hi : Z) (m : positive) (e : Z) :
  -1100 <= e -> 0 < value (S754_finite false m e).
Proof.
  intros He. cbn [value]. pose proof (pow2_pos (e + 1100) ltac:(lia)). nia.
Qed.

(** Two roundings in order. *)
Lemma rounds_to_mono (lo hi : Z) (f f' : float) (v v' : Z) :
  -1074 <= lo -> hi <= 970 ->
  rounds_to lo hi f v -> rounds_to lo hi f' v' -> v <= v' ->
  ranged lo (hi + 1) f /\ ranged lo (hi + 1) f' /\ value f <= value f'.
Proof.
  intros Hlo Hhi
    [(s & -> & ->)|(q & e & -> & Hq & He & HE & ->)]
    [(s' & -> & ->)|(q' & e' & -> & Hq' & He' & HE' & ->)] Hle.
  - cbn. repeat split; lia.
  - destruct (round_mono q' e' q' e' Hq' Hq' He' He' ltac:(lia) ltac:(lia)
                ltac:(lia)) as (l & h & Hr & _ & -> & -> & _).
    split; [exact I|]. split.
    + eapply ranged_weaken; [| |exact Hr]; lia.
    + cbn [value]. apply value_nonneg.
  - exfalso. unfold two52 in Hq.
    pose proof (pow2_pos (e + 1100) ltac:(lia)). nia.
  - destruct (round_mono q e q' e' Hq Hq' He He' ltac:(lia) ltac:(lia) Hle)
      as (l & h & Hr & Hr' & -> & -> & Hv).
    split; [eapply ranged_weaken; [| |exact Hr]; lia|].
    split; [eapply ranged_weaken; [| |exact Hr']; lia|exact Hv].
Qed.

(** A float with a full mantissa is its own rounding. *)
Lemma round_exact (m : positive) (e : Z) :
  Zpos two52 <= Zpos m < two53 -> -1074 <= e <= 971 ->
  binary_round_aux prec emax false (Zpos m) e loc_Exact = S754_finite false m e.
Proof.
  intros Hm He. unfold binary_round_aux.
  rewrite (renormalize_small (Zpos m) e) by lia.
  cbn [shr_m loc_of_shr_record round_nearest_even].
  rewrite (renormalize_small (Zpos m) e) by lia.
  cbn [shr_m].
  replace (e <=? emax - prec) with true
    by (symmetry; apply Z.leb_le; unfold emax, prec; lia).
  reflexivity.
Qed.

Lemma full_digits (m : positive) :
  Zpos two52 <= Zpos m < two53 -> Zdigits2 (Zpos m) = 53.
Proof.
  intros Hm. apply Zdigits2_eq; [|lia]. unfold two52, two53 in Hm.
  change (2 ^ (53 - 1)) with 4503599627370496.
  change (2 ^ 53) with 9007199254740992. exact Hm.
Qed.

Lemma ranged_rounds_to (lo hi : Z) (f : float) :
  -1074 <= lo -> hi <= 971 ->
  ranged lo hi f -> rounds_to lo hi f (value f).
Proof.
  intros Hlo Hhi. destruct f as [s|[|]| |[|] m e]; cbn [ranged]; try tauto.
  - intros _. left. exists s. split; reflexivity.
  - intros [Hm He]. right. exists (Zpos m), e.
    rewrite (round_exact m e Hm ltac:(lia)), (full_digits m Hm).
    repeat split; try lia.
Qed.

Lemma product_digits (mx mc : positive) :
  Zpos two52 <= Zpos mx < two53 -> Zpos two52 <= Zpos mc < two53 ->
  105 <= Zdigits2 (Zpos (mx * mc)) <= 106.
Proof.
  intros Hx Hc. unfold two52, two53 in *.
  assert (Hq : 2 ^ 104 <= Zpos (mx * mc) < 2 ^ 106).
  { rewrite Pos2Z.inj_mul.
    change (2 ^ 104) with (4503599627370496 * 4503599627370496).
    change (2 ^ 106) with (9007199254740992 * 9007199254740992). nia. }
  pose proof (Zdigits2_bounds (Zpos (mx * mc)) ltac:(lia)) as Hd.
  pose proof (Zdigits2_le (Zpos (mx * mc)) 106 ltac:(lia) ltac:(lia)) as Hd106.
  split; [|exact Hd106].
  destruct (Z_lt_le_dec (Zdigits2 (Zpos (mx * mc))) 105) as [Hlt|]; [exfalso|assumption].
  pose proof (Zdigits2_nonneg (Zpos (mx * mc))) as Hnn.
  assert (2 ^ Zdigits2 (Zpos (mx * mc)) <= 2 ^ 104)
    by (apply Z.pow_le_mono_r; lia).
  lia.
Qed.

(** A product by a constant, as a rounding. *)
Lemma fmul_rounds (lo hi : Z) (x : float) (mc : positive) (ec : Z) :
  ranged lo hi x -> Zpos two52 <= Zpos mc < two53 ->
  ec <= 0 -> -1100 <= lo + ec ->
  exists v,
    rounds_to (lo + ec + 52) (hi + ec + 53) (fmul x (S754_finite false mc ec)) v /\
    v * 2 ^ (- ec) = value x * Zpos mc.
Proof.
  intros Hx Hc Hec Hlo.
  destruct x as [s|[|]| |[|] mx ex]; cbn [ranged] in Hx; try contradiction.
  - exists 0. split; [|cbn [value]; lia]. left. exists (xorb s false).
    split; reflexivity.
  - destruct Hx as [Hmx Hex].
    exists (Zpos (mx * mc) * 2 ^ (ex + ec + 1100)). split.
    + right. exists (Zpos (mx * mc)), (ex + ec).
      pose proof (product_digits mx mc Hmx Hc) as Hd.
      split; [reflexivity|]. split.
      { rewrite Pos2Z.inj_mul. unfold two52, two53 in *. nia. }
      split; [lia|]. split; [lia|reflexivity].
    + cbn [value]. rewrite Pos2Z.inj_mul.
      replace (ex + 1100) with (ex + ec + 1100 + - ec) by lia.
      rewrite (Z.pow_add_r 2 (ex + ec + 1100) (- ec)) by lia. ring.
Qed.

Lemma shl_align_fst (mx : positive) (ex ez : Z) :
  ez <= ex ->
  Zpos (fst (shl_align mx ex ez)) = Zpos mx * 2 ^ (ex - ez).
Proof.
  intros Hle. unfold shl_align.
  destruct (ez - ex) as [|d|d] eqn:Hd; try lia; cbn [fst].
  - replace (ex - ez) with 0 by lia. change (2 ^ 0) with 1. lia.
  - rewrite iter_xO_mul. f_equal. f_equal. lia.
Qed.

(** A sum, as a rounding. *)
Lemma fadd_rounds (lo hi : Z) (x y : float) :
  -1074 <= lo -> hi <= 969 ->
  ranged lo hi x -> ranged lo hi y ->
  rounds_to lo (hi + 1) (fadd x y) (value x + value y).
Proof.
  intros Hlo Hhi Hx Hy.
  destruct x as [sx|[|]| |[|] mx ex]; cbn [ranged] in Hx; try contradiction;
    destruct y as [sy|[|]| |[|] my ey]; cbn [ranged] in Hy; try contradiction.
  - left. destruct sx, sy; eexists; split; reflexivity.
  - change (fadd (S754_zero sx) (S754_finite false my ey))
      with (S754_finite false my ey).
    change (value (S754_zero sx)) with 0. rewrite Z.add_0_l.
    apply (ranged_rounds_to lo (hi + 1)); [lia|lia|].
    cbn [ranged]. split; [tauto|lia].
  - change (fadd (S754_finite false mx ex) (S754_zero sy))
      with (S754_finite false mx ex).
    change (value (S754_zero sy)) with 0. rewrite Z.add_0_r.
    apply (ranged_rounds_to lo (hi + 1)); [lia|lia|].
    cbn [ranged]. split; [tauto|lia].
  - destruct Hx as [Hmx Hex], Hy as [Hmy Hey].
    unfold fadd, SFadd. cbn [cond_Zopp].
    set (ez := Z.min ex ey).
    pose proof (shl_align_fst mx ex ez ltac:(subst ez; lia)) as Hax.
    pose proof (shl_align_fst my ey ez ltac:(subst ez; lia)) as Hay.
    set (ax := fst (shl_align mx ex ez)) in *.
    set (ay := fst (shl_align my ey ez)) in *.
    change (Zpos ax + Zpos ay) with (Zpos (ax + ay)).
    cbn [binary_normalize]. unfold binary_round.
    pose proof (pow2_pos (ex - ez) ltac:(subst ez; lia)) as Hpx.
    pose proof (pow2_pos (ey - ez) ltac:(subst ez; lia)) as Hpy.
    (* the digits of the sum *)
    set (top := Z.max ex ey).
    assert (Hsum : Zpos (ax + ay) = Zpos mx * 2 ^ (ex - ez) + Zpos my * 2 ^ (ey - ez))
      by (rewrite Pos2Z.inj_add, Hax, Hay; reflexivity).
    assert (Hptop : 2 ^ (ex - ez) <= 2 ^ (top - ez) /\ 2 ^ (ey - ez) <= 2 ^ (top - ez))
      by (split; apply Z.pow_le_mono_r; subst top ez; lia).
    assert (Hone : 2 ^ (top - ez) = 2 ^ (ex - ez) \/ 2 ^ (top - ez) = 2 ^ (ey - ez))
      by (subst top; destruct (Z.max_spec ex ey) as [[_ ->]|[_ ->]]; auto).
    pose proof (pow2_pos (top - ez) ltac:(subst top ez; lia)) as Hpt.
    assert (Hlow : 2 ^ (52 + (top - ez)) <= Zpos (ax + ay)).
    { rewrite Z.pow_add_r by (subst top ez; lia).
      change (2 ^ 52) with (Zpos two52). rewrite Hsum.
      unfold two52, two53 in *. destruct Hone as [E|E]; rewrite E; nia. }
    assert (Hhigh : Zpos (ax + ay) < 2 ^ (54 + (top - ez))).
    { rewrite Z.pow_add_r by (subst top ez; lia).
      change (2 ^ 54) with (2 * two53). rewrite Hsum.
      unfold two52, two53 in *. nia. }
    pose proof (Zdigits2_bounds (Zpos (ax + ay)) ltac:(lia)) as Hd.
    pose proof (Zdigits2_le (Zpos (ax + ay)) (54 + (top - ez))
                  ltac:(lia) ltac:(subst top ez; lia)) as Hdle.
    set (d := Zdigits2 (Zpos (ax + ay))) in *.
    assert (Hdge : 53 + (top - ez) <= d).
    { destruct (Z_lt_le_dec d (53 + (top - ez))) as [Hlt|]; [exfalso|assumption].
      pose proof (Zdigits2_nonneg (Zpos (ax + ay))) as Hnn. fold d in Hnn.
      assert (2 ^ d <= 2 ^ (52 + (top - ez)))
        by (apply Z.pow_le_mono_r; lia).
      lia. }
    change (Zpos (digits2_pos (ax + ay))) with d.
    rewrite fexp_eq.
    assert (Hkeep : shl_align (ax + ay) ez (Z.max (d + ez - 53) (-1074))
                    = ((ax + ay)%positive, ez)).
    { unfold shl_align.
      destruct (Z.max (d + ez - 53) (-1074) - ez) eqn:Hk; try reflexivity.
      exfalso. subst top ez. lia. }
    rewrite Hkeep.
    right. exists (Zpos (ax + ay)), ez.
    split; [reflexivity|]. split.
    { assert (2 ^ 52 <= 2 ^ (52 + (top - ez)))
        by (apply Z.pow_le_mono_r; subst top ez; lia).
      change (2 ^ 52) with (Zpos two52) in H. lia. }
    split; [subst ez; lia|]. split; [fold d; subst top ez; lia|].
    rewrite Hsum. cbn [value].
    rewrite Z.mul_add_distr_r, <- !Z.mul_assoc, <- !Z.pow_add_r
      by (subst ez; lia).
    f_equal; f_equal; f_equal; lia.
Qed.

(** Products and sums keep the order. *)
Lemma fmul_mono (lo hi : Z) (x x' : float) (mc : positive) (ec : Z) :
  ranged lo hi x -> ranged lo hi x' -> Zpos two52 <= Zpos mc < two53 ->
  ec <= 0 -> -1100 <= lo + ec -> hi + ec + 53 <= 970 ->
  value x <= value x' ->
  ranged (lo + ec + 52) (hi + ec + 54) (fmul x (S754_finite false mc ec)) /\
  ranged (lo + ec + 52) (hi + ec + 54) (fmul x' (S754_finite false mc ec)) /\
  value (fmul x (S754_finite false mc ec))
  <= value (fmul x' (S754_finite false mc ec)).
Proof.
  intros Hx Hx' Hc Hec Hlo Hhi Hle.
  destruct (fmul_rounds lo hi x mc ec Hx Hc Hec ltac:(lia)) as (v & Hv & Hvx).
  destruct (fmul_rounds lo hi x' mc ec Hx' Hc Hec ltac:(lia)) as (v' & Hv' & Hvx').
  replace (hi + ec + 54) with (hi + ec + 53 + 1) by lia.
  apply (rounds_to_mono _ _ _ _ v v'); [lia|lia|assumption|assumption|].
  pose proof (pow2_pos (- ec) ltac:(lia)) as Hp.
  apply (Z.mul_le_mono_pos_r _ _ (2 ^ (- ec))); [assumption|].
  rewrite Hvx, Hvx'. apply Z.mul_le_mono_nonneg_r; lia.
Qed.

Lemma fadd_mono (lo hi : Z) (x y x' y' : float) :
  -1074 <= lo -> hi <= 968 ->
  ranged lo hi x -> ranged lo hi y -> ranged lo hi x' -> ranged lo hi y' ->
  value x <= value x' -> value y <= value y' ->
  ranged lo (hi + 2) (fadd x y) /\ ranged lo (hi + 2) (fadd x' y') /\
  value (fadd x y) <= value (fadd x' y').
Proof.
  intros Hlo Hhi Hx Hy Hx' Hy' Hlex Hley.
  replace (hi + 2) with (hi + 1 + 1) by lia.
  apply (rounds_to_mono _ _ _ _ (value x + value y) (value x' + value y'));
    [lia|lia| | |lia]; apply fadd_rounds; try assumption; lia.
Qed.

End OperationsOrder.

(* ================================================================= *)
(** * The score follows the factor scores *)

Section ScoreOrder2.

Import Rounding FloatFacts NonNegative Notions ScoreFacts QualityScorer Values
       Levels.

Lemma multiplier_form (f : float) :
  multiplier f = true ->
  exists m e, f = S754_finite false m e /\
              Zpos two52 <= Zpos m < two53 /\ -56 <= e <= -52.
Proof.
  destruct f as [| | |[|] m e]; cbn [multiplier]; try discriminate.
  rewrite !andb_true_iff, !Z.leb_le, Z.ltb_lt. intros [[[? ?] ?] ?].
  exists m, e. repeat split; assumption.
Qed.

Lemma WEIGHTS_multiplier (f : factor) : multiplier (WEIGHTS f) = true.
Proof. destruct f; vm_compute; reflexivity. Qed.

Lemma platform_multiplier (key : string) :
  multiplier (dict_get PLATFORM_TRUST key (decimal 10 1)) = true.
Proof.
  unfold PLATFORM_TRUST. cbn [dict_get].
  repeat match goal with
         | |- context [if String.eqb ?k key then _ else _] =>
             destruct (String.eqb k key)
         end; vm_compute; reflexivity.
Qed.

(** An integer score as a float. *)
Lemma of_int_ranged (s : Z) :
  0 <= s < two53 ->
  exists f, of_int s = Ok f /\ ranged (-52) 0 f /\ value f = s * 2 ^ 1100.
Proof.
  intros Hs. destruct (Z.eq_dec s 0) as [->|Hne].
  - exists (S754_zero false). repeat split.
  - destruct (of_int_exact s ltac:(lia)) as (mu & eu & Hof & Hmu & Heu & Hrange).
    exists (S754_finite false mu eu). split; [exact Hof|]. split.
    + cbn [ranged]. split; [exact Hrange|lia].
    + cbn [value]. rewrite Hmu, <- Z.mul_assoc, <- Z.pow_add_r by lia.
      f_equal. f_equal. lia.
Qed.

(** A product by a multiplier keeps the order. *)
Lemma multiply_mono (lo hi : Z) (x x' c : float) :
  multiplier c = true -> -1000 <= lo -> hi <= 900 ->
  ranged lo hi x -> ranged lo hi x' -> value x <= value x' ->
  ranged (lo - 4) (hi + 2) (fmul x c) /\ ranged (lo - 4) (hi + 2) (fmul x' c) /\
  value (fmul x c) <= value (fmul x' c).
Proof.
  intros Hc Hlo Hhi Hx Hx' Hle.
  destruct (multiplier_form c Hc) as (mc & ec & -> & Hmc & Hec).
  destruct (fmul_mono lo hi x x' mc ec Hx Hx' Hmc ltac:(lia) ltac:(lia) ltac:(lia) Hle)
    as (Hr & Hr' & Hv).
  split; [eapply ranged_weaken; [| |exact Hr]; lia|].
  split; [eapply ranged_weaken; [| |exact Hr']; lia|exact Hv].
Qed.

(** The weighted terms of two tables in order are in order. *)
Lemma weighted_terms_mono (scores scores' : list (factor * Z)) :
  table_le scores scores' ->
  exists ts ts',
    weighted_terms scores = Ok ts /\ weighted_terms scores' = Ok ts' /\
    Forall2 (fun t t' => ranged (-56) 2 t /\ ranged (-56) 2 t' /\
                         value t <= value t') ts ts'.
Proof.
  induction 1 as [|[f s] [f' s'] rest rest' Hhead _ IH]; cbn [weighted_terms].
  - exists [], []. repeat split. constructor.
  - cbn [fst snd] in Hhead. destruct Hhead as (<- & Hs & Hs').
    destruct IH as (ts & ts' & -> & -> & Hall).
    destruct (of_int_ranged s ltac:(unfold two53; lia)) as (x & Hx & Hrx & Hvx).
    destruct (of_int_ranged s' ltac:(unfold two53; lia)) as (x' & Hx' & Hrx' & Hvx').
    unfold weighted. rewrite Hx, Hx'. cbn [rbind].
    eexists. eexists. split; [reflexivity|]. split; [reflexivity|].
    constructor; [|exact Hall].
    assert (Hle : value x <= value x').
    { rewrite Hvx, Hvx'. apply Z.mul_le_mono_nonneg_r; [apply Z.pow_nonneg|]; lia. }
    destruct (multiply_mono (-52) 0 x x' (WEIGHTS f) (WEIGHTS_multiplier f)
                ltac:(lia) ltac:(lia) Hrx Hrx' Hle) as (Hr & Hr' & Hv).
    split; [exact Hr|]. split; [exact Hr'|exact Hv].
Qed.

(** Sums of terms in order are in order. *)
Lemma fold_fadd_mono (ts ts' : list float) :
  Forall2 (fun t t' => ranged (-56) 2 t /\ ranged (-56) 2 t' /\
                       value t <= value t') ts ts' ->
  forall (acc acc' : float) (hi : Z),
    2 <= hi -> hi + 2 * Z.of_nat (List.length ts) <= 900 ->
    ranged (-56) hi acc -> ranged (-56) hi acc' -> value acc <= value acc' ->
    ranged (-56) (hi + 2 * Z.of_nat (List.length ts)) (fold_left fadd ts acc) /\
    ranged (-56) (hi + 2 * Z.of_nat (List.length ts)) (fold_left fadd ts' acc') /\
    value (fold_left fadd ts acc) <= value (fold_left fadd ts' acc').
Proof.
  induction 1 as [|t t' ts ts' (Ht & Ht' & Hv) _ IH]; intros acc acc' hi Hhi Hbound
    Hacc Hacc' Hle; cbn [fold_left List.length].
  - rewrite Z.mul_0_r, Z.add_0_r. repeat split; assumption.
  - cbn [List.length] in Hbound.
    destruct (fadd_mono (-56) hi acc t acc' t' ltac:(lia) ltac:(lia) Hacc
                (ranged_weaken (-56) 2 (-56) hi t ltac:(lia) Hhi Ht) Hacc'
                (ranged_weaken (-56) 2 (-56) hi t' ltac:(lia) Hhi Ht') Hle Hv)
      as (Hr & Hr' & Hs).
    replace (hi + 2 * Z.of_nat (S (List.length ts)))
      with (hi + 2 + 2 * Z.of_nat (List.length ts)) by lia.
    apply IH; try assumption; lia.
Qed.

Lemma ranged_stored (lo hi : Z) (f : float) :
  -1074 <= lo -> hi <= 971 -> ranged lo hi f -> stored f.
Proof.
  intros Hlo Hhi. destruct f as [s|[|]| |[|] m e]; cbn [ranged stored]; try tauto.
  intros [Hm He]. split; [left; split; [exact Hm|lia]|lia].
Qed.

(** Among ranged floats the order of the values is the order of the
    places. *)
Lemma ranged_place (lo hi : Z) (a b : float) :
  -1074 <= lo -> ranged lo hi a -> ranged lo hi b -> value a <= value b ->
  lex_lt (place (PyFlt b)) (place (PyFlt a)) = false.
Proof.
  intros Hlo Ha Hb.
  destruct a as [sa|[|]| |[|] m e]; cbn [ranged] in Ha; try contradiction;
    destruct b as [sb|[|]| |[|] m' e']; cbn [ranged] in Hb; try contradiction;
    unfold lex_lt, place; cbn [value fst snd]; intros Hle.
  - reflexivity.
  - rewrite orb_false_iff, andb_false_iff, !Z.ltb_ge, Z.eqb_neq. lia.
  - exfalso. pose proof (pow2_pos (e + 1100) ltac:(lia)). nia.
  - rewrite orb_false_iff, andb_false_iff, !Z.ltb_ge, Z.eqb_neq.
    unfold two52, two53 in *.
    destruct (Z_lt_le_dec e' e) as [Hlt|Hge].
    + exfalso.
      assert (Hp : 2 * 2 ^ (e' + 1100) <= 2 ^ (e + 1100)).
      { replace (2 * 2 ^ (e' + 1100)) with (2 ^ (e' + 1100 + 1))
          by (rewrite Z.pow_add_r by lia; change (2 ^ 1) with 2; ring).
        apply Z.pow_le_mono_r; lia. }
      pose proof (pow2_pos (e' + 1100) ltac:(lia)).
      set (A := 2 ^ (e' + 1100)) in *. set (B := 2 ^ (e + 1100)) in *. nia.
    + split; [lia|]. destruct (Z.eq_dec e' e) as [->|]; [right|left; lia].
      pose proof (pow2_pos (e + 1100) ltac:(lia)).
      set (A := 2 ^ (e + 1100)) in *. nia.
Qed.

(** The score follows the table of the factor scores. *)
Lemma clamped_total_mono (scores scores' : list (factor * Z)) (key : string)
    (penalised : bool) :
  table_le scores scores' -> (List.length scores <= 6)%nat ->
  exists ts ts',
    weighted_terms scores = Ok ts /\ weighted_terms scores' = Ok ts' /\
    num_le
      (clamp (if penalised
              then fmul (fmul (py_sum ts)
                              (dict_get PLATFORM_TRUST key (decimal 10 1)))
                        (decimal 8 1)
              else fmul (py_sum ts) (dict_get PLATFORM_TRUST key (decimal 10 1))))
      (clamp (if penalised
              then fmul (fmul (py_sum ts')
                              (dict_get PLATFORM_TRUST key (decimal 10 1)))
                        (decimal 8 1)
              else fmul (py_sum ts') (dict_get PLATFORM_TRUST key (decimal 10 1))))
    = true.
Proof.
  intros Htable Hlen.
  destruct (weighted_terms_mono _ _ Htable) as (ts & ts' & Hts & Hts' & Hall).
  exists ts, ts'. split; [exact Hts|]. split; [exact Hts'|].
  assert (Hlen' : (List.length ts <= 6)%nat).
  { enough (Heq : List.length ts = List.length scores) by lia.
    clear - Hts. revert ts Hts.
    induction scores as [|[f s] rest IH]; intros ts; cbn [weighted_terms].
    - intros H; injection H as <-. reflexivity.
    - destruct (weighted s f); [|discriminate]. cbn [rbind].
      destruct (weighted_terms rest) as [ts0|]; [|discriminate]. cbn [rbind].
      intros H; injection H as <-. cbn [List.length].
      rewrite (IH ts0 eq_refl). reflexivity. }
  destruct (fold_fadd_mono ts ts' Hall fzero fzero 2 ltac:(lia) ltac:(lia) I I
              ltac:(lia)) as (Hs & Hs' & Hv).
  fold (py_sum ts) in Hs, Hv. fold (py_sum ts') in Hs', Hv.
  set (hi := 2 + 2 * Z.of_nat (List.length ts)) in *.
  assert (Hhi : hi <= 14) by (subst hi; lia).
  destruct (multiply_mono (-56) hi _ _ _ (platform_multiplier key)
              ltac:(lia) ltac:(lia) Hs Hs' Hv) as (Hp & Hp' & Hpv).
  destruct penalised.
  - assert (H8 : multiplier (decimal 8 1) = true) by (vm_compute; reflexivity).
    destruct (multiply_mono (-56 - 4) (hi + 2) _ _ _ H8
                ltac:(lia) ltac:(lia) Hp Hp' Hpv) as (Hq & Hq' & Hqv).
    apply clamp_mono.
    + eapply ranged_stored; [| |exact Hq']; lia.
    + eapply ranged_stored; [| |exact Hq]; lia.
    + eapply ranged_place; [|exact Hq|exact Hq'|exact Hqv]; lia.
  - apply clamp_mono.
    + eapply ranged_stored; [| |exact Hp']; lia.
    + eapply ranged_stored; [| |exact Hp]; lia.
    + eapply ranged_place; [|exact Hp|exact Hp'|exact Hpv]; lia.
Qed.

(** Two records on the same platform, with the same penalty and the
    same recency, whose tables of factor scores are in order. *)
Lemma calculate_score_table_mono (m m' : SolutionMetrics) (w w1 : World)
    (c c' r : Z) :
  platform m' = platform m -> contradicted m' = contradicted m ->
  _score_community_validation m = Ok c ->
  _score_community_validation m' = Ok c' ->
  _score_recency m w = Ok (r, w1) -> _score_recency m' w = Ok (r, w1) ->
  table_le (score_table m c r) (score_table m' c' r) ->
  exists s s',
    calculate_score m w = Ok (s, w1) /\ calculate_score m' w = Ok (s', w1) /\
    num_le s s' = true.
Proof.
  intros Hplat Hcontra Hc Hc' Hr Hr' Htable.
  destruct (clamped_total_mono _ _ (PyStr.lower (platform m)) (contradicted m)
              Htable ltac:(cbn; lia)) as (ts & ts' & Hts & Hts' & Hle).
  rewrite !calculate_score_eq.
  unfold bind, pre_penalty_total, lift, ret. rewrite Hc, Hc'. unfold bind.
  rewrite Hr, Hr', Hts, Hts', Hplat, Hcontra.
  eexists. eexists. split; [reflexivity|]. split; [reflexivity|].
  destruct (contradicted m); exact Hle.
Qed.

End ScoreOrder2.

(** X21. The score follows the factor scores: of two records on the
    same platform, with the same [contradicted] flag and the same
    (absent or naive) date, whose community-validation scores [c <= c']
    are in [[0,100]] and whose author-credibility, content-quality,
    official-endorsement and detail-level scores are in order, the
    first never gets the greater final score; the weights, the
    left-to-right sum, the platform multiplier, the penalty and the
    clamp, each with its binary64 rounding, keep the order. *)
Theorem score_follows_the_factor_scores
    (m m' : SolutionMetrics) (w : World) (c c' : Z) :
  platform m' = platform m -> contradicted m' = contradicted m ->
  post_date m' = post_date m -> Notions.naive_or_absent (post_date m) ->
  QualityScorer._score_community_validation m = Ok c ->
  QualityScorer._score_community_validation m' = Ok c' ->
  0 <= c <= c' -> c' <= 100 ->
  QualityScorer._score_author_credibility m
    <= QualityScorer._score_author_credibility m' ->
  QualityScorer._score_content_quality m
    <= QualityScorer._score_content_quality m' ->
  QualityScorer._score_official_endorsement m
    <= QualityScorer._score_official_endorsement m' ->
  QualityScorer._score_detail_level m <= QualityScorer._score_detail_level m' ->
  exists s s' w',
    QualityScorer.calculate_score m w = Ok (s, w') /\
    QualityScorer.calculate_score m' w = Ok (s', w') /\
    num_le s s' = true.
Proof.
  intros Hplat Hcontra Hdate Hnaive Hc Hc' Hcc Hc100 Ha Hq Ho Hd.
  destruct (ScoreFacts.recency_total m w Hnaive) as (r & w1 & Hr).
  assert (Hr' : QualityScorer._score_recency m' w = Ok (r, w1)).
  { unfold QualityScorer._score_recency in *. rewrite Hdate. exact Hr. }
  pose proof (ScoreFacts.recency_range m w w1 r Hr) as Hrr.
  pose proof (ScoreFacts.author_credibility_range m).
  pose proof (ScoreFacts.author_credibility_range m').
  pose proof (ScoreFacts.content_quality_range m).
  pose proof (ScoreFacts.content_quality_range m').
  pose proof (ScoreFacts.official_endorsement_range m).
  pose proof (ScoreFacts.official_endorsement_range m').
  pose proof (ScoreFacts.detail_level_range m).
  pose proof (ScoreFacts.detail_level_range m').
  assert (Htable : Values.table_le (Notions.score_table m c r)
                                   (Notions.score_table m' c' r)).
  { unfold Values.table_le, Notions.score_table.
    repeat (constructor; [cbn [fst snd]; split; [reflexivity|lia]|]).
    constructor. }
  destruct (calculate_score_table_mono m m' w w1 c c' r Hplat Hcontra Hc Hc'
              Hr Hr' Htable) as (s & s' & Hs & Hs' & Hle).
  exists s, s', w1. repeat split; assumption.
Qed.

(** The author of the sample post, some years later, scores more. *)
Lemma score_follows_the_factor_scores_witness :
  exists s s' w',
    QualityScorer.calculate_score Samples.reddit_metrics Samples.still_world
      = Ok (s, w') /\
    QualityScorer.calculate_score Cases.seasoned Samples.still_world
      = Ok (s', w') /\
    num_le s s' = true.
Proof.
  apply (score_follows_the_factor_scores
           Samples.reddit_metrics Cases.seasoned Samples.still_world 65 65).
  - reflexivity.
  - reflexivity.
  - reflexivity.
  - reflexivity.
  - reflexivity.
  - reflexivity.
  - lia.
  - lia.
  - vm_compute. discriminate.
  - vm_compute. discriminate.
  - vm_compute. discriminate.
  - vm_compute. discriminate.
Defined.

(** X22. Endorsements never lower the score: for a record with
    non-negative [downvotes] and [confirmed_working] and a date that
    is absent or naive, setting any of [is_solved], [dev_response] and
    [mod_endorsed] (and clearing none) gives a final score that is at
    least the score of the record as it was. *)
Theorem endorsements_never_lower_the_score
    (m : SolutionMetrics) (solved dev moderator : bool) (w : World) :
  0 <= downvotes m -> 0 <= confirmed_working m ->
  Notions.naive_or_absent (post_date m) ->
  (is_solved m = true -> solved = true) ->
  (dev_response m = true -> dev = true) ->
  (mod_endorsed m = true -> moderator = true) ->
  exists s s' w',
    QualityScorer.calculate_score m w = Ok (s, w') /\
    QualityScorer.calculate_score
      (Variants.with_endorsements m solved dev moderator) w = Ok (s', w') /\
    num_le s s' = true.
Proof.
  intros Hd Hc Hdate Hsolved Hdev Hmod.
  destruct (ScoreFacts.community_validation_total m Hd Hc) as (c & Hcv & Hcr).
  destruct (ScoreFacts.recency_total m w Hdate) as (r & w1 & Hr).
  pose proof (ScoreFacts.recency_range m w w1 r Hr) as Hrr.
  set (m' := Variants.with_endorsements m solved dev moderator).
  pose proof (ScoreFacts.author_credibility_range m).
  pose proof (ScoreFacts.content_quality_range m).
  pose proof (ScoreFacts.content_quality_range m').
  pose proof (ScoreFacts.official_endorsement_range m).
  pose proof (ScoreFacts.official_endorsement_range m').
  pose proof (ScoreFacts.detail_level_range m).
  assert (Hquality : QualityScorer._score_content_quality m
                     <= QualityScorer._score_content_quality m').
  { unfold QualityScorer._score_content_quality. subst m'.
    cbn [Variants.with_endorsements has_steps has_screenshots has_video
         code_blocks word_count is_solved].
    cbv zeta.
    set (A := if (100 <=? word_count m) && (word_count m <=? 500) then _ else _).
    destruct (is_solved m), solved; try lia; discriminate (Hsolved eq_refl). }
  assert (Hofficial : QualityScorer._score_official_endorsement m
                      <= QualityScorer._score_official_endorsement m').
  { unfold QualityScorer._score_official_endorsement,
      QualityScorer.official_endorsement_sum. subst m'.
    cbn [Variants.with_endorsements is_solved dev_response mod_endorsed].
    destruct (is_solved m), solved, (dev_response m), dev, (mod_endorsed m),
             moderator; cbv zeta; try lia;
      first [discriminate (Hsolved eq_refl) | discriminate (Hdev eq_refl)
            | discriminate (Hmod eq_refl)]. }
  assert (Htable : Values.table_le (Notions.score_table m c r)
                                   (Notions.score_table m' c r)).
  { unfold Values.table_le, Notions.score_table.
    repeat (constructor; [cbn [fst snd]; split; [reflexivity|]|]);
      [| | | | | |constructor];
      try (change (QualityScorer._score_author_credibility m')
             with (QualityScorer._score_author_credibility m));
      try (change (QualityScorer._score_detail_level m')
             with (QualityScorer._score_detail_level m));
      lia. }
  destruct (calculate_score_table_mono m m' w w1 c c r eq_refl eq_refl Hcv Hcv
              Hr Hr Htable) as (s & s' & Hs & Hs' & Hle).
  exists s, s', w1. repeat split; assumption.
Qed.

Lemma endorsements_never_lower_the_score_witness :
  exists s s' w',
    QualityScorer.calculate_score Samples.reddit_metrics Samples.still_world
      = Ok (s, w') /\
    QualityScorer.calculate_score
      (Variants.with_endorsements Samples.reddit_metrics true true true)
      Samples.still_world = Ok (s', w') /\
    num_le s s' = true.
Proof.
  apply (endorsements_never_lower_the_score
           Samples.reddit_metrics true true true Samples.still_world);
    try reflexivity; cbn; lia.
Defined.

(* ================================================================= *)
(** * The score follows the trust in the platform *)

Section PlatformOrder.

Import Rounding FloatFacts NonNegative Notions ScoreFacts QualityScorer Values
       Levels.







End PlatformOrder.


